(** * Search providers of the QWC2 demo application

    A shallow embedding of [js/SearchProviders.js] and the properties of the
    search-provider contract that the functions of that file satisfy.

    Conventions of the embedding.

    - A JavaScript number is an IEEE-754 double.  It is modelled by [number]:
      a rational, one of the two infinities, or NaN.  The operations of the
      code ([+], [*], [parseFloat]) round their exact result to the nearest
      double, ties to even, and overflow to an infinity ([round64]); the two
      zeros are one value, which no operation of the file tells apart.  A
      decimal literal of the tables of [layerSearch] is written with the
      digits of the source.
    - A string is a [string] whose characters are read as code units below 256.
    - A JavaScript value that the code only passes through is a [value].
      An object literal is the list of its properties in source order; reading
      a property that is not there yields [VUndefined].
    - A function that may throw returns an [outcome].  A promise chain is a
      computation in [M]: [then_] runs its handler on fulfilment, [catch_] on
      rejection, and [dispatch] (or a callback) appends to the trace of
      observable calls.
    - The answer of a remote service is an input of the provider function:
      either [Ok payload] or [Fail e]; a payload is a record shaped like the
      JSON document of that service, and a field the service may leave out is
      an [option]. *)

From Stdlib Require Import List String Ascii Bool Arith ZArith QArith Qabs Lia Lqa.
From Stdlib Require Import Qround Qpower Qreduction.
From Stdlib Require Import DecimalString DecimalNat Permutation.
Import ListNotations.

Set Warnings "-register-all".

Local Close Scope Q_scope.
Local Open Scope string_scope.
Local Open Scope list_scope.
Local Open Scope nat_scope.

(** String concatenation, the [+] of the source on strings. *)
Infix "+:+" := String.append (at level 60, right associativity).

(** ** JavaScript numbers *)

Inductive number : Type :=
| Fin (q : Q)
| PInf
| NInf
| NaN.

Definition is_finite (a : number) : bool :=
  match a with Fin _ => true | _ => false end.

(** The integer nearest to [q]; of two nearest ones, the even one. *)
Definition round_even (q : Q) : Z :=
  let f := Qfloor q in
  match (q - inject_Z f ?= 1 # 2)%Q with
  | Lt => f
  | Gt => (f + 1)%Z
  | Eq => if Z.even f then f else (f + 1)%Z
  end.

(** The binary exponent of [q], for [q] other than 0: the [e] with
    [2^e <= |q| < 2^(e+1)]. *)
Definition exponent (q : Q) : Z :=
  let e := (Z.log2 (Z.abs (Qnum q)) - Z.log2 (Zpos (Qden q)))%Z in
  if Qle_bool (2 ^ e)%Q (Qabs q) then e else (e - 1)%Z.

(** The exponent of the unit in the last place of the doubles near [q]:
    53 bits of precision, and no unit below [2^-1074]. *)
Definition ulp_exponent (q : Q) : Z := Z.max (exponent q - 52) (-1074).

(** [q] rounded to a multiple of its unit in the last place. *)
Definition nearest (q : Q) : Q :=
  (inject_Z (round_even (q / 2 ^ ulp_exponent q)) * 2 ^ ulp_exponent q)%Q.

(** The double nearest to the real number [q] (round to nearest, ties to
    even): an infinity when the rounded value reaches [2^1024]. *)
Definition round64 (q : Q) : number :=
  let r := nearest q in
  if Qle_bool (2 ^ 1024)%Q (Qabs r) then (if Qle_bool 0 q then PInf else NInf)
  else Fin (Qred r).

(** [a + b] on numbers. *)
Definition num_add (a b : number) : number :=
  match a, b with
  | NaN, _ | _, NaN => NaN
  | Fin p, Fin q => round64 (p + q)%Q
  | PInf, NInf | NInf, PInf => NaN
  | PInf, _ | _, PInf => PInf
  | NInf, _ | _, NInf => NInf
  end.

(** [a * b] on numbers. *)
Definition num_mul (a b : number) : number :=
  match a, b with
  | NaN, _ | _, NaN => NaN
  | Fin p, Fin q => round64 (p * q)%Q
  | Fin p, PInf | PInf, Fin p =>
      match (p ?= 0)%Q with Gt => PInf | Lt => NInf | Eq => NaN end
  | Fin p, NInf | NInf, Fin p =>
      match (p ?= 0)%Q with Gt => NInf | Lt => PInf | Eq => NaN end
  | PInf, PInf | NInf, NInf => PInf
  | PInf, NInf | NInf, PInf => NInf
  end.

(** [a <= b]: false as soon as one side is NaN. *)
Definition num_le (a b : number) : bool :=
  match a, b with
  | NaN, _ | _, NaN => false
  | NInf, _ | _, PInf => true
  | Fin p, Fin q => Qle_bool p q
  | _, _ => false
  end.

(** [a >= b]. *)
Definition num_ge (a b : number) : bool := num_le b a.

(** [a === b] on numbers: NaN differs from everything, itself included. *)
Definition num_eq (a b : number) : bool :=
  match a, b with
  | Fin p, Fin q => Qeq_bool p q
  | PInf, PInf | NInf, NInf => true
  | _, _ => false
  end.

(** [Math.abs]. *)
Definition Math_abs (a : number) : number :=
  match a with
  | Fin q => Fin (Qabs q)
  | PInf | NInf => PInf
  | NaN => NaN
  end.

Definition num_of_Z (z : Z) : number := Fin (inject_Z z).

(** The literal [0.5]. *)
Definition half : number := Fin (1 # 2)%Q.

(** ** JavaScript values *)

Inductive value : Type :=
| VUndefined
| VNull
| VBool (b : bool)
| VNum (n : number)
| VStr (s : string)
| VArr (elems : list value)
| VObj (props : list (string * value)).

(** An object given by its literal: the properties in the order written. *)
Definition object : Type := list (string * value).

(** [o.k] for an object literal [o]. *)
Fixpoint prop (o : object) (k : string) : value :=
  match o with
  | [] => VUndefined
  | (k', v) :: o' => if String.eqb k' k then v else prop o' k
  end.

(** The decimal spelling of a counter ([n.toString()] for a small natural). *)
Definition nat_to_string (n : nat) : string :=
  NilEmpty.string_of_uint (Nat.to_uint n).

(** ** Failure and effects *)

Inductive error : Type :=
| TypeError       (* reading a property of null or undefined, calling a non-function *)
| RequestFailed.  (* the HTTP request was rejected *)

Inductive outcome (A : Type) : Type :=
| Ok (a : A)
| Fail (e : error).
Arguments Ok {A} a.
Arguments Fail {A} e.

Definition obind {A B} (o : outcome A) (f : A -> outcome B) : outcome B :=
  match o with Ok a => f a | Fail e => Fail e end.

(** [map_outcome f l]: [l.map(f)] for a callback that may throw; the first
    exception leaves the loop. *)
Fixpoint map_outcome {A B} (f : A -> outcome B) (l : list A) : outcome (list B) :=
  match l with
  | [] => Ok []
  | a :: l' =>
      match f a with
      | Fail e => Fail e
      | Ok b =>
          match map_outcome f l' with
          | Fail e => Fail e
          | Ok bs => Ok (b :: bs)
          end
      end
  end.

(** A computation that settles like a promise and records the calls it makes
    to the outside ([E] is the type of one recorded call). *)
Definition M (E A : Type) : Type := list E -> outcome A * list E.

Definition lift {E A} (o : outcome A) : M E A := fun tr => (o, tr).

(** [p.then(f)] *)
Definition then_ {E A B} (p : M E A) (f : A -> M E B) : M E B :=
  fun tr =>
    match p tr with
    | (Ok a, tr') => f a tr'
    | (Fail e, tr') => (Fail e, tr')
    end.

(** [p.catch(g)] *)
Definition catch_ {E A} (p : M E A) (g : error -> M E A) : M E A :=
  fun tr =>
    match p tr with
    | (Ok a, tr') => (Ok a, tr')
    | (Fail e, tr') => g e tr'
    end.

(** Calling a function handed in by the caller ([dispatch], [callback]):
    the call is recorded. *)
Definition call {E} (e : E) : M E unit := fun tr => (Ok tt, tr ++ [e]).

(** The calls recorded by a whole run, and how the run settled. *)
Definition trace {E A} (m : M E A) : list E := snd (m []).
Definition settled {E A} (m : M E A) : outcome A := fst (m []).

(** ** Strings and regular expressions *)

Definition is_digit (a : ascii) : bool :=
  let n := nat_of_ascii a in (48 <=? n)%nat && (n <=? 57)%nat.

(** White space and line terminators among the code units below 256. *)
Definition is_space (a : ascii) : bool :=
  let n := nat_of_ascii a in
  ((9 <=? n)%nat && (n <=? 13)%nat) || (n =? 32)%nat || (n =? 160)%nat.

Definition is_char (c a : ascii) : bool := Ascii.eqb c a.

(** An ASCII letter under the [i] flag. *)
Definition is_letter_i (c a : ascii) : bool :=
  let n := nat_of_ascii a in
  Ascii.eqb c a
  || ((65 <=? n)%nat && (n <=? 90)%nat && Ascii.eqb c (ascii_of_nat (n + 32)))
  || ((97 <=? n)%nat && (n <=? 122)%nat && Ascii.eqb c (ascii_of_nat (n - 32))).

Module RegExp.

Inductive regex : Type :=
| Eps
| Chr (p : ascii -> bool)        (* one character of a class *)
| Seq (r1 r2 : regex)
| Alt (r1 r2 : regex)            (* r1|r2, r1 tried first *)
| Star (r : regex)               (* r*, greedy *)
| Group (i : nat) (r : regex)    (* the i-th capturing parentheses *)
| Bos                            (* ^ *)
| Eos.                           (* $ *)

(** [r+] and [r?], both greedy. *)
Definition Plus (r : regex) : regex := Seq r (Star r).
Definition Opt (r : regex) : regex := Alt r Eps.

Definition Cat (rs : list regex) : regex := fold_right Seq Eps rs.

(** The literal text [s]; [Lit_i] under the [i] flag. *)
Definition Lit (s : string) : regex :=
  Cat (map (fun c => Chr (is_char c)) (list_ascii_of_string s)).
Definition Lit_i (s : string) : regex :=
  Cat (map (fun c => Chr (is_letter_i c)) (list_ascii_of_string s)).

Definition captures : Type := list (nat * list ascii).

(** Backtracking matcher in continuation style.  [bos] tells whether the
    current position is the start of the input, [s] is the input left, [k]
    the rest of the pattern.  The first successful path wins, as in the
    specification of the language. *)
Fixpoint rmatch (r : regex) (bos : bool) (s : list ascii) (c : captures)
    (k : bool -> list ascii -> captures -> option captures) {struct r}
  : option captures :=
  match r with
  | Eps => k bos s c
  | Chr p =>
      match s with
      | a :: s' => if p a then k false s' c else None
      | [] => None
      end
  | Seq r1 r2 => rmatch r1 bos s c (fun b' s' c' => rmatch r2 b' s' c' k)
  | Alt r1 r2 =>
      match rmatch r1 bos s c k with
      | Some res => Some res
      | None => rmatch r2 bos s c k
      end
  | Star r1 =>
      (fix loop (fuel : nat) (bos : bool) (s : list ascii) (c : captures)
         : option captures :=
         match fuel with
         | O => k bos s c
         | S fuel' =>
             match rmatch r1 bos s c
                     (fun b' s' c' =>
                        if (List.length s' <? List.length s)%nat
                        then loop fuel' b' s' c' else None) with
             | Some res => Some res
             | None => k bos s c
             end
         end) (List.length s) bos s c
  | Group i r1 =>
      rmatch r1 bos s c
        (fun b' s' c' =>
           k b' s' ((i, firstn (List.length s - List.length s') s) :: c'))
  | Bos => if bos then k bos s c else None
  | Eos => match s with [] => k bos s c | _ :: _ => None end
  end.

(** The leftmost match: the pattern is tried at every offset in turn. *)
Fixpoint search (r : regex) (bos : bool) (s : list ascii) : option captures :=
  match rmatch (Group 0 r) bos s [] (fun _ _ c => Some c) with
  | Some c => Some c
  | None =>
      match s with
      | [] => None
      | _ :: s' => search r false s'
      end
  end.

(** Number of capturing parentheses. *)
Fixpoint ngroups (r : regex) : nat :=
  match r with
  | Seq r1 r2 | Alt r1 r2 => ngroups r1 + ngroups r2
  | Star r1 => ngroups r1
  | Group _ r1 => S (ngroups r1)
  | _ => 0
  end.

Fixpoint capture (c : captures) (i : nat) : option string :=
  match c with
  | [] => None
  | (j, t) :: c' =>
      if (j =? i)%nat then Some (string_of_list_ascii t) else capture c' i
  end.

(** [s.match(r)] for a pattern without the [g] flag: [None] is [null],
    otherwise the array of the whole match followed by the captures, an
    unmatched capture being [None] (undefined). *)
Definition String_match (s : string) (r : regex) : option (list (option string)) :=
  match search r true (list_ascii_of_string s) with
  | None => None
  | Some c => Some (map (capture c) (seq 0 (S (ngroups r))))
  end.

(** [r.test(s)] *)
Definition test (r : regex) (s : string) : bool :=
  match search r true (list_ascii_of_string s) with
  | None => false
  | Some _ => true
  end.

End RegExp.
Import RegExp.

(** [a[i]] on an array: undefined ([None]) out of range. *)
Definition index {A} (a : list A) (i : nat) : option A := nth_error a i.

(** *** [parseFloat] *)

Fixpoint span (p : ascii -> bool) (s : list ascii) : list ascii * list ascii :=
  match s with
  | a :: s' =>
      if p a then let (t, r) := span p s' in (a :: t, r) else ([], s)
  | [] => ([], [])
  end.

Fixpoint trim_start (s : list ascii) : list ascii :=
  match s with
  | a :: s' => if is_space a then trim_start s' else s
  | [] => []
  end.

Fixpoint starts_with (p s : list ascii) : bool :=
  match p, s with
  | [], _ => true
  | a :: p', b :: s' => Ascii.eqb a b && starts_with p' s'
  | _ :: _, [] => false
  end.

(** Value of a run of decimal digits. *)
Definition digits_value (ds : list ascii) : Z :=
  fold_left (fun acc d => (10 * acc + Z.of_nat (nat_of_ascii d - 48))%Z) ds 0%Z.

(** [m * 10^e] as an exact rational. *)
Definition scale10 (m e : Z) : Q :=
  if (0 <=? e)%Z then inject_Z (m * 10 ^ e)
  else Qmake m (Z.to_pos (10 ^ (- e))).

(** The exponent part [e[+-]?digits] if [s] starts with one, else 0. *)
Definition exponent_part (s : list ascii) : Z :=
  match s with
  | c :: r =>
      if is_char "e" c || is_char "E" c then
        let '(neg, r') :=
          match r with
          | sg :: t =>
              if is_char "-" sg then (true, t)
              else if is_char "+" sg then (false, t) else (false, r)
          | [] => (false, r)
          end in
        let (ds, _) := span is_digit r' in
        match ds with
        | [] => 0%Z
        | _ => if neg then (- digits_value ds)%Z else digits_value ds
        end
      else 0%Z
  | [] => 0%Z
  end.

(** [parseFloat(s)]: leading white space is skipped, then the longest prefix
    that is a decimal literal is read and its value rounded to the nearest
    double, as the engines do for a literal of any length; NaN when there is
    no such prefix. *)
Definition parseFloat (s : string) : number :=
  let t := trim_start (list_ascii_of_string s) in
  let '(neg, u) :=
    match t with
    | sg :: t' =>
        if is_char "-" sg then (true, t')
        else if is_char "+" sg then (false, t') else (false, t)
    | [] => (false, t)
    end in
  if starts_with (list_ascii_of_string "Infinity") u then
    (if neg then NInf else PInf)
  else
    let (ip, r1) := span is_digit u in
    let (fp, r2) :=
      match r1 with
      | dot :: r => if is_char "." dot then span is_digit r else ([], r1)
      | [] => ([], r1)
      end in
    match ip ++ fp with
    | [] => NaN
    | ds =>
        let m := digits_value ds in
        let e := (exponent_part r2 - Z.of_nat (List.length fp))%Z in
        round64 (scale10 (if neg then - m else m) e)
    end.

(** [parseFloat(v)] when [v] may be undefined: the text "undefined" is no
    number. *)
Definition parseFloat_opt (v : option string) : number :=
  match v with Some s => parseFloat s | None => NaN end.

(** ** The result model

    The format of search results documented at the head of the file:
    a list of groups, each with an id, a title and a list of items. *)

(** A result item is an object literal. *)
Definition Item : Type := object.

Record ResultGroup : Type := {
  id : value;
  title : value;          (* [VUndefined] when the literal has no title *)
  titlemsgid : value;     (* [VUndefined] when the literal has no titlemsgid *)
  items : list Item
}.

Record SearchResults : Type := {
  data : list ResultGroup;
  provider : value;
  reqId : value
}.

(** The action creator [addSearchResults(results, append)] of
    [qwc2/actions/search], kept as a constructor: the action it builds is
    identified by its two arguments. *)
Inductive Action : Type :=
| addSearchResults (results : SearchResults) (append : value).

Definition results_of (a : Action) : SearchResults :=
  match a with addSearchResults r _ => r end.

(** [dispatch(action)] *)
Definition dispatch (a : Action) : M Action unit := call a.

(** [dispatch(f(...))] where evaluating the argument may throw. *)
Definition dispatch_outcome (a : outcome Action) : M Action unit :=
  then_ (lift a) dispatch.

Record SearchOptions : Type := {
  displaycrs : option string
}.

(** [s || d] for a string that may be undefined: the empty string is falsy. *)
Definition or_string (s : option string) (d : string) : string :=
  match s with
  | Some t => if String.eqb t "" then d else t
  | None => d
  end.

(** The degree sign, code unit 176. *)
Definition degree : string := String (ascii_of_nat 176) "".

(** ** The coordinates provider *)

Module Coordinates.

(** The pattern [^\s*(N)[,\s]\s*(N)\s*$] where [N] is [[+-]?\d+\.?\d*]. *)
Definition number_re : regex :=
  Cat [Opt (Chr (fun a => is_char "+" a || is_char "-" a));
       Plus (Chr is_digit); Opt (Chr (is_char ".")); Star (Chr is_digit)].

Definition coordinates_re : regex :=
  Cat [Bos; Star (Chr is_space); Group 1 number_re;
       Chr (fun a => is_char "," a || is_space a); Star (Chr is_space);
       Group 2 number_re; Star (Chr is_space); Eos].

Section WithBuiltins.

(** [Number::toString], the conversion applied when a number is
    concatenated to a string. *)
Variable Number_toString : number -> string.

Definition coordinatesSearch (text : string) (requestId : value)
    (searchOptions : SearchOptions) : M Action unit :=
  let displaycrs := or_string (displaycrs searchOptions) "EPSG:4326" in
  let matches := String_match text coordinates_re in
  let items : list Item := [] in
  let items :=
    match matches with
    | None => items
    | Some m =>
        if (3 <=? List.length m)%nat then
          let x := parseFloat_opt (nth 1 m None) in
          let y := parseFloat_opt (nth 2 m None) in
          let items :=
            if negb (String.eqb displaycrs "EPSG:4326") then
              items ++ [[
                ("id", VStr "coord0");
                ("text", VStr (Number_toString x +:+ ", " +:+ Number_toString y
                               +:+ " (" +:+ displaycrs +:+ ")"));
                ("x", VNum x);
                ("y", VNum y);
                ("crs", VStr displaycrs);
                ("bbox", VArr [VNum x; VNum y; VNum x; VNum y])
              ]]
            else items in
          let items :=
            if num_ge x (num_of_Z (-180)) && num_le x (num_of_Z 180)
               && num_ge y (num_of_Z (-90)) && num_le y (num_of_Z 90) then
              let title :=
                Number_toString (Math_abs x)
                +:+ (if num_ge x (num_of_Z 0) then degree +:+ "E" else degree +:+ "W")
                +:+ ", " +:+ Number_toString (Math_abs y)
                +:+ (if num_ge y (num_of_Z 0) then degree +:+ "N" else degree +:+ "S") in
              items ++ [[
                ("id", VStr ("coord" +:+ nat_to_string (List.length items)));
                ("text", VStr title);
                ("x", VNum x);
                ("y", VNum y);
                ("crs", VStr "EPSG:4326");
                ("bbox", VArr [VNum x; VNum y; VNum x; VNum y])
              ]]
            else items in
          let items :=
            if num_ge x (num_of_Z (-90)) && num_le x (num_of_Z 90)
               && num_ge y (num_of_Z (-180)) && num_le y (num_of_Z 180)
               && negb (num_eq x y) then
              let title :=
                Number_toString (Math_abs y)
                +:+ (if num_ge y (num_of_Z 0) then degree +:+ "E" else degree +:+ "W")
                +:+ ", " +:+ Number_toString (Math_abs x)
                +:+ (if num_ge x (num_of_Z 0) then degree +:+ "N" else degree +:+ "S") in
              items ++ [[
                ("id", VStr ("coord" +:+ nat_to_string (List.length items)));
                ("text", VStr title);
                ("x", VNum y);
                ("y", VNum x);
                ("crs", VStr "EPSG:4326");
                ("bbox", VArr [VNum y; VNum x; VNum y; VNum x])
              ]]
            else items in
          items
        else items
    end in
  let results : list ResultGroup := [] in
  let results :=
    if (0 <? List.length items)%nat then
      results ++ [{|
        id := VStr "coords";
        title := VUndefined;
        titlemsgid := VStr "search.coordinates";
        items := items
      |}]
    else results in
  dispatch (addSearchResults
              {| data := results; provider := VStr "coordinates"; reqId := requestId |}
              (VBool true)).

End WithBuiltins.

End Coordinates.

(** ** Objects used as dictionaries

    [resultGroups] of the geoadmin provider and [groups] of the nominatim
    provider are plain objects indexed by a string taken from the payload.
    Such an object has its own properties, in creation order, and inherits
    those of [Object.prototype]. *)

Definition Object_prototype_keys : list string :=
  ["constructor"; "__defineGetter__"; "__defineSetter__"; "hasOwnProperty";
   "__lookupGetter__"; "__lookupSetter__"; "isPrototypeOf";
   "propertyIsEnumerable"; "toString"; "valueOf"; "__proto__";
   "toLocaleString"].

Definition dict (A : Type) : Type := list (string * A).

Inductive lookup (A : Type) : Type :=
| Own (a : A)        (* a property the code created *)
| Inherited          (* a member of Object.prototype *)
| Absent.            (* undefined *)
Arguments Own {A} a.
Arguments Inherited {A}.
Arguments Absent {A}.

Fixpoint own {A} (d : dict A) (k : string) : option A :=
  match d with
  | [] => None
  | (k', a) :: d' => if String.eqb k' k then Some a else own d' k
  end.

(** [d[k]] *)
Definition dict_get {A} (d : dict A) (k : string) : lookup A :=
  match own d k with
  | Some a => Own a
  | None =>
      if existsb (String.eqb k) Object_prototype_keys then Inherited else Absent
  end.

(** [d[k] = a] for a key that is not a member of [Object.prototype]. *)
Fixpoint dict_set {A} (d : dict A) (k : string) (a : A) : dict A :=
  match d with
  | [] => [(k, a)]
  | (k', a') :: d' =>
      if String.eqb k' k then (k', a) :: d' else (k', a') :: dict_set d' k a
  end.

(** A key that is an array index: the canonical decimal spelling of an
    integer below 2^32 - 1. *)
Definition array_index (k : string) : option N :=
  match list_ascii_of_string k with
  | [] => None
  | c :: r =>
      if forallb is_digit (c :: r)
         && (negb (is_char "0" c) || (List.length r =? 0)%nat) then
        let n := Z.to_N (digits_value (c :: r)) in
        if (n <? 4294967295)%N then Some n else None
      else None
  end.

Fixpoint insert_by_index {A} (n : N) (a : A) (l : list (N * A)) : list (N * A) :=
  match l with
  | [] => [(n, a)]
  | (m, b) :: l' =>
      if (n <? m)%N then (n, a) :: l else (m, b) :: insert_by_index n a l'
  end.

(** [Object.values(d)]: the properties whose key is an array index come
    first, by ascending index, then the others in creation order. *)
Definition Object_values {A} (d : dict A) : list A :=
  let indexed :=
    fold_left
      (fun acc '(k, a) =>
         match array_index k with
         | Some n => insert_by_index n a acc
         | None => acc
         end) d [] in
  let named :=
    filter (fun '(k, _) =>
              match array_index k with Some _ => false | None => true end) d in
  map snd indexed ++ map snd named.

(** [rs[ref].items.push(it)]: the group that the reference [ref] designates
    in the array [rs] receives one more item. *)
Fixpoint push_item (rs : list ResultGroup) (ref : nat) (it : Item)
  : list ResultGroup :=
  match rs, ref with
  | [], _ => []
  | g :: rs', O =>
      {| id := id g; title := title g; titlemsgid := titlemsgid g;
         items := items g ++ [it] |} :: rs'
  | g :: rs', S ref' => g :: push_item rs' ref' it
  end.

(** ToNumber of an array element that may be missing: undefined is NaN. *)
Definition to_number (v : option number) : number :=
  match v with Some n => n | None => NaN end.

(** An array element that may be missing, as a value. *)
Definition num_value (v : option number) : value :=
  match v with Some n => VNum n | None => VUndefined end.

(** [0.5 * (b[i] + b[j])] *)
Definition midpoint (b : list number) (i j : nat) : number :=
  num_mul half (num_add (to_number (index b i)) (to_number (index b j))).

(** [axios.get(url)]: the promise settles as the service answers. *)
Definition axios_get {E D} (response : outcome D) : M E D := lift response.

(** ** The geoadmin provider *)

Module GeoAdmin.

Module Attrs.
Record t : Type := {
  origin : string;
  lon : value;
  lat : value;
  label : value;
  geom_st_box2d : option string   (* [None]: the field is not there *)
}.
End Attrs.

Module Entry.
Record t : Type := { id : value; attrs : Attrs.t }.
End Entry.

Module Response.
Record t : Type := { results : option (list Entry.t) }.
End Response.

(** The pattern [^BOX\s*\(\s*(D)\s*(D)\s*,\s*(D)\s*(D)\s*\)$] where [D]
    is [\d+\.?\d*]. *)
Definition decimal_re : regex :=
  Cat [Plus (Chr is_digit); Opt (Chr (is_char ".")); Star (Chr is_digit)].

Definition box_re : regex :=
  Cat [Bos; Lit "BOX"; Star (Chr is_space); Chr (is_char "(");
       Star (Chr is_space); Group 1 decimal_re;
       Star (Chr is_space); Group 2 decimal_re;
       Star (Chr is_space); Chr (is_char ","); Star (Chr is_space);
       Group 3 decimal_re; Star (Chr is_space); Group 4 decimal_re;
       Star (Chr is_space); Chr (is_char ")"); Eos].

Definition categoryMap : list (string * string) :=
  [("gg25", "Municipalities");
   ("kantone", "Cantons");
   ("district", "Districts");
   ("sn25", "Places");
   ("zipcode", "Zip Codes");
   ("address", "Address");
   ("gazetteer", "General place name directory")].

Section WithBuiltins.

(** [CoordinatesUtils.reprojectBbox] of qwc2: it returns an array. *)
Variable reprojectBbox : list number -> string -> string -> list number.

(** [null] is [Ok None]; reading [matches[1]] when [matches] is [null]
    throws. *)
Definition parseItemBBox (bboxstr : option string) : outcome (option (list number)) :=
  match bboxstr with
  | None => Ok None
  | Some s =>
      let matches := String_match s box_re in
      if match matches with
         | Some m => (List.length m <? 5)%nat
         | None => false
         end
      then Ok None
      else
        match matches with
        | None => Fail TypeError
        | Some m =>
            let xmin := parseFloat_opt (nth 1 m None) in
            let ymin := parseFloat_opt (nth 2 m None) in
            let xmax := parseFloat_opt (nth 3 m None) in
            let ymax := parseFloat_opt (nth 4 m None) in
            Ok (Some (reprojectBbox [xmin; ymin; xmax; ymax] "EPSG:21781" "EPSG:4326"))
        end
  end.

(** [categoryMap[origin] || origin]: an empty origin is falsy and yields
    itself. *)
Definition category_title (origin : string) : string :=
  match own categoryMap origin with
  | Some t => t
  | None => origin
  end.

(** The item pushed for [entry]; [box] is the value of
    [parseItemBBox(entry.attrs.geom_st_box2d)]. *)
Definition item (entry : Entry.t) (box : option (list number)) : Item :=
  let x := Attrs.lon (Entry.attrs entry) in
  let y := Attrs.lat (Entry.attrs entry) in
  [
    ("id", Entry.id entry);
    ("text", Attrs.label (Entry.attrs entry));
    ("x", x);
    ("y", y);
    ("crs", VStr "EPSG:4326");
    ("bbox", match box with
             | Some b => VArr (map VNum b)
             | None => VArr [x; y; x; y]
             end);
    ("provider", VStr "geoadmin")
  ].

(** One turn of the loop over [obj.results]. *)
Definition step (resultGroups : dict ResultGroup) (entry : Entry.t)
  : outcome (dict ResultGroup) :=
  let origin := Attrs.origin (Entry.attrs entry) in
  let resultGroups :=
    match dict_get resultGroups origin with
    | Absent =>
        dict_set resultGroups origin
          {| id := VStr origin; title := VStr (category_title origin);
             titlemsgid := VUndefined; items := [] |}
    | _ => resultGroups
    end in
  match dict_get resultGroups origin with
  | Own g =>
      obind (parseItemBBox (Attrs.geom_st_box2d (Entry.attrs entry)))
        (fun box =>
           Ok (dict_set resultGroups origin
                 {| id := id g; title := title g; titlemsgid := titlemsgid g;
                    items := items g ++ [item entry box] |}))
  | _ => Fail TypeError
  end.

Fixpoint loop (resultGroups : dict ResultGroup) (entries : list Entry.t)
  : outcome (dict ResultGroup) :=
  match entries with
  | [] => Ok resultGroups
  | entry :: rest => obind (step resultGroups entry) (fun rg => loop rg rest)
  end.

Definition geoAdminLocationSearchResults (obj : Response.t) (requestId : value)
  : outcome Action :=
  obind (loop [] (match Response.results obj with Some l => l | None => [] end))
    (fun resultGroups =>
       let results := Object_values resultGroups in
       Ok (addSearchResults
             {| data := results; provider := VStr "geoadmin"; reqId := requestId |}
             (VBool true))).

Definition geoAdminLocationSearch (text : string) (requestId : value)
    (searchOptions : SearchOptions) (response : outcome Response.t)
  : M Action unit :=
  then_ (axios_get response)
    (fun response_data =>
       dispatch_outcome (geoAdminLocationSearchResults response_data requestId)).

End WithBuiltins.

End GeoAdmin.

(** ** The uster provider *)

(** One call of a geometry callback: [callback(resultItem, geometry, crs)]. *)
Record CallbackCall : Type := {
  cb_item : Item;
  cb_geometry : value;
  cb_crs : value
}.

Definition callback (resultItem : Item) (geometry : value) (crs : value)
  : M CallbackCall unit :=
  call {| cb_item := resultItem; cb_geometry := geometry; cb_crs := crs |}.

(** The local variables of the loop of [usterSearchResults] and
    [wolfsburgSearchResults].  [currentgroup] refers to an element of
    [results]: it is the position of that element, [None] standing for
    [null]. *)
Record GroupingState : Type := {
  results : list ResultGroup;
  currentgroup : option nat;
  groupcounter : nat;
  counter : nat
}.

Module Uster.

Module Entry.
Record t : Type := {
  displaytext : value;
  searchtable : value;
  bbox : option (list number)   (* [None]: no bbox, the entry opens a group *)
}.
End Entry.

Module Response.
Record t : Type := { results : option (list Entry.t) }.
End Response.

(** The group opened by an entry without bbox, and the item pushed for an
    entry with the bbox [bbox]. *)
Definition group (groupcounter : nat) (entry : Entry.t) : ResultGroup := {|
  id := VStr ("ustergroup" +:+ nat_to_string groupcounter);
  title := Entry.displaytext entry;
  titlemsgid := VUndefined;
  items := []
|}.

Definition item (counter : nat) (entry : Entry.t) (bbox : list number) : Item := [
  ("id", VStr ("usterresult" +:+ nat_to_string counter));
  ("text", Entry.displaytext entry);
  ("searchtable", Entry.searchtable entry);
  ("bbox", VArr (map VNum bbox));
  ("x", VNum (midpoint bbox 0 2));
  ("y", VNum (midpoint bbox 1 3));
  ("crs", VStr "EPSG:21781");
  ("provider", VStr "uster")
].

Definition step (st : GroupingState) (entry : Entry.t) : GroupingState :=
  match Entry.bbox entry with
  | None =>
      (* Is group *)
      {| results := results st ++ [group (groupcounter st) entry];
         currentgroup := Some (List.length (results st));
         groupcounter := S (groupcounter st);
         counter := counter st |}
  | Some bbox =>
      match currentgroup st with
      | Some ref =>
          {| results := push_item (results st) ref (item (counter st) entry bbox);
             currentgroup := currentgroup st;
             groupcounter := groupcounter st;
             counter := S (counter st) |}
      | None => st
      end
  end.

Definition usterSearchResults (obj : Response.t) (requestId : value) : Action :=
  let st :=
    fold_left step
      (match Response.results obj with Some l => l | None => [] end)
      {| results := []; currentgroup := None; groupcounter := 0; counter := 0 |} in
  addSearchResults
    {| data := results st; provider := VStr "uster"; reqId := requestId |}
    (VBool true).

Definition usterSearch (text : string) (requestId : value)
    (searchOptions : SearchOptions) (response : outcome Response.t)
  : M Action unit :=
  then_ (axios_get response)
    (fun response_data => dispatch (usterSearchResults response_data requestId)).

Definition usterResultGeometry (resultItem : Item) (response : outcome value)
  : M CallbackCall unit :=
  then_ (axios_get response)
    (fun response_data => callback resultItem response_data (VStr "EPSG:21781")).

End Uster.

(** ** The wolfsburg provider *)

Module Wolfsburg.

Module Entry.
Record t : Type := {
  displaytext : value;
  searchtable : value;
  id : value;
  bbox : option (list number)
}.
End Entry.

Module Response.
Record t : Type := { results : option (list Entry.t) }.
End Response.

(** The group opened by an entry without bbox, and the item pushed for an
    entry with the bbox [bbox]. *)
Definition group (groupcounter : nat) (entry : Entry.t) : ResultGroup := {|
  id := VStr ("wolfsburggroup" +:+ nat_to_string groupcounter);
  title := Entry.displaytext entry;
  titlemsgid := VUndefined;
  items := []
|}.

Definition item (counter : nat) (entry : Entry.t) (bbox : list number) : Item := [
  ("id", VStr ("wolfsburgresult" +:+ nat_to_string counter));
  ("text", Entry.displaytext entry);
  ("searchtable", Entry.searchtable entry);
  ("oid", Entry.id entry);
  ("bbox", VArr (map VNum bbox));
  ("x", VNum (midpoint bbox 0 2));
  ("y", VNum (midpoint bbox 1 3));
  ("crs", VStr "EPSG:25832");
  ("provider", VStr "wolfsburg")
].

Definition step (st : GroupingState) (entry : Entry.t) : GroupingState :=
  match Entry.bbox entry with
  | None =>
      (* Is group *)
      {| results := results st ++ [group (groupcounter st) entry];
         currentgroup := Some (List.length (results st));
         groupcounter := S (groupcounter st);
         counter := counter st |}
  | Some bbox =>
      match currentgroup st with
      | Some ref =>
          {| results := push_item (results st) ref (item (counter st) entry bbox);
             currentgroup := currentgroup st;
             groupcounter := groupcounter st;
             counter := S (counter st) |}
      | None => st
      end
  end.

Definition wolfsburgSearchResults (obj : Response.t) (requestId : value) : Action :=
  let st :=
    fold_left step
      (match Response.results obj with Some l => l | None => [] end)
      {| results := []; currentgroup := None; groupcounter := 0; counter := 0 |} in
  addSearchResults
    {| data := results st; provider := VStr "wolfsburg"; reqId := requestId |}
    (VBool true).

Definition wolfsburgSearch (text : string) (requestId : value)
    (searchOptions : SearchOptions) (response : outcome Response.t)
  : M Action unit :=
  then_ (axios_get response)
    (fun response_data => dispatch (wolfsburgSearchResults response_data requestId)).

Definition wolfsburgResultGeometry (resultItem : Item) (response : outcome value)
  : M CallbackCall unit :=
  then_ (axios_get response)
    (fun response_data => callback resultItem response_data (VStr "EPSG:25832")).

End Wolfsburg.

(** ** The glarus provider *)

Module Glarus.

Module Feature.
Record t : Type := {
  id : value;
  name : value;
  bbox : option (list number)
}.
End Feature.

Module Group.
Record t : Type := {
  category : value;
  name : value;
  features : option (list Feature.t)
}.
End Group.

Module Response.
Record t : Type := { results : option (list Group.t) }.
End Response.

(** The callback of [group.features.map]. *)
Definition feature_item (group : Group.t) (item : Feature.t) : outcome Item :=
  match Feature.bbox item with
  | None => Fail TypeError
  | Some bbox =>
      Ok [
        ("id", Feature.id item);
        ("text", Feature.name item);
        ("bbox", VArr (map VNum bbox));
        ("x", VNum (midpoint bbox 0 2));
        ("y", VNum (midpoint bbox 1 3));
        ("crs", VStr "EPSG:2056");
        ("provider", VStr "glarus");
        ("category", Group.category group)
      ]
  end.

Definition more_item (idcounter : nat) (group : Group.t) : Item := [
  ("id", VStr ("glarusmore" +:+ nat_to_string idcounter));
  ("more", VBool true);
  ("provider", VStr "glarus");
  ("category", Group.category group)
].

(** One turn of the loop over [obj.results]; the state is [results] and
    [idcounter]. *)
Definition step (limit : Z) (st : list ResultGroup * nat) (group : Group.t)
  : outcome (list ResultGroup * nat) :=
  let '(results, idcounter) := st in
  match Group.features group with
  | None => Fail TypeError
  | Some features =>
      obind (map_outcome (feature_item group) features)
        (fun its =>
           let groupResult := {|
             id := Group.category group;
             title := Group.name group;
             titlemsgid := VUndefined;
             items := its
           |} in
           let '(groupResult, idcounter) :=
             if (limit >=? 0)%Z && (Z.of_nat (List.length features) >? limit)%Z then
               ({| id := id groupResult; title := title groupResult;
                   titlemsgid := titlemsgid groupResult;
                   items := items groupResult ++ [more_item idcounter group] |},
                S idcounter)
             else (groupResult, idcounter) in
           Ok (results ++ [groupResult], idcounter))
  end.

Fixpoint loop (limit : Z) (st : list ResultGroup * nat) (groups : list Group.t)
  : outcome (list ResultGroup * nat) :=
  match groups with
  | [] => Ok st
  | group :: rest => obind (step limit st group) (fun st' => loop limit st' rest)
  end.

(** [limit] is [None] when the caller passes no third argument; the
    parameter then takes its default, -1. *)
Definition glarusSearchResults (obj : Response.t) (requestId : value)
    (limit : option Z) : outcome Action :=
  let limit := match limit with Some l => l | None => (-1)%Z end in
  obind (loop limit ([], 0) (match Response.results obj with Some l => l | None => [] end))
    (fun st =>
       Ok (addSearchResults
             {| data := fst st; provider := VStr "glarus"; reqId := requestId |}
             (VBool true))).

(** The object literal [{}]. *)
Definition empty_response : Response.t := {| Response.results := None |}.

Definition glarusSearch (text : string) (requestId : value)
    (searchOptions : SearchOptions) (response : outcome Response.t)
  : M Action unit :=
  let limit := 9%Z in
  catch_
    (then_ (axios_get response)
       (fun response_data =>
          dispatch_outcome (glarusSearchResults response_data requestId (Some limit))))
    (fun _ => dispatch_outcome (glarusSearchResults empty_response requestId (Some limit))).

Definition glarusMoreResults (moreItem : Item) (text : string) (requestId : value)
    (response : outcome Response.t) : M Action unit :=
  catch_
    (then_ (axios_get response)
       (fun response_data =>
          dispatch_outcome (glarusSearchResults response_data requestId None)))
    (fun _ => dispatch_outcome (glarusSearchResults empty_response requestId None)).

Definition glarusResultGeometry (resultItem : Item) (response : outcome value)
  : M CallbackCall unit :=
  then_ (axios_get response)
    (fun response_data => callback resultItem response_data (VStr "EPSG:2056")).

End Glarus.

(** ** The nominatim provider *)

(** [s.charAt(0)] and [s.slice(1)] *)
Definition charAt0 (s : string) : string :=
  match s with
  | EmptyString => ""
  | String c _ => String c ""
  end.

Definition slice1 (s : string) : string :=
  match s with
  | EmptyString => ""
  | String _ r => r
  end.

(** [s.split(', ')] *)
Fixpoint split_comma_space (cur : list ascii) (s : list ascii) : list string :=
  match s with
  | [] => [string_of_list_ascii (rev cur)]
  | c1 :: s' =>
      match s' with
      | c2 :: s'' =>
          if is_char "," c1 && is_char " " c2
          then string_of_list_ascii (rev cur) :: split_comma_space [] s''
          else split_comma_space (c1 :: cur) s'
      | [] => split_comma_space (c1 :: cur) s'
      end
  end.

Definition split (s : string) : list string :=
  split_comma_space [] (list_ascii_of_string s).

(** [a.join(', ')] *)
Fixpoint join (a : list string) : string :=
  match a with
  | [] => ""
  | [s] => s
  | s :: a' => s +:+ ", " +:+ join a'
  end.

(** A string that may be undefined is truthy when it is there and not
    empty. *)
Definition truthy_string (s : option string) : option string :=
  match s with
  | Some t => if String.eqb t "" then None else Some t
  | None => None
  end.

Module Nominatim.

Module Address.
Record t : Type := {
  town : option string;
  city : option string;
  state : option string;
  country : option string
}.
End Address.

Module Entry.
Record t : Type := {
  class : string;
  display_name : string;
  address : option Address.t;
  boundingbox : option (list string);
  place_id : value
}.
End Entry.

(** The local variables of the loop.  [groups] maps a class to the group
    object created for it, which is also an element of [results]: the object
    is designated by its position in [results]. *)
Record State : Type := {
  results : list ResultGroup;
  groups : dict nat;
  groupcounter : nat
}.

Section WithBuiltins.

(** [String.prototype.toUpperCase] *)
Variable toUpperCase : string -> string.

Definition push_if (s : option string) (a : list string) : list string :=
  match truthy_string s with
  | Some t => a ++ [t]
  | None => a
  end.

(** The item pushed for [entry]; [bbox] is the reordered bounding box, an
    element of which is undefined ([None]) when [entry.boundingbox] is too
    short. *)
Definition item (entry : Entry.t) (text label : string) (bbox : list (option number))
  : Item := [
  ("id", Entry.place_id entry);
  (* shorten display_name *)
  ("text", VStr text);
  ("label", VStr label);
  ("bbox", VArr (map num_value bbox));
  ("x", VNum (num_mul half (num_add (to_number (nth 0 bbox None))
                                     (to_number (nth 2 bbox None)))));
  ("y", VNum (num_mul half (num_add (to_number (nth 1 bbox None))
                                     (to_number (nth 3 bbox None)))));
  ("crs", VStr "EPSG:4326");
  ("provider", VStr "nominatim")
].

Definition step (st : State) (entry : Entry.t) : outcome State :=
  let class := Entry.class entry in
  let st :=
    match dict_get (groups st) class with
    | Absent =>
        (* !(entry.class in groups) *)
        let group := {|
          id := VStr ("nominatimgroup" +:+ nat_to_string (groupcounter st));
          (* capitalize class *)
          title := VStr (toUpperCase (charAt0 class) +:+ slice1 class);
          titlemsgid := VUndefined;
          items := []
        |} in
        {| results := results st ++ [group];
           groups := dict_set (groups st) class (List.length (results st));
           groupcounter := S (groupcounter st) |}
    | _ => st
    end in
  (* shorten display_name *)
  let text := join (firstn 3 (split (Entry.display_name entry))) in
  (* map label *)
  let label := text in
  (* collect address fields *)
  match Entry.address entry with
  | None => Fail TypeError
  | Some a =>
      let address : list string := [] in
      let address := push_if (Address.town a) address in
      let address := push_if (Address.city a) address in
      let address := push_if (Address.state a) address in
      let address := push_if (Address.country a) address in
      let text :=
        if (0 <? List.length address)%nat
        then text +:+ "<br/><i>" +:+ join address +:+ "</i>"
        else text in
      (* reorder coords from [miny, maxy, minx, maxx] to [minx, miny, maxx, maxy] *)
      match Entry.boundingbox entry with
      | None => Fail TypeError
      | Some boundingbox =>
          let b := map parseFloat boundingbox in
          let bbox := [index b 2; index b 0; index b 3; index b 1] in
          match dict_get (groups st) class with
          | Own ref =>
              Ok {| results := push_item (results st) ref (item entry text label bbox);
                    groups := groups st;
                    groupcounter := groupcounter st |}
          | _ => Fail TypeError
          end
      end
  end.

Fixpoint loop (st : State) (entries : list Entry.t) : outcome State :=
  match entries with
  | [] => Ok st
  | entry :: rest => obind (step st entry) (fun st' => loop st' rest)
  end.

(** [obj] is [None] when the answer is empty ([obj || []]). *)
Definition nominatimSearchResults (obj : option (list Entry.t)) (requestId : value)
  : outcome Action :=
  obind (loop {| results := []; groups := []; groupcounter := 0 |}
              (match obj with Some l => l | None => [] end))
    (fun st =>
       Ok (addSearchResults
             {| data := results st; provider := VStr "nominatim"; reqId := requestId |}
             (VBool true))).

Definition nominatimSearch (text : string) (requestId : value)
    (searchOptions : SearchOptions) (response : outcome (option (list Entry.t)))
  : M Action unit :=
  then_ (axios_get response)
    (fun response_data =>
       dispatch_outcome (nominatimSearchResults response_data requestId)).

End WithBuiltins.

End Nominatim.

(** ** Providers configured by the theme *)

Module Parametrized.

(** An entry of the theme's [searchProviders] array. *)
Record Config : Type := {
  key : value;
  label : value;
  param : value;
  layerName : value
}.

(** The service answers in the result format; [addSearchResults] is called
    with one argument, so [append] is undefined. *)
Definition parametrizedSearch (cfg : Config) (text : string) (requestId : value)
    (searchOptions : SearchOptions) (response : outcome (list ResultGroup))
  : M Action unit :=
  catch_
    (then_ (axios_get response)
       (fun response_data =>
          dispatch (addSearchResults
                      {| data := response_data; provider := key cfg; reqId := requestId |}
                      VUndefined)))
    (fun _ =>
       dispatch (addSearchResults
                   {| data := []; provider := key cfg; reqId := requestId |}
                   VUndefined)).

End Parametrized.

(** ** The layers provider *)

(** [a.slice(i, j)], [a.slice(i)] and [a.slice(-n)] for naturals [i], [j], [n]. *)
Definition slice {A} (a : list A) (i j : nat) : list A := firstn (j - i) (skipn i a).
Definition slice_from {A} (a : list A) (i : nat) : list A := skipn i a.
Definition slice_last {A} (a : list A) (n : nat) : list A :=
  skipn (List.length a - n) a.

(** [a.map((x, index) => f(x, index))] *)
Fixpoint mapi_from {A B} (f : A -> nat -> B) (i : nat) (a : list A) : list B :=
  match a with
  | [] => []
  | x :: a' => f x i :: mapi_from f (S i) a'
  end.

Module Layers.

Module BBox.
Record t : Type := { crs : string; bounds : list number }.
End BBox.

(** A layer definition, in the format of a "sublayers" entry. *)
Module Sublayer.
Record t : Type := {
  name : string;
  title : string;
  visibility : bool;
  queryable : bool;
  displayField : string;
  opacity : Z;
  bbox : BBox.t
}.
End Sublayer.

Definition Sublayer_value (s : Sublayer.t) : value :=
  VObj [
    ("name", VStr (Sublayer.name s));
    ("title", VStr (Sublayer.title s));
    ("visibility", VBool (Sublayer.visibility s));
    ("queryable", VBool (Sublayer.queryable s));
    ("displayField", VStr (Sublayer.displayField s));
    ("opacity", VNum (num_of_Z (Sublayer.opacity s)));
    ("bbox", VObj [("crs", VStr (BBox.crs (Sublayer.bbox s)));
                   ("bounds", VArr (map VNum (BBox.bounds (Sublayer.bbox s))))])
  ].

(** The argument of [createLayerSearchResult]: an array of layer
    definitions or a single one; [None] is undefined, the value of an index
    outside its array. *)
Inductive Sublayers : Type :=
| Array (a : list (option Sublayer.t))
| Object (s : option Sublayer.t).

Definition bigRingTrails : list (list number) := [
   [Fin (13084399 # 1000000); Fin (4293018 # 100000);
    Fin (13225101 # 1000000); Fin (43057469 # 1000000)];
   [Fin (13112396 # 1000000); Fin (42987247 # 1000000);
    Fin (13156464 # 1000000); Fin (43034649 # 1000000)];
   [Fin (13154203 # 1000000); Fin (42887885 # 1000000);
    Fin (13314918 # 1000000); Fin (43065831 # 1000000)];
   [Fin (13219384 # 1000000); Fin (42888912 # 1000000);
    Fin (13314918 # 1000000); Fin (43065831 # 1000000)];
   [Fin (13294092 # 1000000); Fin (42928977 # 1000000);
    Fin (13317705 # 1000000); Fin (42985975 # 1000000)];
   [Fin (13299054 # 1000000); Fin (42842795 # 1000000);
    Fin (13325479 # 1000000); Fin (42929384 # 1000000)];
   [Fin (13206974 # 1000000); Fin (42756025 # 1000000);
    Fin (13309859 # 1000000); Fin (42843539 # 1000000)];
   [Fin (13100696 # 1000000); Fin (42754517 # 1000000);
    Fin (13209451 # 1000000); Fin (42855694 # 1000000)];
   [Fin (13079614 # 1000000); Fin (42853673 # 1000000);
    Fin (13103259 # 1000000); Fin (42930391 # 1000000)]
].

Definition bikingTrails : list (list number) := [
   [Fin (13080975 # 1000000); Fin (43060759 # 1000000);
    Fin (13145188 # 1000000); Fin (43100081 # 1000000)];
   [Fin (13159368 # 1000000); Fin (43056278 # 1000000);
    Fin (13253595 # 1000000); Fin (43101067 # 1000000)];
   [Fin (13226789 # 1000000); Fin (430474 # 10000);
    Fin (13268515 # 1000000); Fin (43077059 # 1000000)];
   [Fin (13139385 # 1000000); Fin (42951842 # 1000000);
    Fin (13242815 # 1000000); Fin (43042751 # 1000000)];
   [Fin (13284902 # 1000000); Fin (42942894 # 1000000);
    Fin (13357075 # 1000000); Fin (42998809 # 1000000)];
   [Fin (13285922 # 1000000); Fin (42909734 # 1000000);
    Fin (13346104 # 1000000); Fin (42946046 # 1000000)];
   [Fin (13298747 # 1000000); Fin (42849369 # 1000000);
    Fin (13340322 # 1000000); Fin (4290578 # 100000)];
   [Fin (13300898 # 1000000); Fin (42809218 # 1000000);
    Fin (13342393 # 1000000); Fin (42842008 # 1000000)];
   [Fin (13270826 # 1000000); Fin (42771548 # 1000000);
    Fin (13329335 # 1000000); Fin (42813392 # 1000000)];
   [Fin (13180091 # 1000000); Fin (42764877 # 1000000);
    Fin (13235432 # 1000000); Fin (42840299 # 1000000)];
   [Fin (13092829 # 1000000); Fin (42727978 # 1000000);
    Fin (13155233 # 1000000); Fin (42792826 # 1000000)];
   [Fin (13032941 # 1000000); Fin (42832141 # 1000000);
    Fin (13113966 # 1000000); Fin (42882266 # 1000000)];
   [Fin (13086874 # 1000000); Fin (42848953 # 1000000);
    Fin (13156465 # 1000000); Fin (42930494 # 1000000)];
   [Fin (13130815 # 1000000); Fin (42934986 # 1000000);
    Fin (13201009 # 1000000); Fin (42952252 # 1000000)];
   [Fin (13084882 # 1000000); Fin (42930839 # 1000000);
    Fin (13173372 # 1000000); Fin (43036227 # 1000000)];
   [Fin (13154752 # 1000000); Fin (42965946 # 1000000);
    Fin (13356408 # 1000000); Fin (43044449 # 1000000)];
   [Fin (13303301 # 1000000); Fin (42843753 # 1000000);
    Fin (13349163 # 1000000); Fin (42970991 # 1000000)];
   [Fin (13103285 # 1000000); Fin (42747099 # 1000000);
    Fin (13312094 # 1000000); Fin (42844293 # 1000000)];
   [Fin (13053018 # 1000000); Fin (4278735 # 100000);
    Fin (13121669 # 1000000); Fin (42931462 # 1000000)];
   [Fin (13088288 # 1000000); Fin (42931008 # 1000000);
    Fin (13357308 # 1000000); Fin (42990144 # 1000000)]
].

Definition hikingTrails : list (list number) := [
   [Fin (13202855 # 1000000); Fin (43079994 # 1000000);
    Fin (13229677 # 1000000); Fin (43103703 # 1000000)];
   [Fin (13180711 # 1000000); Fin (43060704 # 1000000);
    Fin (13232776 # 1000000); Fin (43078002 # 1000000)];
   [Fin (13205637 # 1000000); Fin (42994688 # 1000000);
    Fin (13226363 # 1000000); Fin (43008354 # 1000000)];
   [Fin (1320152 # 100000); Fin (42980893 # 1000000);
    Fin (13231547 # 1000000); Fin (42994714 # 1000000)];
   [Fin (13207687 # 1000000); Fin (42952431 # 1000000);
    Fin (13236698 # 1000000); Fin (42988956 # 1000000)];
   [Fin (13215823 # 1000000); Fin (42950362 # 1000000);
    Fin (13291272 # 1000000); Fin (42970564 # 1000000)];
   [Fin (1309116 # 100000); Fin (42937774 # 1000000);
    Fin (13134399 # 1000000); Fin (42975608 # 1000000)];
   [Fin (13165058 # 1000000); Fin (42909019 # 1000000);
    Fin (13202166 # 1000000); Fin (42934866 # 1000000)];
   [Fin (13183596 # 1000000); Fin (42904182 # 1000000);
    Fin (13312656 # 1000000); Fin (42931485 # 1000000)];
   [Fin (13248974 # 1000000); Fin (42895205 # 1000000);
    Fin (13291616 # 1000000); Fin (42913963 # 1000000)];
   [Fin (13154204 # 1000000); Fin (42844375 # 1000000);
    Fin (13190249 # 1000000); Fin (42886117 # 1000000)];
   [Fin (13033476 # 1000000); Fin (42872574 # 1000000);
    Fin (13080433 # 1000000); Fin (42904454 # 1000000)];
   [Fin (13156245 # 1000000); Fin (42774004 # 1000000);
    Fin (13207173 # 1000000); Fin (4282914 # 100000)];
   [Fin (13116651 # 1000000); Fin (42812346 # 1000000);
    Fin (13158333 # 1000000); Fin (42832541 # 1000000)];
   [Fin (13256516 # 1000000); Fin (42789967 # 1000000);
    Fin (13302878 # 1000000); Fin (42851929 # 1000000)];
   [Fin (13255466 # 1000000); Fin (42770283 # 1000000);
    Fin (13297133 # 1000000); Fin (42795152 # 1000000)];
   [Fin (13212138 # 1000000); Fin (42826894 # 1000000);
    Fin (13270632 # 1000000); Fin (42888353 # 1000000)]
].

Definition natureTrails : list (list number) := [
   [Fin (13078424 # 1000000); Fin (42930684 # 1000000);
    Fin (13093048 # 1000000); Fin (42944983 # 1000000)];
   [Fin (13099838 # 1000000); Fin (43062975 # 1000000);
    Fin (13116469 # 1000000); Fin (43073842 # 1000000)];
   [Fin (13148219 # 1000000); Fin (4303512 # 100000);
    Fin (13168228 # 1000000); Fin (43059598 # 1000000)];
   [Fin (1329151 # 100000); Fin (42972002 # 1000000);
    Fin (13307532 # 1000000); Fin (42986422 # 1000000)];
   [Fin (13298055 # 1000000); Fin (42913438 # 1000000);
    Fin (1331464 # 100000); Fin (42931517 # 1000000)];
   [Fin (13317468 # 1000000); Fin (42898912 # 1000000);
    Fin (13327444 # 1000000); Fin (42908303 # 1000000)];
   [Fin (13307354 # 1000000); Fin (42837146 # 1000000);
    Fin (13322216 # 1000000); Fin (42843607 # 1000000)];
   [Fin (1327301 # 100000); Fin (42771341 # 1000000);
    Fin (13297367 # 1000000); Fin (42781444 # 1000000)];
   [Fin (13091601 # 1000000); Fin (42791864 # 1000000);
    Fin (13108412 # 1000000); Fin (42807232 # 1000000)];
   [Fin (13036099 # 1000000); Fin (42880348 # 1000000);
    Fin (1304361 # 100000); Fin (42893419 # 1000000)];
   [Fin (13152109 # 1000000); Fin (42878041 # 1000000);
    Fin (13161086 # 1000000); Fin (42886974 # 1000000)];
   [Fin (13139205 # 1000000); Fin (42935119 # 1000000);
    Fin (13158339 # 1000000); Fin (42943879 # 1000000)];
   [Fin (13160321 # 1000000); Fin (43020402 # 1000000);
    Fin (13170981 # 1000000); Fin (4302849 # 100000)];
   [Fin (13216583 # 1000000); Fin (42993255 # 1000000);
    Fin (13228745 # 1000000); Fin (43004025 # 1000000)];
   [Fin (13242159 # 1000000); Fin (43046231 # 1000000);
    Fin (13248458 # 1000000); Fin (43050647 # 1000000)];
   [Fin (13220142 # 1000000); Fin (4309214 # 100000);
    Fin (13225891 # 1000000); Fin (43103649 # 1000000)]
].

Definition createLayerSearchSublayers (boundingBoxes : list (list number))
    (type : string) : list Sublayer.t :=
  mapi_from
    (fun bounds index =>
       let i := index + 1 in
       let name :=
         type +:+ (if (i <? 10)%nat then "0" +:+ nat_to_string i else nat_to_string i) in
       {| Sublayer.name := name;
          Sublayer.title := name;
          Sublayer.visibility := true;
          Sublayer.queryable := true;
          Sublayer.displayField := "LUNGHEZZA";
          Sublayer.opacity := 255%Z;
          Sublayer.bbox := {| BBox.crs := "EPSG:4326"; BBox.bounds := bounds |} |})
    0 boundingBoxes.

Definition bigRingSublayers : list Sublayer.t :=
  createLayerSearchSublayers bigRingTrails "G".
Definition bikingSublayers : list Sublayer.t :=
  createLayerSearchSublayers bikingTrails "B".
Definition hikingSublayers : list Sublayer.t :=
  createLayerSearchSublayers hikingTrails "E".
Definition natureSublayers : list Sublayer.t :=
  createLayerSearchSublayers natureTrails "N" ++
  [{| Sublayer.name := "N17_1";
     Sublayer.title := "N17_1";
     Sublayer.visibility := true;
     Sublayer.queryable := true;
     Sublayer.displayField := "LUNGHEZZA";
     Sublayer.opacity := 255%Z;
     Sublayer.bbox := {| BBox.crs := "EPSG:4326";
                         BBox.bounds :=
           [Fin (1316521 # 100000); Fin (4303974 # 100000);
            Fin (13169361 # 1000000); Fin (43044502 # 1000000)] |} |};
       {| Sublayer.name := "N18_2";
     Sublayer.title := "N18_2";
     Sublayer.visibility := true;
     Sublayer.queryable := true;
     Sublayer.displayField := "LUNGHEZZA";
     Sublayer.opacity := 255%Z;
     Sublayer.bbox := {| BBox.crs := "EPSG:4326";
                         BBox.bounds :=
           [Fin (13247802 # 1000000); Fin (4276405 # 100000);
            Fin (13260019 # 1000000); Fin (42785179 # 1000000)] |} |}].

(** [results.push(r)] where building [r] may throw. *)
Definition push_result (results : list ResultGroup) (r : outcome ResultGroup)
  : outcome (list ResultGroup) :=
  obind r (fun g => Ok (results ++ [g])).

Section WithBuiltins.

(** [SearchResultType.THEMELAYER] of [qwc2/actions/search] and
    [String.prototype.toLowerCase]. *)
Variable THEMELAYER : value.
Variable toLowerCase : string -> string.

Definition layer_item (sublayer : option Sublayer.t) : outcome Item :=
  match sublayer with
  | None => Fail TypeError
  | Some sublayer =>
      Ok [
        ("type", THEMELAYER);
        ("id", VStr (toLowerCase (Sublayer.name sublayer)));
        ("text", VStr (Sublayer.name sublayer));
        ("layer", VObj [("sublayers", VArr [Sublayer_value sublayer])])
      ]
  end.

(** [title] is [None] when the caller leaves it out; it then takes its
    default, 'Layers'. *)
Definition createLayerSearchResult (sublayers : Sublayers) (title : option string)
  : outcome ResultGroup :=
  let title_ := match title with Some t => t | None => "Layers" end in
  match sublayers with
  | Array a =>
      obind (map_outcome layer_item a)
        (fun its =>
           Ok {| id := VStr "layers"; title := VStr title_;
                 titlemsgid := VUndefined; items := its |})
  | Object s =>
      obind (layer_item s)
        (fun it =>
           Ok {| id := VStr "layers"; title := VStr title_;
                 titlemsgid := VUndefined; items := [it] |})
  end.

(** The chain of tests on [text] that fills [results]. *)
Definition layerSearchResults (text : string) : outcome (list ResultGroup) :=
  let results : list ResultGroup := [] in
  if String.eqb text "B" || String.eqb text "b" then
    push_result results (createLayerSearchResult (Array (map Some bikingSublayers)) None)
  else if String.eqb text "B0" || String.eqb text "b0" then
    push_result results (createLayerSearchResult (Array (map Some (slice bikingSublayers 0 9))) None)
  else if String.eqb text "B1" || String.eqb text "b1" then
    push_result results (createLayerSearchResult (Array ([index bikingSublayers 0] ++ (map Some (slice bikingSublayers 9 19)))) None)
  else if String.eqb text "B2" || String.eqb text "b2" then
    push_result results (createLayerSearchResult (Array ([index bikingSublayers 1] ++ [index bikingSublayers 19])) None)
  else if String.eqb text "B01" || String.eqb text "b01" then
    push_result results (createLayerSearchResult (Object (index bikingSublayers 0)) None)
  else if String.eqb text "B02" || String.eqb text "b02" then
    push_result results (createLayerSearchResult (Object (index bikingSublayers 1)) None)
  else if String.eqb text "B3" || String.eqb text "B03"
     || String.eqb text "b3" || String.eqb text "b03" then
    push_result results (createLayerSearchResult (Object (index bikingSublayers 2)) None)
  else if String.eqb text "B4" || String.eqb text "B04"
     || String.eqb text "b4" || String.eqb text "b04" then
    push_result results (createLayerSearchResult (Object (index bikingSublayers 3)) None)
  else if String.eqb text "B5" || String.eqb text "B05"
     || String.eqb text "b5" || String.eqb text "b05" then
    push_result results (createLayerSearchResult (Object (index bikingSublayers 4)) None)
  else if String.eqb text "B6" || String.eqb text "B06"
     || String.eqb text "b6" || String.eqb text "b06" then
    push_result results (createLayerSearchResult (Object (index bikingSublayers 5)) None)
  else if String.eqb text "B7" || String.eqb text "B07"
     || String.eqb text "b7" || String.eqb text "b07" then
    push_result results (createLayerSearchResult (Object (index bikingSublayers 6)) None)
  else if String.eqb text "B8" || String.eqb text "B08"
     || String.eqb text "b8" || String.eqb text "b08" then
    push_result results (createLayerSearchResult (Object (index bikingSublayers 7)) None)
  else if String.eqb text "B9" || String.eqb text "B09"
     || String.eqb text "b9" || String.eqb text "b09" then
    push_result results (createLayerSearchResult (Object (index bikingSublayers 8)) None)
  else if String.eqb text "B10" || String.eqb text "b10" then
    push_result results (createLayerSearchResult (Object (index bikingSublayers 9)) None)
  else if String.eqb text "B11" || String.eqb text "b11" then
    push_result results (createLayerSearchResult (Object (index bikingSublayers 10)) None)
  else if String.eqb text "B12" || String.eqb text "b12" then
    push_result results (createLayerSearchResult (Object (index bikingSublayers 11)) None)
  else if String.eqb text "B13" || String.eqb text "b13" then
    push_result results (createLayerSearchResult (Object (index bikingSublayers 12)) None)
  else if String.eqb text "B14" || String.eqb text "b14" then
    push_result results (createLayerSearchResult (Object (index bikingSublayers 13)) None)
  else if String.eqb text "B15" || String.eqb text "b15" then
    push_result results (createLayerSearchResult (Object (index bikingSublayers 14)) None)
  else if String.eqb text "B16" || String.eqb text "b16" then
    push_result results (createLayerSearchResult (Object (index bikingSublayers 15)) None)
  else if String.eqb text "B17" || String.eqb text "b17" then
    push_result results (createLayerSearchResult (Object (index bikingSublayers 16)) None)
  else if String.eqb text "B18" || String.eqb text "b18" then
    push_result results (createLayerSearchResult (Object (index bikingSublayers 17)) None)
  else if String.eqb text "B19" || String.eqb text "b19" then
    push_result results (createLayerSearchResult (Object (index bikingSublayers 18)) None)
  else if String.eqb text "B20" || String.eqb text "b20" then
    push_result results (createLayerSearchResult (Object (index bikingSublayers 19)) None)
  else if String.eqb text "E" || String.eqb text "e" then
    push_result results (createLayerSearchResult (Array (map Some hikingSublayers)) None)
  else if String.eqb text "E0" || String.eqb text "e0" then
    push_result results (createLayerSearchResult (Array (map Some (slice hikingSublayers 0 9))) None)
  else if String.eqb text "E1" || String.eqb text "e1" then
    push_result results (createLayerSearchResult (Array ([index hikingSublayers 0] ++ (map Some (slice_from hikingSublayers 9)))) None)
  else if String.eqb text "E01" || String.eqb text "e01" then
    push_result results (createLayerSearchResult (Object (index hikingSublayers 0)) None)
  else if String.eqb text "E2" || String.eqb text "E02"
     || String.eqb text "e2" || String.eqb text "e02" then
    push_result results (createLayerSearchResult (Object (index hikingSublayers 1)) None)
  else if String.eqb text "E3" || String.eqb text "E03"
     || String.eqb text "e3" || String.eqb text "e03" then
    push_result results (createLayerSearchResult (Object (index hikingSublayers 2)) None)
  else if String.eqb text "E4" || String.eqb text "E04"
     || String.eqb text "e4" || String.eqb text "e04" then
    push_result results (createLayerSearchResult (Object (index hikingSublayers 3)) None)
  else if String.eqb text "E5" || String.eqb text "E05"
     || String.eqb text "e5" || String.eqb text "e05" then
    push_result results (createLayerSearchResult (Object (index hikingSublayers 4)) None)
  else if String.eqb text "E6" || String.eqb text "E06"
     || String.eqb text "e6" || String.eqb text "e06" then
    push_result results (createLayerSearchResult (Object (index hikingSublayers 5)) None)
  else if String.eqb text "E7" || String.eqb text "E07"
     || String.eqb text "e7" || String.eqb text "e07" then
    push_result results (createLayerSearchResult (Object (index hikingSublayers 6)) None)
  else if String.eqb text "E8" || String.eqb text "E08"
     || String.eqb text "e8" || String.eqb text "e08" then
    push_result results (createLayerSearchResult (Object (index hikingSublayers 7)) None)
  else if String.eqb text "E9" || String.eqb text "E09"
     || String.eqb text "e9" || String.eqb text "e09" then
    push_result results (createLayerSearchResult (Object (index hikingSublayers 8)) None)
  else if String.eqb text "E10" || String.eqb text "e10" then
    push_result results (createLayerSearchResult (Object (index hikingSublayers 9)) None)
  else if String.eqb text "E11" || String.eqb text "e11" then
    push_result results (createLayerSearchResult (Object (index hikingSublayers 10)) None)
  else if String.eqb text "E12" || String.eqb text "e12" then
    push_result results (createLayerSearchResult (Object (index hikingSublayers 11)) None)
  else if String.eqb text "E13" || String.eqb text "e13" then
    push_result results (createLayerSearchResult (Object (index hikingSublayers 12)) None)
  else if String.eqb text "E14" || String.eqb text "e14" then
    push_result results (createLayerSearchResult (Object (index hikingSublayers 13)) None)
  else if String.eqb text "E15" || String.eqb text "e15" then
    push_result results (createLayerSearchResult (Object (index hikingSublayers 14)) None)
  else if String.eqb text "E16" || String.eqb text "e16" then
    push_result results (createLayerSearchResult (Object (index hikingSublayers 15)) None)
  else if String.eqb text "E17" || String.eqb text "e17" then
    push_result results (createLayerSearchResult (Object (index hikingSublayers 16)) None)
  else if String.eqb text "G" || String.eqb text "G0"
     || String.eqb text "g" || String.eqb text "g0" then
    push_result results (createLayerSearchResult (Array (map Some bigRingSublayers)) None)
  else if String.eqb text "G1" || String.eqb text "G01"
     || String.eqb text "g1" || String.eqb text "g01" then
    push_result results (createLayerSearchResult (Object (index bigRingSublayers 0)) None)
  else if String.eqb text "G2" || String.eqb text "G02"
     || String.eqb text "g2" || String.eqb text "g02" then
    push_result results (createLayerSearchResult (Object (index bigRingSublayers 1)) None)
  else if String.eqb text "G3" || String.eqb text "G03"
     || String.eqb text "g3" || String.eqb text "g03" then
    push_result results (createLayerSearchResult (Object (index bigRingSublayers 2)) None)
  else if String.eqb text "G4" || String.eqb text "G04"
     || String.eqb text "g4" || String.eqb text "g04" then
    push_result results (createLayerSearchResult (Object (index bigRingSublayers 3)) None)
  else if String.eqb text "G5" || String.eqb text "G05"
     || String.eqb text "g5" || String.eqb text "g05" then
    push_result results (createLayerSearchResult (Object (index bigRingSublayers 4)) None)
  else if String.eqb text "G6" || String.eqb text "G06"
     || String.eqb text "g6" || String.eqb text "g06" then
    push_result results (createLayerSearchResult (Object (index bigRingSublayers 5)) None)
  else if String.eqb text "G7" || String.eqb text "G07"
     || String.eqb text "g7" || String.eqb text "g07" then
    push_result results (createLayerSearchResult (Object (index bigRingSublayers 6)) None)
  else if String.eqb text "G8" || String.eqb text "G08"
     || String.eqb text "g8" || String.eqb text "g08" then
    push_result results (createLayerSearchResult (Object (index bigRingSublayers 7)) None)
  else if String.eqb text "G9" || String.eqb text "G09"
     || String.eqb text "g9" || String.eqb text "g09" then
    push_result results (createLayerSearchResult (Object (index bigRingSublayers 8)) None)
  else if test (Cat [Bos; Lit_i "gab"; Eos]) text then
    push_result results
      (createLayerSearchResult
        (Object (Some {| Sublayer.name := "GAB";
            Sublayer.title := "GAB";
            Sublayer.visibility := true;
            Sublayer.queryable := true;
            Sublayer.displayField := "LUNGHEZZA";
            Sublayer.opacity := 255%Z;
            Sublayer.bbox := {| BBox.crs := "EPSG:4326";
                                BBox.bounds := 
              [Fin (13049564 # 1000000); Fin (42746306 # 1000000);
               Fin (13362181 # 1000000); Fin (43044449 # 1000000)] |} |}))
        None)
  else if test (Cat [Bos; Lit_i "gas"; Eos]) text then
    push_result results
      (createLayerSearchResult
        (Object (Some {| Sublayer.name := "GAS";
            Sublayer.title := "GAS";
            Sublayer.visibility := true;
            Sublayer.queryable := true;
            Sublayer.displayField := "ET_ID";
            Sublayer.opacity := 255%Z;
            Sublayer.bbox := {| BBox.crs := "EPSG:4326";
                                BBox.bounds := 
              [Fin (13075322 # 1000000); Fin (42754668 # 1000000);
               Fin (13327618 # 1000000); Fin (43066628 # 1000000)] |} |}))
        None)
  else if String.eqb text "N" || String.eqb text "n" then
    push_result results (createLayerSearchResult (Array (map Some natureSublayers)) None)
  else if String.eqb text "N0" || String.eqb text "n0" then
    push_result results (createLayerSearchResult (Array (map Some (slice natureSublayers 0 9))) None)
  else if String.eqb text "N1" || String.eqb text "n1" then
    push_result results (createLayerSearchResult (Array ([index natureSublayers 0] ++ (map Some (slice_from natureSublayers 9)))) None)
  else if String.eqb text "N01" || String.eqb text "n01" then
    push_result results (createLayerSearchResult (Object (index natureSublayers 0)) None)
  else if String.eqb text "N2" || String.eqb text "N02"
     || String.eqb text "n2" || String.eqb text "n02" then
    push_result results (createLayerSearchResult (Object (index natureSublayers 1)) None)
  else if String.eqb text "N3" || String.eqb text "N03"
     || String.eqb text "n3" || String.eqb text "n03" then
    push_result results (createLayerSearchResult (Object (index natureSublayers 2)) None)
  else if String.eqb text "N4" || String.eqb text "N04"
     || String.eqb text "n4" || String.eqb text "n04" then
    push_result results (createLayerSearchResult (Object (index natureSublayers 3)) None)
  else if String.eqb text "N5" || String.eqb text "N05"
     || String.eqb text "n5" || String.eqb text "n05" then
    push_result results (createLayerSearchResult (Object (index natureSublayers 4)) None)
  else if String.eqb text "N6" || String.eqb text "N06"
     || String.eqb text "n6" || String.eqb text "n06" then
    push_result results (createLayerSearchResult (Object (index natureSublayers 5)) None)
  else if String.eqb text "N7" || String.eqb text "N07"
     || String.eqb text "n7" || String.eqb text "n07" then
    push_result results (createLayerSearchResult (Object (index natureSublayers 6)) None)
  else if String.eqb text "N8" || String.eqb text "N08"
     || String.eqb text "n8" || String.eqb text "n08" then
    push_result results (createLayerSearchResult (Object (index natureSublayers 7)) None)
  else if String.eqb text "N9" || String.eqb text "N09"
     || String.eqb text "n9" || String.eqb text "n09" then
    push_result results (createLayerSearchResult (Object (index natureSublayers 8)) None)
  else if String.eqb text "N10" || String.eqb text "n10" then
    push_result results (createLayerSearchResult (Object (index natureSublayers 9)) None)
  else if String.eqb text "N11" || String.eqb text "n11" then
    push_result results (createLayerSearchResult (Object (index natureSublayers 10)) None)
  else if String.eqb text "N12" || String.eqb text "n12" then
    push_result results (createLayerSearchResult (Object (index natureSublayers 11)) None)
  else if String.eqb text "N13" || String.eqb text "n13" then
    push_result results (createLayerSearchResult (Object (index natureSublayers 12)) None)
  else if String.eqb text "N14" || String.eqb text "n14" then
    push_result results (createLayerSearchResult (Object (index natureSublayers 13)) None)
  else if String.eqb text "N15" || String.eqb text "n15" then
    push_result results (createLayerSearchResult (Object (index natureSublayers 14)) None)
  else if String.eqb text "N16" || String.eqb text "n16" then
    push_result results (createLayerSearchResult (Object (index natureSublayers 15)) None)
  else if test (Alt (Cat [Bos; Lit_i "n17"]) (Cat [Lit_i "nt1"; Eos])) text then
    push_result results (createLayerSearchResult (Object (index natureSublayers 16)) None)
  else if test (Alt (Cat [Bos; Lit_i "n18"]) (Cat [Lit_i "nt2"; Eos])) text then
    push_result results (createLayerSearchResult (Object (index natureSublayers 17)) None)
  else if test (Cat [Bos; Lit_i "nt"; Eos]) text then
    push_result results (createLayerSearchResult (Array (map Some (slice_last natureSublayers 2))) None)
  else Ok results.

Definition layerSearch (text : string) (requestId : value)
    (searchOptions : SearchOptions) : M Action unit :=
  then_ (lift (layerSearchResults text))
    (fun results =>
       dispatch (addSearchResults
                   {| data := results; provider := VStr "layers"; reqId := requestId |}
                   (VBool true))).

End WithBuiltins.

End Layers.

(** ** The provider table *)

(** What the remote services answer.  Each field gives the outcome of the
    request that one provider function sends, as a function of the inputs that
    determine the request. *)
Record Network : Type := {
  geoadmin_search : string -> outcome GeoAdmin.Response.t;
  uster_search : string -> outcome Uster.Response.t;
  uster_geometry : Item -> outcome value;
  wolfsburg_search : string -> outcome Wolfsburg.Response.t;
  wolfsburg_geometry : Item -> outcome value;
  glarus_search : string -> outcome Glarus.Response.t;
  glarus_more : Item -> string -> outcome Glarus.Response.t;
  glarus_geometry : Item -> outcome value;
  nominatim_search : string -> outcome (option (list Nominatim.Entry.t));
  parametrized_search : Parametrized.Config -> string -> outcome (list ResultGroup)
}.

(** An entry of [SearchProviders]; a member that an entry does not define is
    [None] (or [VUndefined] for a plain value). *)
Record Provider : Type := {
  label : value;
  labelmsgid : value;
  onSearch : string -> value -> SearchOptions -> Network -> M Action unit;
  getResultGeometry : option (Item -> Network -> M CallbackCall unit);
  getMoreResults : option (Item -> string -> value -> Network -> M Action unit);
  requiresLayer : value
}.

Section Registry.

Variable Number_toString : number -> string.
Variable reprojectBbox : list number -> string -> string -> list number.
Variable toUpperCase : string -> string.
Variable THEMELAYER : value.
Variable toLowerCase : string -> string.

Definition SearchProviders : list (string * Provider) := [
  ("coordinates", {|
     label := VUndefined;
     labelmsgid := VStr "search.coordinates";
     onSearch := fun text requestId searchOptions _ =>
       Coordinates.coordinatesSearch Number_toString text requestId searchOptions;
     getResultGeometry := None;
     getMoreResults := None;
     requiresLayer := VUndefined |});
  ("geoadmin", {|
     label := VStr "Swisstopo";
     labelmsgid := VUndefined;
     onSearch := fun text requestId searchOptions net =>
       GeoAdmin.geoAdminLocationSearch reprojectBbox text requestId searchOptions
         (geoadmin_search net text);
     getResultGeometry := None;
     getMoreResults := None;
     (* Make provider availability depend on the presence of a theme WMS layer *)
     requiresLayer := VStr "a" |});
  ("uster", {|
     label := VStr "Uster";
     labelmsgid := VUndefined;
     onSearch := fun text requestId searchOptions net =>
       Uster.usterSearch text requestId searchOptions (uster_search net text);
     getResultGeometry := Some (fun resultItem net =>
       Uster.usterResultGeometry resultItem (uster_geometry net resultItem));
     getMoreResults := None;
     requiresLayer := VUndefined |});
  ("wolfsburg", {|
     label := VStr "Wolfsburg";
     labelmsgid := VUndefined;
     onSearch := fun text requestId searchOptions net =>
       Wolfsburg.wolfsburgSearch text requestId searchOptions (wolfsburg_search net text);
     getResultGeometry := Some (fun resultItem net =>
       Wolfsburg.wolfsburgResultGeometry resultItem (wolfsburg_geometry net resultItem));
     getMoreResults := None;
     requiresLayer := VUndefined |});
  ("glarus", {|
     label := VStr "Glarus";
     labelmsgid := VUndefined;
     onSearch := fun text requestId searchOptions net =>
       Glarus.glarusSearch text requestId searchOptions (glarus_search net text);
     getResultGeometry := Some (fun resultItem net =>
       Glarus.glarusResultGeometry resultItem (glarus_geometry net resultItem));
     getMoreResults := Some (fun moreItem text requestId net =>
       Glarus.glarusMoreResults moreItem text requestId (glarus_more net moreItem text));
     requiresLayer := VUndefined |});
  ("nominatim", {|
     label := VStr "OpenStreetMap";
     labelmsgid := VUndefined;
     onSearch := fun text requestId searchOptions net =>
       Nominatim.nominatimSearch toUpperCase text requestId searchOptions
         (nominatim_search net text);
     getResultGeometry := None;
     getMoreResults := None;
     requiresLayer := VUndefined |});
  ("layers", {|
     label := VStr "Layers";
     labelmsgid := VUndefined;
     onSearch := fun text requestId searchOptions _ =>
       Layers.layerSearch THEMELAYER toLowerCase text requestId searchOptions;
     getResultGeometry := None;
     getMoreResults := None;
     requiresLayer := VUndefined |})
].

(* Note: cfg corresponds to an entry of the theme searchProviders array in
   themesConfig.json.  The entry must have at least a key. *)
Definition searchProviderFactory (cfg : Parametrized.Config) : Provider := {|
  label := Parametrized.label cfg;
  labelmsgid := VUndefined;
  onSearch := fun text requestId searchOptions net =>
    Parametrized.parametrizedSearch cfg text requestId searchOptions
      (parametrized_search net cfg text);
  getResultGeometry := None;
  getMoreResults := None;
  requiresLayer := Parametrized.layerName cfg
|}.

End Registry.

(** ** Sample builtins

    The properties below hold for every choice of the builtins that the
    provider functions take as parameters.  The concrete instances here serve
    to run the functions on examples. *)

Definition ascii_upper (c : ascii) : ascii :=
  let n := nat_of_ascii c in
  if (97 <=? n)%nat && (n <=? 122)%nat then ascii_of_nat (n - 32) else c.

Definition ascii_lower (c : ascii) : ascii :=
  let n := nat_of_ascii c in
  if (65 <=? n)%nat && (n <=? 90)%nat then ascii_of_nat (n + 32) else c.

Fixpoint map_string (f : ascii -> ascii) (s : string) : string :=
  match s with
  | EmptyString => EmptyString
  | String c r => String (f c) (map_string f r)
  end.

(** Upper and lower case of ASCII text. *)
Definition sample_toUpperCase : string -> string := map_string ascii_upper.
Definition sample_toLowerCase : string -> string := map_string ascii_lower.

(** Integers are printed in decimal, other numbers by a fixed text. *)
Definition sample_Number_toString (n : number) : string :=
  match n with
  | Fin q =>
      if Qeq_bool q (inject_Z (Qnum q / Zpos (Qden q))) then
        (if (Qnum q <? 0)%Z then "-" else "")
        +:+ nat_to_string (Z.to_nat (Z.abs (Qnum q / Zpos (Qden q))))
      else "<fraction>"
  | PInf => "Infinity"
  | NInf => "-Infinity"
  | NaN => "NaN"
  end.

(** A reprojection that leaves the box where it is. *)
Definition sample_reprojectBbox (b : list number) (src dst : string) : list number := b.

Definition sample_THEMELAYER : value := VNum (num_of_Z 1).

(** A network on which every request fails. *)
Definition offline : Network := {|
  geoadmin_search := fun _ => Fail RequestFailed;
  uster_search := fun _ => Fail RequestFailed;
  uster_geometry := fun _ => Fail RequestFailed;
  wolfsburg_search := fun _ => Fail RequestFailed;
  wolfsburg_geometry := fun _ => Fail RequestFailed;
  glarus_search := fun _ => Fail RequestFailed;
  glarus_more := fun _ _ => Fail RequestFailed;
  glarus_geometry := fun _ => Fail RequestFailed;
  nominatim_search := fun _ => Fail RequestFailed;
  parametrized_search := fun _ _ => Fail RequestFailed
|}.

(** * Specification

    The vocabulary in which the properties of the provider functions are
    stated, and sample data on which the functions are run. *)

(** ** Deliveries *)

(** The action a provider sends for a request: its provider id and the
    request id it was called with. *)
Definition tagged (pid requestId : value) (a : Action) : Prop :=
  provider (results_of a) = pid /\ reqId (results_of a) = requestId.

(** [SearchProviders[key]] *)
Definition provider_named (table : list (string * Provider)) (key : string)
  : option Provider :=
  own table key.

(** Every action of the list carries [requestId]. *)
Definition all_carry (requestId : value) (actions : list Action) : Prop :=
  forall a, In a actions -> reqId (results_of a) = requestId.

(** The empty delivery of provider [pid] for request [requestId]. *)
Definition empty_delivery (pid requestId append : value) : Action :=
  addSearchResults {| data := []; provider := pid; reqId := requestId |} append.

(** ** Geometry resolution *)

(** The callback is invoked exactly once, with the item, some geometry and
    the coordinate reference system [crs]. *)
Definition invoked_exactly_once (resultItem : Item) (crs : value)
    (calls : list CallbackCall) : Prop :=
  exists geometry,
    calls = [{| cb_item := resultItem; cb_geometry := geometry; cb_crs := crs |}].

(** What a geometry resolver does with the outcome of its request: on
    success one call of the callback with the item, the data of the answer
    and [crs]; on failure no call, and the chain stays rejected. *)
Definition resolves_on_success_only
    (resolver : Item -> outcome value -> M CallbackCall unit) (crs : string) : Prop :=
  forall resultItem response,
    match response with
    | Ok geometry =>
        trace (resolver resultItem response)
        = [{| cb_item := resultItem; cb_geometry := geometry; cb_crs := VStr crs |}]
        /\ settled (resolver resultItem response) = Ok tt
    | Fail e =>
        trace (resolver resultItem response) = []
        /\ settled (resolver resultItem response) = Fail e
    end.

(** ** Candidates of the coordinates provider *)

(** The two numbers that [coordinatesSearch] reads in [text], when [text]
    matches the pattern. *)
Definition parsed_pair (text : string) : option (number * number) :=
  match String_match text Coordinates.coordinates_re with
  | Some m => Some (parseFloat_opt (nth 1 m None), parseFloat_opt (nth 2 m None))
  | None => None
  end.

(** One interpretation of the pair: a reference system and a point. *)
Record Candidate : Type := {
  cand_crs : string;
  cand_x : number;
  cand_y : number
}.

Definition between (lo hi : Z) (v : number) : bool :=
  num_ge v (num_of_Z lo) && num_le v (num_of_Z hi).

(** The interpretations of the pair [(x, y)], in the order of the spec:
    the raw pair in the display system when that is not EPSG:4326, the pair as
    (lon, lat), then the pair as (lat, lon) when the two numbers differ. *)
Definition candidates (displaycrs : string) (x y : number) : list Candidate :=
  (if negb (String.eqb displaycrs "EPSG:4326")
   then [{| cand_crs := displaycrs; cand_x := x; cand_y := y |}] else [])
  ++ (if between (-180) 180 x && between (-90) 90 y
      then [{| cand_crs := "EPSG:4326"; cand_x := x; cand_y := y |}] else [])
  ++ (if between (-90) 90 x && between (-180) 180 y && negb (num_eq x y)
      then [{| cand_crs := "EPSG:4326"; cand_x := y; cand_y := x |}] else []).

(** The item [it] is the place of candidate [c]: it carries the system and
    the point of [c], a box of no area at that point, and it is neither a
    "more" entry nor a layer. *)
Definition place_of (c : Candidate) (it : Item) : Prop :=
  prop it "crs" = VStr (cand_crs c)
  /\ prop it "x" = VNum (cand_x c)
  /\ prop it "y" = VNum (cand_y c)
  /\ prop it "bbox" = VArr [VNum (cand_x c); VNum (cand_y c);
                            VNum (cand_x c); VNum (cand_y c)]
  /\ prop it "more" = VUndefined
  /\ prop it "layer" = VUndefined.

(** The ids "coord0", "coord1", ... of a list of items. *)
Definition numbered (its : list Item) : Prop :=
  map (fun it => prop it "id") its
  = map (fun i => VStr ("coord" +:+ nat_to_string i)) (seq 0 (List.length its)).

(** The data delivered for a list of items: one group when there is an
    item, none otherwise. *)
Definition coords_group (its : list Item) : list ResultGroup :=
  match its with
  | [] => []
  | _ :: _ =>
      [{| id := VStr "coords"; title := VUndefined;
          titlemsgid := VStr "search.coordinates"; items := its |}]
  end.

(** The items of all the groups of all the actions of a trace. *)
Definition delivered_items (actions : list Action) : list Item :=
  flat_map (fun a => flat_map items (data (results_of a))) actions.

(** ** The "more" marker of the glarus provider *)

Module GlarusSpec.
Import Glarus.

(** The groups of an answer and the number of features of a group. *)
Definition groups_of (obj : Response.t) : list Group.t :=
  match Response.results obj with Some l => l | None => [] end.

Definition feature_count (g : Group.t) : nat :=
  match Group.features g with Some fs => List.length fs | None => 0 end.

(** [limit] after the default of the parameter is applied. *)
Definition effective (limit : option Z) : Z :=
  match limit with Some l => l | None => (-1)%Z end.

(** The group exceeds the limit. *)
Definition truncated (limit : Z) (g : Group.t) : bool :=
  (limit >=? 0)%Z && (Z.of_nat (feature_count g) >? limit)%Z.

(** [it] is a "more" entry for the group [g]. *)
Definition is_more_marker (g : Group.t) (it : Item) : Prop :=
  prop it "more" = VBool true
  /\ prop it "provider" = VStr "glarus"
  /\ prop it "category" = Group.category g.

(** The list of items of [r] ends with a "more" entry for [g]. *)
Definition ends_with_more (g : Group.t) (r : ResultGroup) : Prop :=
  exists its m, items r = its ++ [m] /\ is_more_marker g m.

(** No item of [r] is a "more" entry. *)
Definition no_more (r : ResultGroup) : Prop :=
  Forall (fun it => prop it "more" = VUndefined) (items r).

(** What the loop makes of one group [g] of the answer: the items of its
    features, in order, followed by a "more" entry when [g] exceeds the
    limit. *)
Inductive group_result (limit : Z) (g : Group.t) (r : ResultGroup) : Prop :=
| GroupResult (fs : list Feature.t) (its : list Item) (k : nat) :
    Group.features g = Some fs ->
    Forall2 (fun f it => feature_item g f = Ok it) fs its ->
    id r = Group.category g ->
    title r = Group.name g ->
    items r = its ++ (if truncated limit g then [more_item k g] else []) ->
    group_result limit g r.


End GlarusSpec.

(** ** Invariants of the delivered items *)

(** Every item of every group satisfies [P]. *)
Definition all_items (P : Item -> Prop) (groups : list ResultGroup) : Prop :=
  Forall (fun g => Forall P (items g)) groups.

Definition dict_all {A} (P : A -> Prop) (d : dict A) : Prop :=
  Forall (fun kv => P (snd kv)) d.

(** Every item of every action of the list satisfies [P]. *)
Definition deliveries_satisfy (P : Item -> Prop) (actions : list Action) : Prop :=
  forall a, In a actions -> all_items P (data (results_of a)).

(** *** The provider field *)

(** The provider field of an item. *)
Definition provided_by (pid : value) (it : Item) : Prop := prop it "provider" = pid.

(** The provider field of the items that the provider registered under
    [key] builds: its key, except for the coordinates and layers providers,
    whose items have no such field. *)
Definition provider_field (key : string) : value :=
  if String.eqb key "coordinates" || String.eqb key "layers"
  then VUndefined else VStr key.

(** Every item of every action of the list carries the field [pid]. *)
Definition deliveries_carry (pid : value) (actions : list Action) : Prop :=
  deliveries_satisfy (provided_by pid) actions.

(** *** The point of a place and its box *)

(** The box of [it] starts with the four numbers [b0], [b1], [b2], [b3]. *)
Definition has_bbox (it : Item) (b0 b1 b2 b3 : number) : Prop :=
  exists rest,
    prop it "bbox" = VArr (VNum b0 :: VNum b1 :: VNum b2 :: VNum b3 :: rest).

(** [xmin <= xmax] and [ymin <= ymax]. *)
Definition in_order (b0 b1 b2 b3 : number) : Prop :=
  num_le b0 b2 = true /\ num_le b1 b3 = true.

(** A finite double: a finite number that rounding leaves as it is, that is
    a number [m * 2^e] with [|m| < 2^53] and [-1074 <= e <= 971]. *)
Definition finite_double (a : number) : bool :=
  match a with
  | Fin q => num_eq (round64 q) a
  | _ => false
  end.

Definition all_doubles (b0 b1 b2 b3 : number) : Prop :=
  finite_double b0 = true /\ finite_double b1 = true
  /\ finite_double b2 = true /\ finite_double b3 = true.

(** Neither [b0 + b2] nor [b1 + b3] overflows. *)
Definition sums_finite (b0 b1 b2 b3 : number) : Prop :=
  is_finite (num_add b0 b2) = true /\ is_finite (num_add b1 b3) = true.

(** The point of [it] is the midpoint of the box and lies within it. *)
Definition at_midpoint_within (it : Item) (b0 b1 b2 b3 : number) : Prop :=
  exists x y,
    prop it "x" = VNum x /\ prop it "y" = VNum y
    /\ x = num_mul half (num_add b0 b2)
    /\ y = num_mul half (num_add b1 b3)
    /\ num_le b0 x = true /\ num_le x b2 = true
    /\ num_le b1 y = true /\ num_le y b3 = true.

(** The property as the spec words it: it asks nothing but the order of
    the bounds. *)
Definition midpoint_of_ordered_bbox (it : Item) : Prop :=
  forall b0 b1 b2 b3,
    has_bbox it b0 b1 b2 b3 -> in_order b0 b1 b2 b3 ->
    at_midpoint_within it b0 b1 b2 b3.

(** The property that holds: the bounds are finite doubles as well, and
    their sums do not overflow. *)
Definition midpoint_of_finite_bbox (it : Item) : Prop :=
  forall b0 b1 b2 b3,
    has_bbox it b0 b1 b2 b3 -> all_doubles b0 b1 b2 b3 ->
    sums_finite b0 b1 b2 b3 -> in_order b0 b1 b2 b3 ->
    at_midpoint_within it b0 b1 b2 b3.

(** The providers that compute the point of a place from its box. *)
Definition midpoint_providers : list string :=
  ["uster"; "wolfsburg"; "glarus"; "nominatim"].

(** ** Groups of the uster and wolfsburg answers

    Both normalizations run the same loop: an entry without bbox opens a
    group, an entry with a bbox becomes an item of the current group.  The
    loop is written once more here, for any kind of entry, together with the
    notions that describe its result. *)

Section GroupingLoop.

Variable E : Type.
Variable bbox_of : E -> option (list number).
Variable mk_group : nat -> E -> ResultGroup.
Variable mk_item : nat -> E -> list number -> Item.

Definition grouping_step (st : GroupingState) (entry : E) : GroupingState :=
  match bbox_of entry with
  | None =>
      {| results := results st ++ [mk_group (groupcounter st) entry];
         currentgroup := Some (List.length (results st));
         groupcounter := S (groupcounter st);
         counter := counter st |}
  | Some bbox =>
      match currentgroup st with
      | Some ref =>
          {| results := push_item (results st) ref (mk_item (counter st) entry bbox);
             currentgroup := currentgroup st;
             groupcounter := groupcounter st;
             counter := S (counter st) |}
      | None => st
      end
  end.

Definition grouping_init : GroupingState :=
  {| results := []; currentgroup := None; groupcounter := 0; counter := 0 |}.

(** The groups built from a list of entries. *)
Definition grouping (entries : list E) : list ResultGroup :=
  results (fold_left grouping_step entries grouping_init).

(** An entry without bbox is the header of a group. *)
Definition is_header (e : E) : bool :=
  match bbox_of e with None => true | Some _ => false end.

Definition has_box (e : E) : bool := negb (is_header e).

(** Number of headers of a list of entries. *)
Definition headers (l : list E) : nat := List.length (filter is_header l).

(** The entries from the first header on. *)
Fixpoint from_first_header (l : list E) : list E :=
  match l with
  | [] => []
  | e :: l' => if is_header e then l else from_first_header l'
  end.

(** Number of entries with a bbox that follow a header: those that become
    items. *)
Definition emitted (l : list E) : nat :=
  List.length (filter has_box (from_first_header l)).

(** The list is empty or starts with a header. *)
Definition at_header (l : list E) : Prop :=
  match l with
  | [] => True
  | e :: _ => is_header e = true
  end.

(** The items of a run of entries with a bbox, numbered from [c]. *)
Fixpoint segment_items (c : nat) (seg : list E) : list Item :=
  match seg with
  | [] => []
  | e :: seg' =>
      match bbox_of e with
      | Some bbox => mk_item c e bbox :: segment_items (S c) seg'
      | None => segment_items c seg'
      end
  end.

End GroupingLoop.

Arguments grouping_step {E} bbox_of mk_group mk_item st entry.
Arguments grouping {E} bbox_of mk_group mk_item entries.
Arguments is_header {E} bbox_of e.
Arguments has_box {E} bbox_of e.
Arguments headers {E} bbox_of l.
Arguments from_first_header {E} bbox_of l.
Arguments emitted {E} bbox_of l.
Arguments at_header {E} bbox_of l.
Arguments segment_items {E} bbox_of mk_item c seg.

(** The group [g] with the items [its]. *)
Definition with_items (g : ResultGroup) (its : list Item) : ResultGroup :=
  {| id := id g; title := title g; titlemsgid := titlemsgid g; items := its |}.

(** The first [n] groups are settled once the current group lies beyond
    them. *)
Definition beyond (n : nat) (st : GroupingState) : Prop :=
  exists k, currentgroup st = Some k /\ n <= k.

(** How a normalization that groups entries by header treats its entries:
    entries with a bbox ahead of the first header are dropped; the header
    [h] opens the group at the position given by the number of headers before
    it, and that group holds the items of the entries with a bbox that follow
    [h] up to the next header, in order; there are as many groups as headers;
    without a header there is no group. *)
Definition groups_by_header {E : Type} (bbox_of : E -> option (list number))
    (mk_group : nat -> E -> ResultGroup) (mk_item : nat -> E -> list number -> Item)
    (normalize : list E -> list ResultGroup) : Prop :=
  (forall pre rest,
     forallb (has_box bbox_of) pre = true -> normalize (pre ++ rest) = normalize rest)
  /\ (forall before h seg after,
        is_header bbox_of h = true ->
        forallb (has_box bbox_of) seg = true ->
        at_header bbox_of after ->
        nth_error (normalize (before ++ h :: seg ++ after)) (headers bbox_of before)
        = Some (with_items (mk_group (headers bbox_of before) h)
                  (segment_items bbox_of mk_item (emitted bbox_of before) seg)))
  /\ (forall entries, List.length (normalize entries) = headers bbox_of entries)
  /\ (forall entries,
        forallb (has_box bbox_of) entries = true -> normalize entries = []).

(** The groups that each normalization delivers for a list of entries. *)
Definition uster_groups (requestId : value) (entries : list Uster.Entry.t)
  : list ResultGroup :=
  data (results_of
          (Uster.usterSearchResults {| Uster.Response.results := Some entries |} requestId)).

Definition wolfsburg_groups (requestId : value) (entries : list Wolfsburg.Entry.t)
  : list ResultGroup :=
  data (results_of
          (Wolfsburg.wolfsburgSearchResults
             {| Wolfsburg.Response.results := Some entries |} requestId)).

(** ** Sample data *)

Definition sample_options : SearchOptions := {| displaycrs := Some "EPSG:2056" |}.

(** An item as the uster provider builds them. *)
Definition sample_uster_item : Item := [
  ("id", VStr "usterresult0");
  ("text", VStr "Bahnhofstrasse 1");
  ("searchtable", VStr "addresses");
  ("bbox", VArr [VNum (num_of_Z 696000); VNum (num_of_Z 244000);
                 VNum (num_of_Z 696100); VNum (num_of_Z 244100)]);
  ("x", VNum (num_of_Z 696050));
  ("y", VNum (num_of_Z 244050));
  ("crs", VStr "EPSG:21781");
  ("provider", VStr "uster")
].

(** A geoadmin answer with two well-formed entries around a malformed one. *)
Definition sample_geoadmin_entry (n : Z) (label : string) (box : option string)
  : GeoAdmin.Entry.t :=
  {| GeoAdmin.Entry.id := VNum (num_of_Z n);
     GeoAdmin.Entry.attrs :=
       {| GeoAdmin.Attrs.origin := "gg25";
          GeoAdmin.Attrs.lon := VNum (Fin (85 # 10));
          GeoAdmin.Attrs.lat := VNum (Fin (474 # 10));
          GeoAdmin.Attrs.label := VStr label;
          GeoAdmin.Attrs.geom_st_box2d := box |} |}.

Definition sample_geoadmin_entries : list GeoAdmin.Entry.t := [
  sample_geoadmin_entry 1 "Uster" (Some "BOX(693000 242000,699000 248000)");
  sample_geoadmin_entry 2 "Maur" (Some "n/a");
  sample_geoadmin_entry 3 "Egg" None
].

Definition sample_geoadmin_answer : GeoAdmin.Response.t :=
  {| GeoAdmin.Response.results := Some sample_geoadmin_entries |}.

(** A nominatim answer whose single entry spans every longitude. *)
Definition sample_unbounded_entry : Nominatim.Entry.t := {|
  Nominatim.Entry.class := "boundary";
  Nominatim.Entry.display_name := "Earth";
  Nominatim.Entry.address :=
    Some {| Nominatim.Address.town := None; Nominatim.Address.city := None;
            Nominatim.Address.state := None; Nominatim.Address.country := None |};
  Nominatim.Entry.boundingbox := Some ["-90"; "90"; "-Infinity"; "Infinity"];
  Nominatim.Entry.place_id := VNum (num_of_Z 1)
|}.

(** An uster answer: an entry with a bbox ahead of any header, a first
    group with one entry, a second group with two entries, a third header. *)
Definition sample_uster_header (name : string) : Uster.Entry.t :=
  {| Uster.Entry.displaytext := VStr name;
     Uster.Entry.searchtable := VNull;
     Uster.Entry.bbox := None |}.

Definition sample_uster_entry (name : string) (xmin ymin : Z) : Uster.Entry.t :=
  {| Uster.Entry.displaytext := VStr name;
     Uster.Entry.searchtable := VStr "addresses";
     Uster.Entry.bbox :=
       Some [num_of_Z xmin; num_of_Z ymin; num_of_Z (xmin + 100); num_of_Z (ymin + 50)] |}.

Definition sample_uster_before : list Uster.Entry.t :=
  [sample_uster_entry "Stray" 0 0;
   sample_uster_header "Streets";
   sample_uster_entry "Seestrasse" 696000 244000].

Definition sample_uster_segment : list Uster.Entry.t :=
  [sample_uster_entry "Bahnhofstrasse 1" 696100 244100;
   sample_uster_entry "Bahnhofstrasse 2" 696200 244200].

Definition sample_uster_after : list Uster.Entry.t :=
  [sample_uster_header "Parcels"].

Definition sample_glarus_feature (n : nat) : Glarus.Feature.t :=
  {| Glarus.Feature.id := VNum (num_of_Z (Z.of_nat n));
     Glarus.Feature.name := VStr ("Parzelle " +:+ nat_to_string n);
     Glarus.Feature.bbox :=
       Some [num_of_Z 2720000; num_of_Z 1200000; num_of_Z 2720100; num_of_Z 1200040] |}.

Definition sample_glarus_group (category : string) (n : nat) : Glarus.Group.t :=
  {| Glarus.Group.category := VStr category;
     Glarus.Group.name := VStr category;
     Glarus.Group.features := Some (map sample_glarus_feature (seq 0 n)) |}.

(** Two groups, of twelve and three features. *)
Definition sample_glarus_answer : Glarus.Response.t :=
  {| Glarus.Response.results :=
       Some [sample_glarus_group "parcels" 12; sample_glarus_group "addresses" 3] |}.

Definition sample_nominatim_entry : Nominatim.Entry.t := {|
  Nominatim.Entry.class := "place";
  Nominatim.Entry.display_name := "Bern, Verwaltungskreis Bern-Mittelland, Bern, Schweiz";
  Nominatim.Entry.address :=
    Some {| Nominatim.Address.town := None; Nominatim.Address.city := Some "Bern";
            Nominatim.Address.state := Some "Bern";
            Nominatim.Address.country := Some "Schweiz" |};
  Nominatim.Entry.boundingbox := Some ["46.9"; "47.0"; "7.3"; "7.5"];
  Nominatim.Entry.place_id := VNum (num_of_Z 5)
|}.

(** A network on which the uster, glarus and nominatim services answer. *)
Definition sample_network : Network := {|
  geoadmin_search := fun _ => Fail RequestFailed;
  uster_search := fun _ =>
    Ok {| Uster.Response.results :=
            Some (sample_uster_before ++ sample_uster_header "Addresses"
                    :: sample_uster_segment ++ sample_uster_after) |};
  uster_geometry := fun _ => Ok (VStr "POINT(696050 244050)");
  wolfsburg_search := fun _ => Fail RequestFailed;
  wolfsburg_geometry := fun _ => Fail RequestFailed;
  glarus_search := fun _ => Ok sample_glarus_answer;
  glarus_more := fun _ _ => Ok sample_glarus_answer;
  glarus_geometry := fun _ => Fail RequestFailed;
  nominatim_search := fun _ => Ok (Some [sample_nominatim_entry]);
  parametrized_search := fun _ _ => Fail RequestFailed
|}.

Definition sample_table : list (string * Provider) :=
  SearchProviders sample_Number_toString sample_reprojectBbox sample_toUpperCase
    sample_THEMELAYER sample_toLowerCase.

(** ** Further vocabulary

    The notions in which the remaining properties of the file are stated. *)

(** ** Regular expressions, declaratively *)

(** [run r bos s c bos' s' c']: started on the input [s] with the captures
    [c], the pattern [r] can stop with the input [s'] left and the captures
    [c']. *)
Inductive run : regex -> bool -> list ascii -> captures
                -> bool -> list ascii -> captures -> Prop :=
| run_Eps b s c : run Eps b s c b s c
| run_Chr p a b s c : p a = true -> run (Chr p) b (a :: s) c false s c
| run_Seq r1 r2 b s c b1 s1 c1 b2 s2 c2 :
    run r1 b s c b1 s1 c1 -> run r2 b1 s1 c1 b2 s2 c2 ->
    run (Seq r1 r2) b s c b2 s2 c2
| run_Alt_l r1 r2 b s c b' s' c' :
    run r1 b s c b' s' c' -> run (Alt r1 r2) b s c b' s' c'
| run_Alt_r r1 r2 b s c b' s' c' :
    run r2 b s c b' s' c' -> run (Alt r1 r2) b s c b' s' c'
| run_Star_stop r b s c : run (Star r) b s c b s c
| run_Star_step r b s c b1 s1 c1 b2 s2 c2 :
    run r b s c b1 s1 c1 -> run (Star r) b1 s1 c1 b2 s2 c2 ->
    run (Star r) b s c b2 s2 c2
| run_Group i r b s c b' s' c' :
    run r b s c b' s' c' ->
    run (Group i r) b s c b' s' ((i, firstn (List.length s - List.length s') s) :: c')
| run_Bos s c : run Bos true s c true s c
| run_Eos b c : run Eos b [] c b [] c.

(** A text that starts like a decimal literal: a digit, after a sign if
    [signed]. *)
Definition decimal_text (w : list ascii) : Prop :=
  exists d rest, w = d :: rest /\ is_digit d = true.

Definition signed_decimal_text (w : list ascii) : Prop :=
  decimal_text w
  \/ exists sg w', w = sg :: w' /\ (is_char "+" sg || is_char "-" sg) = true
                   /\ decimal_text w'.

Definition not_NaN (n : number) : bool :=
  match n with NaN => false | _ => true end.

(** The point of [it] is given by two numbers, neither of them NaN; when
    [it] is in EPSG:4326 they are a longitude and a latitude. *)
Definition numeric_point (it : Item) : Prop :=
  exists x y,
    prop it "x" = VNum x /\ prop it "y" = VNum y
    /\ not_NaN x = true /\ not_NaN y = true
    /\ (prop it "crs" = VStr "EPSG:4326" ->
        between (-180) 180 x = true /\ between (-90) 90 y = true).

(** Not negative: a finite number from 0 on, or Infinity. *)
Definition nonnegative (n : number) : Prop :=
  n = PInf \/ exists q, n = Fin q /\ (0 <= q)%Q.

(** The characters that a pattern can read. *)
Fixpoint may_read (r : regex) (a : ascii) : bool :=
  match r with
  | Chr p => p a
  | Seq r1 r2 | Alt r1 r2 => may_read r1 a || may_read r2 a
  | Star r1 | Group _ r1 => may_read r1 a
  | Eps | Bos | Eos => false
  end.

(** The pattern reads no character, and the pattern can only stop at the
    end of the input. *)
Fixpoint reads_nothing (r : regex) : bool :=
  match r with
  | Eps | Bos | Eos => true
  | Seq r1 r2 => reads_nothing r1 && reads_nothing r2
  | Group _ r1 => reads_nothing r1
  | Chr _ | Alt _ _ | Star _ => false
  end.

Fixpoint ends_at_Eos (r : regex) : bool :=
  match r with
  | Eos => true
  | Seq r1 r2 => ends_at_Eos r2 || (ends_at_Eos r1 && reads_nothing r2)
  | Group _ r1 => ends_at_Eos r1
  | Eps | Bos | Chr _ | Alt _ _ | Star _ => false
  end.

(** A character that a text matching the pattern of [coordinatesSearch] may
    hold: a digit, a sign, a dot, a comma or white space. *)
Definition coordinate_char (a : ascii) : bool :=
  is_digit a || is_space a || is_char "+" a || is_char "-" a
  || is_char "." a || is_char "," a.

(** ** Counters in ids and names *)

(** The number [i] written with two digits at least, as the template of
    [createLayerSearchSublayers] writes it. *)
Definition two_digits (i : nat) : string :=
  if i <? 10 then "0" +:+ nat_to_string i else nat_to_string i.

(** The number that a decimal spelling denotes. *)
Definition decimal_value (s : string) : nat :=
  match NilEmpty.uint_of_string s with
  | Some d => Nat.of_uint d
  | None => 0
  end.

(** ** Numbered ids *)

(** The ids of the items of a list of groups, read group after group. *)
Definition item_ids (groups : list ResultGroup) : list value :=
  map (fun it => prop it "id") (flat_map items groups).

(** The ids [prefix0], [prefix1], ..., [prefix(n-1)]. *)
Definition counted (prefix : string) (n : nat) : list value :=
  map (fun k => VStr (prefix +:+ nat_to_string k)) (seq 0 n).

(** The groups are numbered in order under [group_prefix], their items in
    order under [item_prefix], and no id occurs twice. *)
Definition uniquely_numbered (group_prefix item_prefix : string)
    (groups : list ResultGroup) : Prop :=
  map id groups = counted group_prefix (List.length groups)
  /\ item_ids groups = counted item_prefix (List.length (flat_map items groups))
  /\ NoDup (map id groups)
  /\ NoDup (item_ids groups).

(** ** Keys in order of first occurrence *)

(** The distinct strings of a list, in the order of their first occurrence. *)
Definition first_occurrences (l : list string) : list string :=
  fold_left (fun seen k => if existsb (String.eqb k) seen then seen else seen ++ [k])
    l [].

(** The dictionary that maps each key of [keys] to [f key], the keys created
    in the order of the list. *)
Definition tabulate {A} (f : string -> A) (keys : list string) : dict A :=
  map (fun k => (k, f k)) keys.

(** The key is a member of [Object.prototype]. *)
Definition inherited_key (k : string) : bool :=
  existsb (String.eqb k) Object_prototype_keys.

(** ** Groups of the geoadmin answer *)

Module GeoAdminSpec.
Import GeoAdmin.

Definition origin_of (entry : Entry.t) : string := Attrs.origin (Entry.attrs entry).

(** The entry can be normalized: its origin is not the name of a member of
    [Object.prototype], and its [geom_st_box2d], when there is one, matches
    the BOX pattern. *)
Definition readable (entry : Entry.t) : bool :=
  negb (inherited_key (origin_of entry))
  && match Attrs.geom_st_box2d (Entry.attrs entry) with
     | None => true
     | Some s =>
         match String_match s box_re with Some _ => true | None => false end
     end.

Section WithBuiltins.

Variable reprojectBbox : list number -> string -> string -> list number.

(** The box that [parseItemBBox] returns for the entry, [None] when it
    returns [null]. *)
Definition box_of (entry : Entry.t) : option (list number) :=
  match parseItemBBox reprojectBbox (Attrs.geom_st_box2d (Entry.attrs entry)) with
  | Ok box => box
  | Fail _ => None
  end.

(** The group of an origin: its title is looked up in [categoryMap], its
    items are those of the entries of that origin, in the order of the
    answer. *)
Definition group_of (origin : string) (entries : list Entry.t) : ResultGroup := {|
  id := VStr origin;
  title := VStr (category_title origin);
  titlemsgid := VUndefined;
  items := map (fun entry => item entry (box_of entry))
             (filter (fun entry => String.eqb (origin_of entry) origin) entries)
|}.

(** One group for each origin, created in the order in which the origins
    first occur. *)
Definition grouped (entries : list Entry.t) : dict ResultGroup :=
  tabulate (fun origin => group_of origin entries)
    (first_occurrences (map origin_of entries)).

End WithBuiltins.

End GeoAdminSpec.

(** A geoadmin answer whose entries are all readable. *)
Definition sample_geoadmin_readable : GeoAdmin.Response.t :=
  {| GeoAdmin.Response.results :=
       Some [sample_geoadmin_entry 1 "Uster" (Some "BOX(693000 242000,699000 248000)");
             sample_geoadmin_entry 3 "Egg" None] |}.

(** The keys of a list, each with its position. *)
Definition positions (keys : list string) : dict nat :=
  mapi_from (fun k i => (k, i)) 0 keys.

(** ** Groups of the nominatim answer *)

Module NominatimSpec.
Import Nominatim.

(** The entry can be normalized: its class is not the name of a member of
    [Object.prototype], and it has an address and a bounding box. *)
Definition readable (entry : Entry.t) : bool :=
  negb (inherited_key (Entry.class entry))
  && match Entry.address entry with Some _ => true | None => false end
  && match Entry.boundingbox entry with Some _ => true | None => false end.

(** The first three parts of the display name. *)
Definition label_of (entry : Entry.t) : string :=
  join (firstn 3 (split (Entry.display_name entry))).

(** The fields of the address that are there, in the order town, city,
    state, country. *)
Definition address_line (a : Address.t) : list string :=
  push_if (Address.country a)
    (push_if (Address.state a) (push_if (Address.city a) (push_if (Address.town a) []))).

(** The label, followed by the address line when that is not empty. *)
Definition text_of (entry : Entry.t) : string :=
  match Entry.address entry with
  | Some a =>
      match address_line a with
      | [] => label_of entry
      | _ :: _ => label_of entry +:+ "<br/><i>" +:+ join (address_line a) +:+ "</i>"
      end
  | None => label_of entry
  end.

(** The bounding box [miny, maxy, minx, maxx] of the answer, reordered to
    [minx, miny, maxx, maxy]. *)
Definition bbox_of (entry : Entry.t) : list (option number) :=
  match Entry.boundingbox entry with
  | Some boundingbox =>
      let b := map parseFloat boundingbox in
      [index b 2; index b 0; index b 3; index b 1]
  | None => []
  end.

Definition item_of (entry : Entry.t) : Item :=
  item entry (text_of entry) (label_of entry) (bbox_of entry).

(** What an item says of the entry it is made from. *)
Definition shortens (entry : Entry.t) (it : Item) : Prop :=
  prop it "id" = Entry.place_id entry
  /\ prop it "label" = VStr (label_of entry)
  /\ String.prefix (label_of entry) (Entry.display_name entry) = true
  /\ (List.length (split (Entry.display_name entry)) <= 3 ->
      label_of entry = Entry.display_name entry)
  /\ exists rest, prop it "text" = VStr (label_of entry +:+ rest).

Section WithBuiltins.

Variable toUpperCase : string -> string.

(** The group of a class, the [i]-th class to occur: its items are those of
    the entries of that class, in the order of the answer. *)
Definition group_of (i : nat) (class : string) (entries : list Entry.t)
  : ResultGroup := {|
  id := VStr ("nominatimgroup" +:+ nat_to_string i);
  title := VStr (toUpperCase (charAt0 class) +:+ slice1 class);
  titlemsgid := VUndefined;
  items := map item_of
             (filter (fun entry => String.eqb (Entry.class entry) class) entries)
|}.

(** One group for each class, in the order in which the classes first
    occur. *)
Definition grouped (entries : list Entry.t) : list ResultGroup :=
  map (fun ki => group_of (snd ki) (fst ki) entries)
    (positions (first_occurrences (map Entry.class entries))).

(** The local variables of the loop once the entries [done] are through. *)
Definition state_after (done : list Entry.t) : State :=
  let keys := first_occurrences (map Entry.class done) in
  {| results := grouped done;
     groups := positions keys;
     groupcounter := List.length keys |}.

End WithBuiltins.

End NominatimSpec.

(** ** Entries of the layers provider *)

(** The sublayers of an array none of whose elements is undefined. *)
Fixpoint defined_elements {A} (l : list (option A)) : option (list A) :=
  match l with
  | [] => Some []
  | Some a :: l' => option_map (cons a) (defined_elements l')
  | None :: _ => None
  end.

(** A layer definition as the tables of [layerSearch] hold them: the title
    is the name, and the box is given in EPSG:4326 by four finite bounds with
    [xmin <= xmax] and [ymin <= ymax]. *)
Definition well_formed_sublayer (s : Layers.Sublayer.t) : bool :=
  String.eqb (Layers.Sublayer.title s) (Layers.Sublayer.name s)
  && String.eqb (Layers.BBox.crs (Layers.Sublayer.bbox s)) "EPSG:4326"
  && match Layers.BBox.bounds (Layers.Sublayer.bbox s) with
     | [xmin; ymin; xmax; ymax] =>
         is_finite xmin && is_finite ymin && is_finite xmax && is_finite ymax
         && num_le xmin xmax && num_le ymin ymax
     | _ => false
     end.

(** [w] spells [p], upper and lower case letters taken as the same. *)
Fixpoint spells (p w : list ascii) : bool :=
  match p, w with
  | [], [] => true
  | c :: p', a :: w' => is_letter_i c a && spells p' w'
  | _, _ => false
  end.

(** The character before the last one. *)
Definition penultimate (k : string) : option ascii :=
  nth_error (rev (list_ascii_of_string k)) 1.

Section LayerEntries.

Variable THEMELAYER : value.
Variable toLowerCase : string -> string.

(** The item that [createLayerSearchResult] builds for a sublayer. *)
Definition layer_entry (sublayer : Layers.Sublayer.t) : Item := [
  ("type", THEMELAYER);
  ("id", VStr (toLowerCase (Layers.Sublayer.name sublayer)));
  ("text", VStr (Layers.Sublayer.name sublayer));
  ("layer", VObj [("sublayers", VArr [Layers.Sublayer_value sublayer])])
].

(** The data delivered for a list of sublayers: the one group "layers" when
    there is a sublayer, nothing otherwise. *)
Definition layers_group (ls : list Layers.Sublayer.t) : list ResultGroup :=
  match ls with
  | [] => []
  | _ :: _ =>
      [{| id := VStr "layers"; title := VStr "Layers"; titlemsgid := VUndefined;
          items := map layer_entry ls |}]
  end.

End LayerEntries.

(** ** Items by provider *)

(** The second argument of [addSearchResults]. *)
Definition append_of (a : Action) : value :=
  match a with addSearchResults _ append => append end.

(** The action carries the provider id [pid] and the flag [append]. *)
Definition stamped (pid append : value) (a : Action) : Prop :=
  provider (results_of a) = pid /\ append_of a = append.

(** An item of the coordinates provider. *)
Definition coordinates_item (id_ text_ : string) (x y : number) (crs : string)
  : Item := [
  ("id", VStr id_);
  ("text", VStr text_);
  ("x", VNum x);
  ("y", VNum y);
  ("crs", VStr crs);
  ("bbox", VArr [VNum x; VNum y; VNum x; VNum y])
].

Section BuiltBy.

Variable THEMELAYER : value.
Variable toLowerCase : string -> string.

(** [it] is an item as the provider registered under [key] builds them. *)
Definition built_by (key : string) (it : Item) : Prop :=
  if String.eqb key "coordinates" then
    exists id_ text_ x y crs, it = coordinates_item id_ text_ x y crs
  else if String.eqb key "geoadmin" then
    exists entry box, it = GeoAdmin.item entry box
  else if String.eqb key "uster" then
    exists counter entry bbox, it = Uster.item counter entry bbox
  else if String.eqb key "wolfsburg" then
    exists counter entry bbox, it = Wolfsburg.item counter entry bbox
  else if String.eqb key "glarus" then
    (exists group feature, Glarus.feature_item group feature = Ok it)
    \/ (exists idcounter group, it = Glarus.more_item idcounter group)
  else if String.eqb key "nominatim" then
    exists entry text_ label_ bbox, it = Nominatim.item entry text_ label_ bbox
  else if String.eqb key "layers" then
    exists sublayer, Layers.layer_item THEMELAYER toLowerCase sublayer = Ok it
  else False.

End BuiltBy.

(** The coordinate reference system in which a provider with a geometry
    resolver gives its places. *)
Definition crs_of (key : string) : string :=
  if String.eqb key "uster" then "EPSG:21781"
  else if String.eqb key "wolfsburg" then "EPSG:25832"
  else if String.eqb key "glarus" then "EPSG:2056"
  else "".

(** ** Groups of the glarus answer *)

Module GlarusGroups.
Import Glarus GlarusSpec.

(** The group can be normalized: it has its features, and every feature
    has a bbox. *)
Definition readable (g : Group.t) : bool :=
  match Group.features g with
  | Some fs =>
      forallb (fun f => match Feature.bbox f with Some _ => true | None => false end) fs
  | None => false
  end.

(** The item of a feature that has a bbox. *)
Definition feature_entry (g : Group.t) (f : Feature.t) : Item :=
  match feature_item g f with Ok it => it | Fail _ => [] end.

(** The group delivered for [g] when [k] "more" entries have been made
    before it. *)
Definition group_at (limit : Z) (k : nat) (g : Group.t) : ResultGroup := {|
  id := Group.category g;
  title := Group.name g;
  titlemsgid := VUndefined;
  items :=
    map (feature_entry g) (match Group.features g with Some fs => fs | None => [] end)
    ++ (if truncated limit g then [more_item k g] else [])
|}.

Fixpoint groups_from (limit : Z) (k : nat) (groups : list Group.t)
  : list ResultGroup :=
  match groups with
  | [] => []
  | g :: rest =>
      group_at limit k g
      :: groups_from limit (if truncated limit g then S k else k) rest
  end.

(** The item is a "more" entry. *)
Definition is_more (it : Item) : bool :=
  match prop it "more" with VBool true => true | _ => false end.

(** The ids of the "more" entries of a list of groups, in order. *)
Definition more_ids (groups : list ResultGroup) : list value :=
  map (fun it => prop it "id") (filter is_more (flat_map items groups)).

End GlarusGroups.

(** ** Texts that the patterns accept *)

(** The text is empty or starts with a character outside the class [p]. *)
Definition starts_outside (p : ascii -> bool) (s : list ascii) : Prop :=
  match s with
  | [] => True
  | a :: _ => p a = false
  end.

(** The decimal spelling of a natural number, as a list of characters. *)
Definition numeral (n : nat) : list ascii := list_ascii_of_string (nat_to_string n).

(** The double nearest to the natural number [n]; it is [n] itself up to
    [2^53]. *)
Definition double_of_nat (n : nat) : number := round64 (inject_Z (Z.of_nat n)).

(** The text of two naturals with [sep] between them, and the text of a box
    as the geoadmin service spells it, for natural corners. *)
Definition pair_text (a : nat) (sep : ascii) (b : nat) : string :=
  nat_to_string a +:+ String sep (nat_to_string b).

Definition box_text (a b c d : nat) : string :=
  "BOX(" +:+ nat_to_string a +:+ " " +:+ nat_to_string b +:+ ","
  +:+ nat_to_string c +:+ " " +:+ nat_to_string d +:+ ")".

(** * Properties *)

(** ** Promise chains *)

Lemma trace_dispatch (a : Action) : trace (dispatch a) = [a].
Proof. reflexivity. Qed.

Lemma trace_dispatch_outcome (o : outcome Action) :
  trace (dispatch_outcome o) = match o with Ok a => [a] | Fail _ => [] end.
Proof. destruct o; reflexivity. Qed.

(** A request followed by one handler that dispatches what [f] builds. *)
Lemma trace_then {D} (response : outcome D) (f : D -> outcome Action) :
  trace (then_ (axios_get response) (fun d => dispatch_outcome (f d)))
  = match response with
    | Ok d => match f d with Ok a => [a] | Fail _ => [] end
    | Fail _ => []
    end.
Proof.
  destruct response as [d|e]; [|reflexivity].
  unfold trace, then_, axios_get, lift; cbn.
  change (snd (dispatch_outcome (f d) [])) with (trace (dispatch_outcome (f d))).
  apply trace_dispatch_outcome.
Qed.

(** The same chain closed by a [catch] handler that dispatches [g]. *)
Lemma trace_then_catch {D} (response : outcome D) (f : D -> outcome Action)
    (g : outcome Action) :
  trace (catch_ (then_ (axios_get response) (fun d => dispatch_outcome (f d)))
                (fun _ => dispatch_outcome g))
  = match response with
    | Ok d =>
        match f d with
        | Ok a => [a]
        | Fail _ => match g with Ok a => [a] | Fail _ => [] end
        end
    | Fail _ => match g with Ok a => [a] | Fail _ => [] end
    end.
Proof.
  destruct response as [d|e]; unfold trace, catch_, then_, axios_get, lift; cbn.
  - destruct (f d) as [a|e]; cbn; [reflexivity|].
    destruct g; reflexivity.
  - destruct g; reflexivity.
Qed.

(** How the chain settles when nothing catches a failure. *)
Lemma settled_then {D} (response : outcome D) (f : D -> outcome Action) :
  settled (then_ (axios_get response) (fun d => dispatch_outcome (f d)))
  = match response with
    | Ok d => match f d with Ok _ => Ok tt | Fail e => Fail e end
    | Fail e => Fail e
    end.
Proof.
  destruct response as [d|e]; [|reflexivity].
  unfold settled, then_, axios_get, lift, dispatch_outcome; cbn.
  destruct (f d); reflexivity.
Qed.

(** ** What each provider function delivers

    For every provider function, the list of the actions it dispatches,
    given how the request settles. *)

Section Deliveries.

Variable Number_toString : number -> string.
Variable reprojectBbox : list number -> string -> string -> list number.
Variable toUpperCase : string -> string.
Variable THEMELAYER : value.
Variable toLowerCase : string -> string.

Lemma coordinatesSearch_trace text requestId searchOptions :
  exists groups,
    trace (Coordinates.coordinatesSearch Number_toString text requestId searchOptions)
    = [addSearchResults
         {| data := groups; provider := VStr "coordinates"; reqId := requestId |}
         (VBool true)].
Proof. eexists. reflexivity. Qed.

Lemma geoAdminLocationSearchResults_tagged obj requestId a :
  GeoAdmin.geoAdminLocationSearchResults reprojectBbox obj requestId = Ok a ->
  tagged (VStr "geoadmin") requestId a.
Proof.
  unfold GeoAdmin.geoAdminLocationSearchResults.
  destruct (GeoAdmin.loop _ _ _); cbn; intros H; inversion H; subst.
  split; reflexivity.
Qed.

Lemma usterSearchResults_tagged obj requestId :
  tagged (VStr "uster") requestId (Uster.usterSearchResults obj requestId).
Proof. split; reflexivity. Qed.

Lemma wolfsburgSearchResults_tagged obj requestId :
  tagged (VStr "wolfsburg") requestId (Wolfsburg.wolfsburgSearchResults obj requestId).
Proof. split; reflexivity. Qed.

Lemma glarusSearchResults_tagged obj requestId limit a :
  Glarus.glarusSearchResults obj requestId limit = Ok a ->
  tagged (VStr "glarus") requestId a.
Proof.
  unfold Glarus.glarusSearchResults.
  destruct (Glarus.loop _ _ _); cbn; intros H; inversion H; subst.
  split; reflexivity.
Qed.

Lemma nominatimSearchResults_tagged obj requestId a :
  Nominatim.nominatimSearchResults toUpperCase obj requestId = Ok a ->
  tagged (VStr "nominatim") requestId a.
Proof.
  unfold Nominatim.nominatimSearchResults.
  destruct (Nominatim.loop _ _ _); cbn; intros H; inversion H; subst.
  split; reflexivity.
Qed.

(** The answer [{}] that the [catch] handlers of the glarus provider
    normalize yields no group. *)
Lemma glarusSearchResults_empty requestId limit :
  Glarus.glarusSearchResults Glarus.empty_response requestId limit
  = Ok (addSearchResults
          {| data := []; provider := VStr "glarus"; reqId := requestId |}
          (VBool true)).
Proof. reflexivity. Qed.

Lemma geoAdminLocationSearch_trace text requestId searchOptions response :
  trace (GeoAdmin.geoAdminLocationSearch reprojectBbox text requestId searchOptions response)
  = match response with
    | Ok d =>
        match GeoAdmin.geoAdminLocationSearchResults reprojectBbox d requestId with
        | Ok a => [a]
        | Fail _ => []
        end
    | Fail _ => []
    end.
Proof. apply trace_then. Qed.

Lemma usterSearch_trace text requestId searchOptions response :
  trace (Uster.usterSearch text requestId searchOptions response)
  = match response with
    | Ok d => [Uster.usterSearchResults d requestId]
    | Fail _ => []
    end.
Proof. destruct response; reflexivity. Qed.

Lemma wolfsburgSearch_trace text requestId searchOptions response :
  trace (Wolfsburg.wolfsburgSearch text requestId searchOptions response)
  = match response with
    | Ok d => [Wolfsburg.wolfsburgSearchResults d requestId]
    | Fail _ => []
    end.
Proof. destruct response; reflexivity. Qed.

Lemma glarusSearch_trace text requestId searchOptions response :
  trace (Glarus.glarusSearch text requestId searchOptions response)
  = match response with
    | Ok d =>
        match Glarus.glarusSearchResults d requestId (Some 9%Z) with
        | Ok a => [a]
        | Fail _ =>
            [addSearchResults
               {| data := []; provider := VStr "glarus"; reqId := requestId |}
               (VBool true)]
        end
    | Fail _ =>
        [addSearchResults
           {| data := []; provider := VStr "glarus"; reqId := requestId |}
           (VBool true)]
    end.
Proof.
  unfold Glarus.glarusSearch. rewrite trace_then_catch.
  rewrite glarusSearchResults_empty. reflexivity.
Qed.

Lemma glarusMoreResults_trace moreItem text requestId response :
  trace (Glarus.glarusMoreResults moreItem text requestId response)
  = match response with
    | Ok d =>
        match Glarus.glarusSearchResults d requestId None with
        | Ok a => [a]
        | Fail _ =>
            [addSearchResults
               {| data := []; provider := VStr "glarus"; reqId := requestId |}
               (VBool true)]
        end
    | Fail _ =>
        [addSearchResults
           {| data := []; provider := VStr "glarus"; reqId := requestId |}
           (VBool true)]
    end.
Proof.
  unfold Glarus.glarusMoreResults. rewrite trace_then_catch.
  rewrite glarusSearchResults_empty. reflexivity.
Qed.

Lemma nominatimSearch_trace text requestId searchOptions response :
  trace (Nominatim.nominatimSearch toUpperCase text requestId searchOptions response)
  = match response with
    | Ok d =>
        match Nominatim.nominatimSearchResults toUpperCase d requestId with
        | Ok a => [a]
        | Fail _ => []
        end
    | Fail _ => []
    end.
Proof. apply trace_then. Qed.

Lemma parametrizedSearch_trace cfg text requestId searchOptions response :
  trace (Parametrized.parametrizedSearch cfg text requestId searchOptions response)
  = [addSearchResults
       {| data := match response with Ok d => d | Fail _ => [] end;
          provider := Parametrized.key cfg; reqId := requestId |}
       VUndefined].
Proof. destruct response; reflexivity. Qed.

Lemma layerSearch_trace text requestId searchOptions :
  trace (Layers.layerSearch THEMELAYER toLowerCase text requestId searchOptions)
  = match Layers.layerSearchResults THEMELAYER toLowerCase text with
    | Ok groups =>
        [addSearchResults
           {| data := groups; provider := VStr "layers"; reqId := requestId |}
           (VBool true)]
    | Fail _ => []
    end.
Proof.
  unfold Layers.layerSearch, trace, then_, lift.
  destruct (Layers.layerSearchResults THEMELAYER toLowerCase text); reflexivity.
Qed.

End Deliveries.

(** ** The request identifier *)

Lemma provider_named_In table key p :
  provider_named table key = Some p -> In (key, p) table.
Proof.
  unfold provider_named. induction table as [|[k q] t IH]; cbn; [discriminate|].
  destruct (String.eqb k key) eqn:E.
  - apply String.eqb_eq in E. intros H; inversion H; subst. now left.
  - intros H. right. auto.
Qed.

Section RequestId.

Variable Number_toString : number -> string.
Variable reprojectBbox : list number -> string -> string -> list number.
Variable toUpperCase : string -> string.
Variable THEMELAYER : value.
Variable toLowerCase : string -> string.

Let table : list (string * Provider) :=
  SearchProviders Number_toString reprojectBbox toUpperCase THEMELAYER toLowerCase.

Lemma all_carry_nil requestId : all_carry requestId [].
Proof. intros a []. Qed.

Lemma all_carry_one requestId a :
  reqId (results_of a) = requestId -> all_carry requestId [a].
Proof. intros H b [<-|[]]. exact H. Qed.

#[local] Hint Resolve all_carry_nil all_carry_one : core.

Lemma onSearch_carries key p text requestId searchOptions net :
  In (key, p) table ->
  all_carry requestId (trace (onSearch p text requestId searchOptions net)).
Proof.
  unfold table, SearchProviders. cbn [In].
  intros H.
  repeat (destruct H as [H|H]; [inversion H; subst; clear H; cbn [onSearch]|]);
    [ | | | | | | | destruct H].
  - destruct (coordinatesSearch_trace Number_toString text requestId searchOptions)
      as [groups ->]. auto.
  - rewrite geoAdminLocationSearch_trace.
    destruct (geoadmin_search net text) as [d|e]; auto.
    destruct (GeoAdmin.geoAdminLocationSearchResults _ _ _) as [a|e] eqn:E; auto.
    apply all_carry_one. eapply geoAdminLocationSearchResults_tagged; eauto.
  - rewrite usterSearch_trace. destruct (uster_search net text); auto.
  - rewrite wolfsburgSearch_trace. destruct (wolfsburg_search net text); auto.
  - rewrite glarusSearch_trace. destruct (glarus_search net text) as [d|e]; auto.
    destruct (Glarus.glarusSearchResults _ _ _) as [a|e] eqn:E; auto.
    apply all_carry_one. eapply glarusSearchResults_tagged; eauto.
  - rewrite nominatimSearch_trace.
    destruct (nominatim_search net text) as [d|e]; auto.
    destruct (Nominatim.nominatimSearchResults _ _ _) as [a|e] eqn:E; auto.
    apply all_carry_one. eapply nominatimSearchResults_tagged; eauto.
  - rewrite layerSearch_trace.
    destruct (Layers.layerSearchResults _ _ _); auto.
Qed.

Lemma getMoreResults_carries key p more moreItem text requestId net :
  In (key, p) table ->
  getMoreResults p = Some more ->
  all_carry requestId (trace (more moreItem text requestId net)).
Proof.
  unfold table, SearchProviders. cbn [In].
  intros H.
  repeat (destruct H as [H|H];
          [inversion H; subst; clear H; cbn [getMoreResults]; try discriminate|]);
    [ | destruct H].
  intros M; inversion M; subst; clear M.
  rewrite glarusMoreResults_trace. destruct (glarus_more net moreItem text) as [d|e]; auto.
  destruct (Glarus.glarusSearchResults _ _ _) as [a|e] eqn:E; auto.
  apply all_carry_one. eapply glarusSearchResults_tagged; eauto.
Qed.

Lemma factory_carries cfg text requestId searchOptions net :
  all_carry requestId
    (trace (onSearch (searchProviderFactory cfg) text requestId searchOptions net)).
Proof.
  cbn [onSearch searchProviderFactory]. rewrite parametrizedSearch_trace.
  auto.
Qed.

(** C9.  Every provider of the table [SearchProviders] and every provider
    made by [searchProviderFactory] passes the request identifier through
    unchanged: each action dispatched by its [onSearch], and by its
    [getMoreResults] when it has one, carries [reqId] equal to the
    [requestId] the function was called with, however the request settles. *)
Theorem request_id_passed_through (p : Provider) (text : string)
    (requestId : value) (searchOptions : SearchOptions) (net : Network) :
  (exists key, provider_named table key = Some p)
  \/ (exists cfg, p = searchProviderFactory cfg) ->
  all_carry requestId (trace (onSearch p text requestId searchOptions net))
  /\ (forall more moreItem,
        getMoreResults p = Some more ->
        all_carry requestId (trace (more moreItem text requestId net))).
Proof.
  intros [[key Hkey]|[cfg ->]].
  - apply provider_named_In in Hkey. split.
    + eapply onSearch_carries; eauto.
    + intros more moreItem Hmore. eapply getMoreResults_carries; eauto.
  - split.
    + apply factory_carries.
    + cbn [getMoreResults searchProviderFactory]. discriminate.
Qed.

End RequestId.

Lemma request_id_passed_through_witness :
  exists p,
    provider_named sample_table "glarus" = Some p
    /\ all_carry (VNum (num_of_Z 7))
         (trace (onSearch p "bahn" (VNum (num_of_Z 7)) sample_options sample_network))
    /\ (forall more moreItem,
          getMoreResults p = Some more ->
          all_carry (VNum (num_of_Z 7))
            (trace (more moreItem "bahn" (VNum (num_of_Z 7)) sample_network))).
Proof.
  eexists. split; [reflexivity|].
  apply (request_id_passed_through sample_Number_toString sample_reprojectBbox
           sample_toUpperCase sample_THEMELAYER sample_toLowerCase).
  left. exists "glarus". reflexivity.
Defined.

(** ** Failures of the request *)

Section Failures.

Variable Number_toString : number -> string.
Variable reprojectBbox : list number -> string -> string -> list number.
Variable toUpperCase : string -> string.
Variable THEMELAYER : value.
Variable toLowerCase : string -> string.

Let table : list (string * Provider) :=
  SearchProviders Number_toString reprojectBbox toUpperCase THEMELAYER toLowerCase.

(** The providers that end their chain with [catch] deliver an empty list
    when the request fails, and the glarus ones also when normalization
    throws. *)
Lemma failure_caught_where_handled text requestId searchOptions moreItem cfg e :
  trace (Glarus.glarusSearch text requestId searchOptions (Fail e))
  = [empty_delivery (VStr "glarus") requestId (VBool true)]
  /\ trace (Glarus.glarusMoreResults moreItem text requestId (Fail e))
     = [empty_delivery (VStr "glarus") requestId (VBool true)]
  /\ trace (Parametrized.parametrizedSearch cfg text requestId searchOptions (Fail e))
     = [empty_delivery (Parametrized.key cfg) requestId VUndefined].
Proof. repeat split. Qed.

Lemma glarus_parse_failure_caught text requestId searchOptions d e :
  Glarus.glarusSearchResults d requestId (Some 9%Z) = Fail e ->
  trace (Glarus.glarusSearch text requestId searchOptions (Ok d))
  = [empty_delivery (VStr "glarus") requestId (VBool true)].
Proof. intros H. rewrite glarusSearch_trace, H. reflexivity. Qed.

(** C1, at the inputs where the code departs from it.  The search functions
    of the geoadmin, uster, wolfsburg and nominatim providers have no [catch]
    handler: when the request fails, they dispatch nothing at all (no empty
    result is delivered) and their promise stays rejected. *)
Theorem request_failure_not_caught (text : string) (requestId : value)
    (searchOptions : SearchOptions) (e : error) :
  (trace (GeoAdmin.geoAdminLocationSearch reprojectBbox text requestId searchOptions (Fail e)) = []
   /\ settled (GeoAdmin.geoAdminLocationSearch reprojectBbox text requestId searchOptions (Fail e))
      = Fail e)
  /\ (trace (Uster.usterSearch text requestId searchOptions (Fail e)) = []
      /\ settled (Uster.usterSearch text requestId searchOptions (Fail e)) = Fail e)
  /\ (trace (Wolfsburg.wolfsburgSearch text requestId searchOptions (Fail e)) = []
      /\ settled (Wolfsburg.wolfsburgSearch text requestId searchOptions (Fail e)) = Fail e)
  /\ (trace (Nominatim.nominatimSearch toUpperCase text requestId searchOptions (Fail e)) = []
      /\ settled (Nominatim.nominatimSearch toUpperCase text requestId searchOptions (Fail e))
         = Fail e).
Proof. repeat split. Qed.

(** The same holds when the request succeeds and normalization throws. *)
Lemma parse_failure_not_caught text requestId searchOptions :
  (forall d e,
     GeoAdmin.geoAdminLocationSearchResults reprojectBbox d requestId = Fail e ->
     trace (GeoAdmin.geoAdminLocationSearch reprojectBbox text requestId searchOptions (Ok d))
     = [])
  /\ (forall d e,
        Nominatim.nominatimSearchResults toUpperCase d requestId = Fail e ->
        trace (Nominatim.nominatimSearch toUpperCase text requestId searchOptions (Ok d))
        = []).
Proof.
  split; intros d e H.
  - rewrite geoAdminLocationSearch_trace, H. reflexivity.
  - rewrite nominatimSearch_trace, H. reflexivity.
Qed.

(** On a network where every request fails, the providers without a
    [catch] handler deliver nothing. *)
Lemma offline_deliveries key p text requestId searchOptions :
  provider_named table key = Some p ->
  In key ["geoadmin"; "uster"; "wolfsburg"; "nominatim"] ->
  trace (onSearch p text requestId searchOptions offline) = [].
Proof.
  intros H K. cbn [In] in K.
  repeat (destruct K as [<-|K]; [injection H as <-; reflexivity|]).
  destruct K.
Qed.

End Failures.

(** ** Geometry resolution *)

(** C8 fails as stated: when the request for the geometry fails,
    [usterResultGeometry] does not invoke its callback. *)
Lemma geometry_callback_not_invoked_on_failure :
  ~ invoked_exactly_once sample_uster_item (VStr "EPSG:21781")
      (trace (Uster.usterResultGeometry sample_uster_item (Fail RequestFailed))).
Proof. intros [geometry H]. discriminate H. Qed.

(** C8, amended.  For every selected item, each geometry resolver invokes
    its callback exactly once with (item, data of the answer, crs of the
    provider) when the request succeeds; when the request fails it does not
    invoke the callback, and the rejection stays in a promise that the
    resolver does not hand to its caller. *)
Theorem geometry_resolvers_call_back_on_success_only :
  resolves_on_success_only Uster.usterResultGeometry "EPSG:21781"
  /\ resolves_on_success_only Wolfsburg.wolfsburgResultGeometry "EPSG:25832"
  /\ resolves_on_success_only Glarus.glarusResultGeometry "EPSG:2056".
Proof.
  repeat split; intros resultItem [geometry|e]; split; reflexivity.
Qed.

(** ** Malformed boxes in a geoadmin answer *)

Section MalformedBox.

Variable reprojectBbox : list number -> string -> string -> list number.

(** A text that does not match the pattern makes [parseItemBBox] throw:
    the guard [matches && matches.length < 5] is falsy for [null], and the
    next statement reads [matches[1]]. *)
Lemma parseItemBBox_throws_without_match s :
  String_match s GeoAdmin.box_re = None ->
  GeoAdmin.parseItemBBox reprojectBbox (Some s) = Fail TypeError.
Proof. intros H. unfold GeoAdmin.parseItemBBox. rewrite H. reflexivity. Qed.

(** [parseItemBBox] returns [null] for an undefined argument only. *)
Lemma parseItemBBox_null bboxstr :
  GeoAdmin.parseItemBBox reprojectBbox bboxstr = Ok None <-> bboxstr = None.
Proof.
  split; [|intros ->; reflexivity].
  destruct bboxstr as [s|]; [|reflexivity].
  unfold GeoAdmin.parseItemBBox.
  destruct (String_match s GeoAdmin.box_re) as [m|] eqn:E; [|discriminate].
  unfold String_match in E.
  destruct (search GeoAdmin.box_re true (list_ascii_of_string s)); [|discriminate].
  inversion E; subst. cbn. discriminate.
Qed.

Lemma parseItemBBox_fails_with_TypeError bboxstr e :
  GeoAdmin.parseItemBBox reprojectBbox bboxstr = Fail e -> e = TypeError.
Proof.
  unfold GeoAdmin.parseItemBBox. destruct bboxstr as [s|]; [|discriminate].
  destruct (String_match s GeoAdmin.box_re) as [m|].
  - destruct (List.length m <? 5); discriminate.
  - intros H; inversion H; reflexivity.
Qed.

Lemma step_fails_with_TypeError resultGroups entry e :
  GeoAdmin.step reprojectBbox resultGroups entry = Fail e -> e = TypeError.
Proof.
  unfold GeoAdmin.step.
  match goal with |- context [match dict_get ?d ?k with Own _ => _ | _ => _ end] =>
    destruct (dict_get d k) end; try (intros H; inversion H; reflexivity).
  destruct (GeoAdmin.parseItemBBox _ _) eqn:E; cbn; [discriminate|].
  intros H; inversion H; subst. eapply parseItemBBox_fails_with_TypeError; eauto.
Qed.

Lemma step_throws_on_malformed_box resultGroups entry s :
  GeoAdmin.Attrs.geom_st_box2d (GeoAdmin.Entry.attrs entry) = Some s ->
  String_match s GeoAdmin.box_re = None ->
  GeoAdmin.step reprojectBbox resultGroups entry = Fail TypeError.
Proof.
  intros Hs Hm. unfold GeoAdmin.step.
  match goal with |- context [match dict_get ?d ?k with Own _ => _ | _ => _ end] =>
    destruct (dict_get d k) end; try reflexivity.
  rewrite Hs, (parseItemBBox_throws_without_match _ Hm). reflexivity.
Qed.

Lemma loop_throws_on_malformed_box entries : forall resultGroups entry s,
  In entry entries ->
  GeoAdmin.Attrs.geom_st_box2d (GeoAdmin.Entry.attrs entry) = Some s ->
  String_match s GeoAdmin.box_re = None ->
  GeoAdmin.loop reprojectBbox resultGroups entries = Fail TypeError.
Proof.
  induction entries as [|e0 rest IH]; intros resultGroups entry s Hin Hs Hm.
  - destruct Hin.
  - cbn [GeoAdmin.loop].
    destruct (GeoAdmin.step reprojectBbox resultGroups e0) as [rg|err] eqn:E.
    + destruct Hin as [->|Hin].
      * rewrite (step_throws_on_malformed_box _ _ _ Hs Hm) in E. discriminate.
      * cbn. eapply IH; eauto.
    + cbn. f_equal. eapply step_fails_with_TypeError; eauto.
Qed.

(** C2, at the inputs where the code departs from it.  As soon as one entry
    of a geoadmin answer has a [geom_st_box2d] that does not match the BOX
    pattern, [geoAdminLocationSearchResults] throws a TypeError: no item is
    produced for any entry of the answer, and [geoAdminLocationSearch] then
    dispatches nothing. *)
Theorem malformed_box_aborts_normalization (obj : GeoAdmin.Response.t)
    (entries : list GeoAdmin.Entry.t) (entry : GeoAdmin.Entry.t) (s : string)
    (text : string) (requestId : value) (searchOptions : SearchOptions) :
  GeoAdmin.Response.results obj = Some entries ->
  In entry entries ->
  GeoAdmin.Attrs.geom_st_box2d (GeoAdmin.Entry.attrs entry) = Some s ->
  String_match s GeoAdmin.box_re = None ->
  GeoAdmin.geoAdminLocationSearchResults reprojectBbox obj requestId = Fail TypeError
  /\ trace (GeoAdmin.geoAdminLocationSearch reprojectBbox text requestId searchOptions (Ok obj))
     = [].
Proof.
  intros Hobj Hin Hs Hm.
  assert (H : GeoAdmin.geoAdminLocationSearchResults reprojectBbox obj requestId
              = Fail TypeError).
  { unfold GeoAdmin.geoAdminLocationSearchResults. rewrite Hobj.
    rewrite (loop_throws_on_malformed_box entries [] entry s Hin Hs Hm). reflexivity. }
  split; [exact H|].
  rewrite geoAdminLocationSearch_trace, H. reflexivity.
Qed.

End MalformedBox.

Lemma malformed_box_aborts_normalization_witness :
  GeoAdmin.geoAdminLocationSearchResults sample_reprojectBbox sample_geoadmin_answer
    (VNum (num_of_Z 7)) = Fail TypeError
  /\ trace (GeoAdmin.geoAdminLocationSearch sample_reprojectBbox "u"
              (VNum (num_of_Z 7)) {| displaycrs := None |} (Ok sample_geoadmin_answer))
     = [].
Proof.
  apply (malformed_box_aborts_normalization sample_reprojectBbox sample_geoadmin_answer
           sample_geoadmin_entries (sample_geoadmin_entry 2 "Maur" (Some "n/a")) "n/a").
  - reflexivity.
  - cbn. right. left. reflexivity.
  - reflexivity.
  - vm_compute. reflexivity.
Defined.

(** ** Candidates of the coordinates provider *)

(** The patterns and [parseFloat] at work. *)
Example coordinates_re_examples :
  String_match " 46.5, -6.6 " Coordinates.coordinates_re
  = Some [Some " 46.5, -6.6 "; Some "46.5"; Some "-6.6"]
  /\ String_match "5.,+7" Coordinates.coordinates_re
     = Some [Some "5.,+7"; Some "5."; Some "+7"]
  /\ String_match "46.5;6.6" Coordinates.coordinates_re = None
  /\ String_match "46.5 6.6 m" Coordinates.coordinates_re = None
  /\ String_match ".5 6" Coordinates.coordinates_re = None.
Proof. repeat split; vm_compute; reflexivity. Qed.

Example box_re_examples :
  String_match "BOX(693000 242000,699000 248000)" GeoAdmin.box_re
  = Some [Some "BOX(693000 242000,699000 248000)";
          Some "693000"; Some "242000"; Some "699000"; Some "248000"]
  /\ String_match "BOX (1.5 2 , 3 4.25 )" GeoAdmin.box_re
     = Some [Some "BOX (1.5 2 , 3 4.25 )"; Some "1.5"; Some "2"; Some "3"; Some "4.25"]
  /\ String_match "BOX(-1 2,3 4)" GeoAdmin.box_re = None
  /\ String_match "n/a" GeoAdmin.box_re = None
  /\ String_match "" GeoAdmin.box_re = None.
Proof. repeat split; vm_compute; reflexivity. Qed.

Example parseFloat_examples :
  parseFloat "46.5" = Fin (93 # 2)
  /\ parseFloat "-6." = Fin (-6 # 1)
  /\ parseFloat "  12.50e-1 m" = Fin (5 # 4)
  /\ parseFloat "2e3" = Fin (2000 # 1)
  /\ parseFloat "-Infinity" = NInf
  /\ parseFloat "north" = NaN.
Proof. repeat split; vm_compute; reflexivity. Qed.

(** Rounding and overflow: 0.1 is no double, 2^53 + 1 is none either, and a
    value from 2^1024 - 2^970 on is read as Infinity. *)
Example parseFloat_rounds :
  parseFloat "0.1" = Fin (3602879701896397 # 36028797018963968)
  /\ parseFloat "9007199254740993" = Fin (9007199254740992 # 1)
  /\ parseFloat "1e309" = PInf
  /\ parseFloat "-1e309" = NInf
  /\ parseFloat "1e-400" = Fin 0.
Proof. repeat split; vm_compute; reflexivity. Qed.

Section CoordinateCandidates.

Variable Number_toString : number -> string.

Lemma String_match_length s r m :
  String_match s r = Some m -> List.length m = S (ngroups r).
Proof.
  unfold String_match. destruct (search r true (list_ascii_of_string s)); [|discriminate].
  intros [= <-]. cbn. now rewrite length_map, length_seq.
Qed.

(** C3.  When [text] matches the two-number pattern and the parsed values
    are [(x, y)], [coordinatesSearch] dispatches one action whose items are
    exactly the places of the candidates of [(x, y)] for the display
    reference system, in the order of [candidates], numbered "coord0",
    "coord1", ...; they sit in the single group "coords", and there is no
    group when there is no candidate. *)
Theorem coordinatesSearch_candidates (text : string) (requestId : value)
    (searchOptions : SearchOptions) (x y : number) :
  parsed_pair text = Some (x, y) ->
  exists its,
    trace (Coordinates.coordinatesSearch Number_toString text requestId searchOptions)
    = [addSearchResults
         {| data := coords_group its; provider := VStr "coordinates";
            reqId := requestId |}
         (VBool true)]
    /\ Forall2 place_of
         (candidates (or_string (displaycrs searchOptions) "EPSG:4326") x y) its
    /\ numbered its.
Proof.
  unfold parsed_pair. intros H.
  destruct (String_match text Coordinates.coordinates_re) as [m|] eqn:Em; [|discriminate].
  pose proof (String_match_length _ _ _ Em) as Hlen.
  change (ngroups Coordinates.coordinates_re) with 2 in Hlen.
  destruct m as [|m0 [|m1 [|m2 [|? ?]]]]; try discriminate Hlen.
  cbn [nth] in H. inversion H; subst x y; clear H.
  unfold Coordinates.coordinatesSearch, candidates, between, num_ge.
  rewrite Em. cbn [List.length Nat.leb nth]. rewrite !andb_assoc.
  set (crs := or_string (displaycrs searchOptions) "EPSG:4326").
  set (x := parseFloat_opt m1). set (y := parseFloat_opt m2).
  destruct (negb (String.eqb crs "EPSG:4326"));
    destruct (num_le (num_of_Z (-180)) x && num_le x (num_of_Z 180)
              && num_le (num_of_Z (-90)) y && num_le y (num_of_Z 90)) eqn:E1;
    destruct (num_le (num_of_Z (-90)) x && num_le x (num_of_Z 90)
              && num_le (num_of_Z (-180)) y && num_le y (num_of_Z 180)
              && negb (num_eq x y)) eqn:E2.
  all: cbn [app List.length Nat.ltb Nat.leb].
  all: match goal with
       | |- context [ {| id := _; title := _; titlemsgid := _; items := ?X |} ] =>
           exists X
       | _ => exists []
       end.
  all: split; [reflexivity | split; [repeat constructor | reflexivity]].
Qed.

(** The examples of the spec, for a display reference system other than
    EPSG:4326: "46.5 6.6" yields three items, "200 6.6" yields the item in
    the display system only, "5 5" yields two items. *)
Lemma coordinatesSearch_examples (requestId : value) (searchOptions : SearchOptions) :
  let crs := or_string (displaycrs searchOptions) "EPSG:4326" in
  crs <> "EPSG:4326" ->
  List.length
    (delivered_items
       (trace (Coordinates.coordinatesSearch Number_toString "46.5 6.6" requestId
                 searchOptions))) = 3
  /\ map (fun it => prop it "crs")
       (delivered_items
          (trace (Coordinates.coordinatesSearch Number_toString "200 6.6" requestId
                    searchOptions))) = [VStr crs]
  /\ List.length
       (delivered_items
          (trace (Coordinates.coordinatesSearch Number_toString "5 5" requestId
                    searchOptions))) = 2.
Proof.
  intros crs Hcrs. unfold Coordinates.coordinatesSearch. fold crs.
  destruct (String.eqb crs "EPSG:4326") eqn:E.
  - apply String.eqb_eq in E. contradiction.
  - repeat split; vm_compute; reflexivity.
Qed.

End CoordinateCandidates.

Lemma coordinatesSearch_candidates_witness :
  parsed_pair "46.5 6.6" = Some (Fin (93 # 2), Fin (3715469692580659 # 562949953421312))
  /\ exists its,
       trace (Coordinates.coordinatesSearch sample_Number_toString "46.5 6.6"
                (VNum (num_of_Z 7)) sample_options)
       = [addSearchResults
            {| data := coords_group its; provider := VStr "coordinates";
               reqId := VNum (num_of_Z 7) |}
            (VBool true)]
       /\ Forall2 place_of
            (candidates (or_string (displaycrs sample_options) "EPSG:4326")
               (Fin (93 # 2)) (Fin (3715469692580659 # 562949953421312)))
            its
       /\ numbered its.
Proof.
  split.
  - vm_compute. reflexivity.
  - apply (coordinatesSearch_candidates sample_Number_toString "46.5 6.6"
             (VNum (num_of_Z 7)) sample_options).
    vm_compute. reflexivity.
Defined.

(** ** The "more" marker of the glarus provider *)

Lemma map_outcome_Forall2 {A B} (f : A -> outcome B) (l : list A) (l' : list B) :
  map_outcome f l = Ok l' <-> Forall2 (fun a b => f a = Ok b) l l'.
Proof.
  revert l'. induction l as [|a l IH]; intros l'; cbn.
  - split.
    + intros [= <-]. constructor.
    + intros H; inversion H; reflexivity.
  - destruct (f a) as [b|e] eqn:Ea.
    + destruct (map_outcome f l) as [bs|e] eqn:El.
      * split.
        -- intros [= <-]. constructor; [exact Ea|]. now apply IH.
        -- intros H; inversion H as [|? b' ? bs' Hb Hbs]; subst.
           rewrite Ea in Hb; injection Hb as <-.
           apply IH in Hbs. now injection Hbs as <-.
      * split; [discriminate|].
        intros H; inversion H as [|? b' ? bs' Hb Hbs]; subst.
        apply IH in Hbs. discriminate.
    + split; [discriminate|].
      intros H; inversion H as [|? b' ? bs' Hb Hbs]; subst. congruence.
Qed.

Module GlarusFacts.
Import Glarus GlarusSpec.

Lemma step_group_result limit results idcounter g results' idcounter' :
  step limit (results, idcounter) g = Ok (results', idcounter') ->
  exists r, results' = results ++ [r] /\ group_result limit g r.
Proof.
  unfold step.
  destruct (Group.features g) as [fs|] eqn:Ef; [|discriminate].
  destruct (map_outcome (feature_item g) fs) as [its|e] eqn:Em; [|discriminate].
  cbn [obind].
  assert (Ht : ((limit >=? 0)%Z && (Z.of_nat (List.length fs) >? limit)%Z)
               = truncated limit g).
  { unfold truncated, feature_count. now rewrite Ef. }
  rewrite Ht. apply map_outcome_Forall2 in Em.
  destruct (truncated limit g) eqn:Et; intros [= <- <-]; eexists; split;
    try reflexivity.
  - apply (GroupResult _ _ _ fs its idcounter); auto. cbn. now rewrite Et.
  - apply (GroupResult _ _ _ fs its idcounter); auto. cbn. rewrite Et.
    now rewrite app_nil_r.
Qed.

Lemma loop_group_results limit groups : forall st st',
  loop limit st groups = Ok st' ->
  exists new, fst st' = fst st ++ new /\ Forall2 (group_result limit) groups new.
Proof.
  induction groups as [|g rest IH]; intros [results idcounter] st'; cbn [loop].
  - intros [= <-]. exists []. split; [now rewrite app_nil_r | constructor].
  - destruct (step limit (results, idcounter) g) as [[results1 idcounter1]|e] eqn:Es;
      [|discriminate].
    cbn [obind]. intros Hl.
    apply step_group_result in Es. destruct Es as (r & -> & Hr).
    apply IH in Hl. destruct Hl as (new & Hnew & Hall). cbn [fst] in *.
    exists (r :: new). split.
    + rewrite Hnew, <- app_assoc. reflexivity.
    + now constructor.
Qed.

Lemma glarusSearchResults_group_results obj requestId limit a :
  glarusSearchResults obj requestId limit = Ok a ->
  Forall2 (group_result (effective limit)) (groups_of obj) (data (results_of a)).
Proof.
  unfold glarusSearchResults. fold (effective limit). fold (groups_of obj).
  destruct (loop (effective limit) ([], 0) (groups_of obj)) as [st|e] eqn:El;
    [|discriminate].
  cbn [obind]. intros [= <-]. cbn [results_of data].
  apply loop_group_results in El. destruct El as (new & -> & Hall). exact Hall.
Qed.


Lemma feature_item_not_more g f it :
  feature_item g f = Ok it -> prop it "more" = VUndefined.
Proof.
  unfold feature_item. destruct (Feature.bbox f); [|discriminate].
  intros [= <-]. reflexivity.
Qed.

Lemma feature_items_not_more g fs its :
  Forall2 (fun f it => feature_item g f = Ok it) fs its ->
  Forall (fun it => prop it "more" = VUndefined) its.
Proof.
  induction 1; constructor; eauto using feature_item_not_more.
Qed.

Lemma more_item_is_marker k g : is_more_marker g (more_item k g).
Proof. repeat split. Qed.

Lemma group_result_ends_with_more limit g r :
  group_result limit g r -> (ends_with_more g r <-> truncated limit g = true).
Proof.
  intros [fs its k Ef Hits _ _ Hitems]. split.
  - intros (its' & m & Hm & Hmore & _).
    destruct (truncated limit g); [reflexivity|].
    rewrite app_nil_r in Hitems. rewrite Hitems in Hm.
    apply feature_items_not_more in Hits. rewrite Hm in Hits.
    apply Forall_app in Hits. destruct Hits as [_ Hlast].
    inversion Hlast; subst. congruence.
  - intros Ht. rewrite Ht in Hitems.
    exists its, (more_item k g). split; [exact Hitems | apply more_item_is_marker].
Qed.

Lemma group_result_no_more limit g r :
  group_result limit g r -> truncated limit g = false -> no_more r.
Proof.
  intros [fs its k Ef Hits _ _ Hitems] Ht. unfold no_more.
  rewrite Hitems, Ht, app_nil_r. eapply feature_items_not_more; eauto.
Qed.

(** C5.  When [glarusSearchResults] normalizes an answer with a limit that
    is not negative, the items of a delivered group end with a "more" entry
    (more: true, provider: "glarus", category of the group) if and only if the
    number of features of the group of the answer exceeds the limit.  With a
    negative limit, the default included, no delivered item is a "more"
    entry. *)
Theorem more_marker_iff_limit_exceeded (obj : Response.t) (requestId : value)
    (limit : option Z) (a : Action) :
  glarusSearchResults obj requestId limit = Ok a ->
  ((0 <= effective limit)%Z ->
   Forall2 (fun g r =>
              ends_with_more g r
              <-> (Z.of_nat (feature_count g) > effective limit)%Z)
     (groups_of obj) (data (results_of a)))
  /\ ((effective limit < 0)%Z -> Forall no_more (data (results_of a))).
Proof.
  intros H. apply glarusSearchResults_group_results in H. split; intros Hl.
  - eapply Forall2_impl; [|exact H]. intros g r Hr. cbn beta.
    rewrite (group_result_ends_with_more _ _ _ Hr). unfold truncated.
    rewrite andb_true_iff, Z.geb_le, Z.gtb_gt. intuition lia.
  - induction H as [|g r gs rs Hr _ IH]; constructor; [|exact IH].
    apply (group_result_no_more _ _ _ Hr). unfold truncated.
    apply andb_false_iff. left. rewrite Z.geb_leb. apply Z.leb_gt. lia.
Qed.



(** When the request fails, or the normalization throws, [glarusMoreResults]
    delivers the empty list of groups. *)
Lemma more_results_on_failure (moreItem : Item) (text : string) (requestId : value) :
  (forall e,
     trace (glarusMoreResults moreItem text requestId (Fail e))
     = [empty_delivery (VStr "glarus") requestId (VBool true)])
  /\ (forall d e,
        glarusSearchResults d requestId None = Fail e ->
        trace (glarusMoreResults moreItem text requestId (Ok d))
        = [empty_delivery (VStr "glarus") requestId (VBool true)]).
Proof.
  split; intros; rewrite glarusMoreResults_trace; [reflexivity|].
  now rewrite H.
Qed.


End GlarusFacts.


(** The delivery for the sample answer, of twelve and three features: two
    groups of twelve and three items, where the search with its limit of 9
    delivers ten and three. *)
Example more_results_sample :
  map (fun r => List.length (items r))
    (flat_map (fun a => data (results_of a))
       (trace (Glarus.glarusMoreResults
                 (Glarus.more_item 0 (sample_glarus_group "parcels" 12))
                 "bahnhof" (VNum (num_of_Z 7)) (Ok sample_glarus_answer))))
  = [12; 3].
Proof. vm_compute. reflexivity. Qed.

Lemma more_marker_iff_limit_exceeded_witness :
  exists a,
    Glarus.glarusSearchResults sample_glarus_answer (VNum (num_of_Z 7)) (Some 9%Z) = Ok a
    /\ Forall2 (fun g r =>
                  GlarusSpec.ends_with_more g r
                  <-> (Z.of_nat (GlarusSpec.feature_count g) > 9)%Z)
         (GlarusSpec.groups_of sample_glarus_answer) (data (results_of a)).
Proof.
  eexists. split; [vm_compute; reflexivity|].
  refine (proj1 (GlarusFacts.more_marker_iff_limit_exceeded sample_glarus_answer
                   (VNum (num_of_Z 7)) (Some 9%Z) _ _) _).
  - vm_compute. reflexivity.
  - cbn. lia.
Defined.


(** ** Invariants of the delivered items *)

Lemma all_items_app P gs1 gs2 :
  all_items P (gs1 ++ gs2) <-> all_items P gs1 /\ all_items P gs2.
Proof. apply Forall_app. Qed.

Lemma all_items_push P rs : forall ref it,
  all_items P rs -> P it -> all_items P (push_item rs ref it).
Proof.
  induction rs as [|g rs IH]; intros ref it Hrs Hit; cbn; [constructor|].
  inversion Hrs as [|? ? Hg Hrest]; subst.
  destruct ref as [|ref]; constructor; cbn; auto.
  - apply Forall_app. split; [exact Hg | now constructor].
  - apply IH; auto.
Qed.

Lemma dict_all_own {A} (P : A -> Prop) d k a :
  dict_all P d -> own d k = Some a -> P a.
Proof.
  induction 1 as [|[k' a'] d' Hh Ht IH]; cbn; [discriminate|].
  destruct (String.eqb k' k); [intros [= <-]; exact Hh | exact IH].
Qed.

Lemma dict_all_set {A} (P : A -> Prop) d k a :
  dict_all P d -> P a -> dict_all P (dict_set d k a).
Proof.
  induction 1 as [|[k' a'] d' Hh Ht IH]; cbn; intros Ha.
  - repeat constructor. exact Ha.
  - destruct (String.eqb k' k).
    + constructor; [exact Ha | exact Ht].
    + constructor; [exact Hh | exact (IH Ha)].
Qed.

Lemma dict_get_own {A} (d : dict A) k a : dict_get d k = Own a -> own d k = Some a.
Proof.
  unfold dict_get. destruct (own d k); [intros [= <-]; reflexivity|].
  destruct (existsb _ _); discriminate.
Qed.

Lemma insert_by_index_all {A} (Q : A -> Prop) n a (l : list (N * A)) :
  Q a -> Forall (fun na => Q (snd na)) l ->
  Forall (fun na => Q (snd na)) (insert_by_index n a l).
Proof.
  intros Ha. induction 1 as [|[m b] l' Hb Hl IH]; cbn.
  - repeat constructor. exact Ha.
  - destruct (n <? m)%N; repeat constructor; auto.
Qed.

Lemma Object_values_all {A} (Q : A -> Prop) (d : dict A) :
  dict_all Q d -> Forall Q (Object_values d).
Proof.
  intros Hd. unfold Object_values. apply Forall_app. split.
  - apply Forall_map.
    assert (G : forall acc,
               Forall (fun na : N * A => Q (snd na)) acc ->
               Forall (fun na : N * A => Q (snd na))
                 (fold_left
                    (fun acc '(k, a) =>
                       match array_index k with
                       | Some n => insert_by_index n a acc
                       | None => acc
                       end) d acc)).
    { induction Hd as [|[k a] d' Ha Hd' IH]; intros acc Hacc; cbn; [exact Hacc|].
      apply IH. destruct (array_index k); [|exact Hacc].
      now apply insert_by_index_all. }
    apply G. constructor.
  - apply Forall_map. induction Hd as [|[k a] d' Ha Hd' IH]; cbn; [constructor|].
    destruct (array_index k); [exact IH | constructor; auto].
Qed.

Lemma deliveries_satisfy_nil P : deliveries_satisfy P [].
Proof. intros a []. Qed.

Lemma deliveries_satisfy_one P a :
  all_items P (data (results_of a)) -> deliveries_satisfy P [a].
Proof. intros H b [<-|[]]. exact H. Qed.

Lemma deliveries_satisfy_empty P p requestId append :
  deliveries_satisfy P [empty_delivery p requestId append].
Proof. apply deliveries_satisfy_one. constructor. Qed.

(** For each normalization: a property of the item literals is a property
    of all delivered items. *)
Section ItemInvariants.

Variable Number_toString : number -> string.
Variable reprojectBbox : list number -> string -> string -> list number.
Variable toUpperCase : string -> string.
Variable THEMELAYER : value.
Variable toLowerCase : string -> string.

Variable P : Item -> Prop.

Lemma geoadmin_step_items resultGroups entry resultGroups' :
  (forall entry box, P (GeoAdmin.item entry box)) ->
  dict_all (fun g => Forall P (items g)) resultGroups ->
  GeoAdmin.step reprojectBbox resultGroups entry = Ok resultGroups' ->
  dict_all (fun g => Forall P (items g)) resultGroups'.
Proof.
  intros HP Hd. unfold GeoAdmin.step. cbv zeta.
  set (origin := GeoAdmin.Attrs.origin (GeoAdmin.Entry.attrs entry)).
  assert (G : forall d g,
             dict_all (fun g => Forall P (items g)) d ->
             dict_get d origin = Own g ->
             obind (GeoAdmin.parseItemBBox reprojectBbox
                      (GeoAdmin.Attrs.geom_st_box2d (GeoAdmin.Entry.attrs entry)))
               (fun box =>
                  Ok (dict_set d origin
                        {| id := id g; title := title g; titlemsgid := titlemsgid g;
                           items := items g ++ [GeoAdmin.item entry box] |}))
             = Ok resultGroups' ->
             dict_all (fun g => Forall P (items g)) resultGroups').
  { intros d g Hdd Eg.
    destruct (GeoAdmin.parseItemBBox _ _) as [box|e]; [|discriminate].
    cbn [obind]. intros [= <-].
    apply dict_all_set; auto. cbn [items].
    apply Forall_app. split.
    - apply dict_get_own in Eg. exact (dict_all_own _ _ _ _ Hdd Eg).
    - constructor; [|constructor]. apply HP. }
  destruct (dict_get resultGroups origin) as [g0| |] eqn:E0; cbv iota; rewrite ?E0.
  - apply G; auto.
  - discriminate.
  - match goal with |- context [dict_get ?d origin] => set (d1 := d) end.
    destruct (dict_get d1 origin) as [g| |] eqn:Eg; try discriminate.
    apply G; auto; apply dict_all_set; auto; cbn; constructor.
Qed.

Lemma geoAdminLocationSearchResults_items obj requestId a :
  (forall entry box, P (GeoAdmin.item entry box)) ->
  GeoAdmin.geoAdminLocationSearchResults reprojectBbox obj requestId = Ok a ->
  all_items P (data (results_of a)).
Proof.
  intros HP. unfold GeoAdmin.geoAdminLocationSearchResults.
  destruct (GeoAdmin.loop _ _ _) as [rg|e] eqn:El; [|discriminate].
  cbn [obind]. intros [= <-]. cbn [results_of data].
  apply Object_values_all.
  assert (G : forall entries rg0 rg1,
             dict_all (fun g => Forall P (items g)) rg0 ->
             GeoAdmin.loop reprojectBbox rg0 entries = Ok rg1 ->
             dict_all (fun g => Forall P (items g)) rg1).
  { induction entries as [|entry rest IH]; intros rg0 rg1 Hd; cbn [GeoAdmin.loop].
    - intros [= <-]. exact Hd.
    - destruct (GeoAdmin.step reprojectBbox rg0 entry) as [rg2|e] eqn:Es; [|discriminate].
      cbn [obind]. apply IH. eapply geoadmin_step_items; eauto. }
  eapply G; [|exact El]. constructor.
Qed.

Lemma fold_left_invariant {S E} (I : S -> Prop) (f : S -> E -> S) (l : list E) :
  (forall s e, I s -> I (f s e)) -> forall s, I s -> I (fold_left f l s).
Proof. intros Hf. induction l as [|e l IH]; intros s Hs; cbn; auto. Qed.

Lemma usterSearchResults_items obj requestId :
  (forall counter entry bbox, P (Uster.item counter entry bbox)) ->
  all_items P (data (results_of (Uster.usterSearchResults obj requestId))).
Proof.
  intros HP. unfold Uster.usterSearchResults. cbn [results_of data].
  apply (fold_left_invariant (fun st => all_items P (results st))); [|constructor].
  intros st entry Hst. unfold Uster.step.
  destruct (Uster.Entry.bbox entry) as [bbox|]; cbn [results].
  - destruct (currentgroup st); cbn [results]; auto using all_items_push.
  - apply all_items_app. split; [exact Hst|]. repeat constructor.
Qed.

Lemma wolfsburgSearchResults_items obj requestId :
  (forall counter entry bbox, P (Wolfsburg.item counter entry bbox)) ->
  all_items P (data (results_of (Wolfsburg.wolfsburgSearchResults obj requestId))).
Proof.
  intros HP. unfold Wolfsburg.wolfsburgSearchResults. cbn [results_of data].
  apply (fold_left_invariant (fun st => all_items P (results st))); [|constructor].
  intros st entry Hst. unfold Wolfsburg.step.
  destruct (Wolfsburg.Entry.bbox entry) as [bbox|]; cbn [results].
  - destruct (currentgroup st); cbn [results]; auto using all_items_push.
  - apply all_items_app. split; [exact Hst|]. repeat constructor.
Qed.

Lemma glarusSearchResults_items obj requestId limit a :
  (forall g f it, Glarus.feature_item g f = Ok it -> P it) ->
  (forall k g, P (Glarus.more_item k g)) ->
  Glarus.glarusSearchResults obj requestId limit = Ok a ->
  all_items P (data (results_of a)).
Proof.
  intros HF HM H. apply GlarusFacts.glarusSearchResults_group_results in H.
  induction H as [|g r gs rs Hr _ IH]; constructor; [|exact IH].
  destruct Hr as [fs its k _ Hits _ _ ->]. apply Forall_app. split.
  - clear -Hits HF. induction Hits; constructor; eauto.
  - destruct (GlarusSpec.truncated _ _); repeat constructor. apply HM.
Qed.

Lemma nominatim_step_items st entry st' :
  (forall entry text label bbox, P (Nominatim.item entry text label bbox)) ->
  all_items P (Nominatim.results st) ->
  Nominatim.step toUpperCase st entry = Ok st' ->
  all_items P (Nominatim.results st').
Proof.
  intros HP Hst. unfold Nominatim.step. cbv zeta.
  set (class := Nominatim.Entry.class entry).
  assert (G : forall s1,
             all_items P (Nominatim.results s1) ->
             match Nominatim.Entry.address entry with
             | None => Fail TypeError
             | Some a =>
                 match Nominatim.Entry.boundingbox entry with
                 | None => Fail TypeError
                 | Some boundingbox =>
                     match dict_get (Nominatim.groups s1) class with
                     | Own ref =>
                         Ok {| Nominatim.results :=
                                 push_item (Nominatim.results s1) ref
                                   (Nominatim.item entry
                                      (let text :=
                                         join (firstn 3
                                                 (split (Nominatim.Entry.display_name entry))) in
                                       let address :=
                                         Nominatim.push_if (Nominatim.Address.country a)
                                           (Nominatim.push_if (Nominatim.Address.state a)
                                              (Nominatim.push_if (Nominatim.Address.city a)
                                                 (Nominatim.push_if
                                                    (Nominatim.Address.town a) []))) in
                                       if 0 <? List.length address
                                       then text +:+ "<br/><i>" +:+ join address +:+ "</i>"
                                       else text)
                                      (join (firstn 3
                                               (split (Nominatim.Entry.display_name entry))))
                                      (let b := map parseFloat boundingbox in
                                       [index b 2; index b 0; index b 3; index b 1]));
                               Nominatim.groups := Nominatim.groups s1;
                               Nominatim.groupcounter := Nominatim.groupcounter s1 |}
                     | _ => Fail TypeError
                     end
                 end
             end = Ok st' ->
             all_items P (Nominatim.results st')).
  { intros s1 Hs1.
    destruct (Nominatim.Entry.address entry); [|discriminate].
    destruct (Nominatim.Entry.boundingbox entry); [|discriminate].
    destruct (dict_get (Nominatim.groups s1) class); try discriminate.
    intros [= <-]. cbn [Nominatim.results]. apply all_items_push; auto. }
  destruct (dict_get (Nominatim.groups st) class) as [ref0| |] eqn:E0;
    apply G; cbn [Nominatim.results]; auto.
  apply all_items_app. split; [exact Hst|]. repeat constructor.
Qed.

Lemma nominatimSearchResults_items obj requestId a :
  (forall entry text label bbox, P (Nominatim.item entry text label bbox)) ->
  Nominatim.nominatimSearchResults toUpperCase obj requestId = Ok a ->
  all_items P (data (results_of a)).
Proof.
  intros HP. unfold Nominatim.nominatimSearchResults.
  destruct (Nominatim.loop _ _ _) as [st|e] eqn:El; [|discriminate].
  cbn [obind]. intros [= <-]. cbn [results_of data].
  assert (G : forall entries st0 st1,
             all_items P (Nominatim.results st0) ->
             Nominatim.loop toUpperCase st0 entries = Ok st1 ->
             all_items P (Nominatim.results st1)).
  { induction entries as [|entry rest IH]; intros st0 st1 Hd; cbn [Nominatim.loop].
    - intros [= <-]. exact Hd.
    - destruct (Nominatim.step toUpperCase st0 entry) as [st2|e] eqn:Es; [|discriminate].
      cbn [obind]. apply IH. eapply nominatim_step_items; eauto. }
  eapply G; [|exact El]. constructor.
Qed.

Lemma createLayerSearchResult_items sublayers title g :
  (forall s it, Layers.layer_item THEMELAYER toLowerCase s = Ok it -> P it) ->
  Layers.createLayerSearchResult THEMELAYER toLowerCase sublayers title = Ok g ->
  Forall P (items g).
Proof.
  intros HP. unfold Layers.createLayerSearchResult. destruct sublayers as [a|s].
  - destruct (map_outcome _ a) as [its|e] eqn:E; [|discriminate].
    cbn [obind]. intros [= <-]. cbn [items].
    apply map_outcome_Forall2 in E. induction E; constructor; eauto.
  - destruct (Layers.layer_item _ _ s) as [it|e] eqn:E; [|discriminate].
    cbn [obind]. intros [= <-]. cbn [items]. repeat constructor. eauto.
Qed.

Lemma push_result_items sublayers title groups :
  (forall s it, Layers.layer_item THEMELAYER toLowerCase s = Ok it -> P it) ->
  Layers.push_result []
    (Layers.createLayerSearchResult THEMELAYER toLowerCase sublayers title) = Ok groups ->
  all_items P groups.
Proof.
  intros HP. unfold Layers.push_result.
  destruct (Layers.createLayerSearchResult _ _ _ _) as [g|e] eqn:E; [|discriminate].
  cbn [obind]. intros [= <-]. repeat constructor.
  eapply createLayerSearchResult_items; eauto.
Qed.

Lemma layerSearchResults_items text groups :
  (forall s it, Layers.layer_item THEMELAYER toLowerCase s = Ok it -> P it) ->
  Layers.layerSearchResults THEMELAYER toLowerCase text = Ok groups ->
  all_items P groups.
Proof.
  intros HP. unfold Layers.layerSearchResults. cbv zeta.
  repeat lazymatch goal with
         | |- (if ?c then _ else _) = _ -> _ =>
             destruct c; [apply push_result_items; exact HP|]
         end.
  intros [= <-]. constructor.
Qed.

End ItemInvariants.

(** ** The provider field of the items *)

Lemma deliveries_carry_nil pid : deliveries_carry pid [].
Proof. apply deliveries_satisfy_nil. Qed.

Lemma deliveries_carry_one pid a :
  all_items (provided_by pid) (data (results_of a)) -> deliveries_carry pid [a].
Proof. apply deliveries_satisfy_one. Qed.

Lemma deliveries_carry_empty pid p requestId append :
  deliveries_carry pid [empty_delivery p requestId append].
Proof. apply deliveries_satisfy_empty. Qed.

Section ProviderField.

Variable Number_toString : number -> string.
Variable reprojectBbox : list number -> string -> string -> list number.
Variable toUpperCase : string -> string.
Variable THEMELAYER : value.
Variable toLowerCase : string -> string.

Let table : list (string * Provider) :=
  SearchProviders Number_toString reprojectBbox toUpperCase THEMELAYER toLowerCase.

(** The items of the coordinates provider have no provider field. *)
Lemma coordinatesSearch_items_lack_provider text requestId searchOptions :
  deliveries_carry VUndefined
    (trace (Coordinates.coordinatesSearch Number_toString text requestId searchOptions)).
Proof.
  unfold Coordinates.coordinatesSearch.
  destruct (String_match text Coordinates.coordinates_re) as [m|];
    [|apply deliveries_carry_one; constructor].
  destruct (3 <=? List.length m); [|apply deliveries_carry_one; constructor].
  set (crs := or_string (displaycrs searchOptions) "EPSG:4326").
  set (x := parseFloat_opt (nth 1 m None)). set (y := parseFloat_opt (nth 2 m None)).
  destruct (negb (String.eqb crs "EPSG:4326"));
    destruct (num_ge x (num_of_Z (-180)) && num_le x (num_of_Z 180)
              && num_ge y (num_of_Z (-90)) && num_le y (num_of_Z 90));
    destruct (num_ge x (num_of_Z (-90)) && num_le x (num_of_Z 90)
              && num_ge y (num_of_Z (-180)) && num_le y (num_of_Z 180)
              && negb (num_eq x y));
    apply deliveries_carry_one; repeat constructor.
Qed.

(** Nor have those of the layers provider. *)
Lemma layerSearch_items_lack_provider text requestId searchOptions :
  deliveries_carry VUndefined
    (trace (Layers.layerSearch THEMELAYER toLowerCase text requestId searchOptions)).
Proof.
  rewrite layerSearch_trace.
  destruct (Layers.layerSearchResults THEMELAYER toLowerCase text) as [groups|e] eqn:E;
    [|apply deliveries_carry_nil].
  apply deliveries_carry_one. cbn [results_of data].
  eapply layerSearchResults_items; [|exact E].
  intros [s|] it; cbn; [|discriminate]. intros [= <-]. reflexivity.
Qed.

Lemma glarus_items_carry obj requestId limit a :
  Glarus.glarusSearchResults obj requestId limit = Ok a ->
  all_items (provided_by (VStr "glarus")) (data (results_of a)).
Proof.
  apply glarusSearchResults_items.
  - intros g f it. unfold Glarus.feature_item.
    destruct (Glarus.Feature.bbox f); [|discriminate]. intros [= <-]. reflexivity.
  - reflexivity.
Qed.

Lemma onSearch_items_carry key p text requestId searchOptions net :
  In (key, p) table ->
  deliveries_carry (provider_field key)
    (trace (onSearch p text requestId searchOptions net)).
Proof.
  unfold table, SearchProviders. cbn [In].
  intros H.
  repeat (destruct H as [H|H];
          [inversion H; subst; clear H; cbn [onSearch]; cbn [provider_field]|]);
    [ | | | | | | | destruct H].
  - apply coordinatesSearch_items_lack_provider.
  - rewrite geoAdminLocationSearch_trace.
    destruct (geoadmin_search net text) as [d|e]; [|apply deliveries_carry_nil].
    destruct (GeoAdmin.geoAdminLocationSearchResults _ _ _) as [a|e] eqn:E;
      [|apply deliveries_carry_nil].
    apply deliveries_carry_one.
    eapply geoAdminLocationSearchResults_items; [|exact E]. reflexivity.
  - rewrite usterSearch_trace.
    destruct (uster_search net text); [|apply deliveries_carry_nil].
    apply deliveries_carry_one. apply usterSearchResults_items. reflexivity.
  - rewrite wolfsburgSearch_trace.
    destruct (wolfsburg_search net text); [|apply deliveries_carry_nil].
    apply deliveries_carry_one. apply wolfsburgSearchResults_items. reflexivity.
  - rewrite glarusSearch_trace.
    destruct (glarus_search net text) as [d|e]; [|apply deliveries_carry_empty].
    destruct (Glarus.glarusSearchResults _ _ _) as [a|e] eqn:E;
      [|apply deliveries_carry_empty].
    apply deliveries_carry_one. eapply glarus_items_carry; eauto.
  - rewrite nominatimSearch_trace.
    destruct (nominatim_search net text) as [d|e]; [|apply deliveries_carry_nil].
    destruct (Nominatim.nominatimSearchResults _ _ _) as [a|e] eqn:E;
      [|apply deliveries_carry_nil].
    apply deliveries_carry_one.
    eapply nominatimSearchResults_items; [|exact E]. reflexivity.
  - apply layerSearch_items_lack_provider.
Qed.

Lemma getMoreResults_items_carry key p more moreItem text requestId net :
  In (key, p) table ->
  getMoreResults p = Some more ->
  deliveries_carry (provider_field key) (trace (more moreItem text requestId net)).
Proof.
  unfold table, SearchProviders. cbn [In].
  intros H.
  repeat (destruct H as [H|H];
          [inversion H; subst; clear H; cbn [getMoreResults]; try discriminate|]);
    [ | destruct H].
  intros M; inversion M; subst; clear M. cbn [provider_field].
  rewrite glarusMoreResults_trace.
  destruct (glarus_more net moreItem text) as [d|e]; [|apply deliveries_carry_empty].
  destruct (Glarus.glarusSearchResults _ _ _) as [a|e] eqn:E;
    [|apply deliveries_carry_empty].
  apply deliveries_carry_one. eapply glarus_items_carry; eauto.
Qed.

(** C4, amended.  For every provider registered in [SearchProviders] under a
    key other than "coordinates" and "layers" (geoadmin, uster, wolfsburg,
    glarus, nominatim), every item of every group that its [onSearch] or its
    [getMoreResults] delivers carries a provider field equal to that key.
    The items of the coordinates and layers providers carry no provider
    field. *)
Theorem items_carry_provider_field (p : Provider) (key text : string)
    (requestId : value) (searchOptions : SearchOptions) (net : Network) :
  provider_named table key = Some p ->
  deliveries_carry (provider_field key)
    (trace (onSearch p text requestId searchOptions net))
  /\ (forall more moreItem,
        getMoreResults p = Some more ->
        deliveries_carry (provider_field key)
          (trace (more moreItem text requestId net))).
Proof.
  intros H. apply provider_named_In in H. split.
  - now apply onSearch_items_carry.
  - intros more moreItem Hm. eapply getMoreResults_items_carry; eauto.
Qed.

End ProviderField.

Lemma items_carry_provider_field_witness :
  exists p,
    provider_named sample_table "uster" = Some p
    /\ deliveries_carry (VStr "uster")
         (trace (onSearch p "bahn" (VNum (num_of_Z 7)) sample_options sample_network))
    /\ (forall more moreItem,
          getMoreResults p = Some more ->
          deliveries_carry (VStr "uster")
            (trace (more moreItem "bahn" (VNum (num_of_Z 7)) sample_network))).
Proof.
  eexists. split; [reflexivity|].
  apply (items_carry_provider_field sample_Number_toString sample_reprojectBbox
           sample_toUpperCase sample_THEMELAYER sample_toLowerCase _ "uster").
  reflexivity.
Defined.

(** C4 fails as stated: the items that the coordinates provider delivers for
    "5 5" do not carry the provider field "coordinates". *)
Lemma coordinates_items_without_provider_field :
  ~ deliveries_carry (VStr "coordinates")
      (trace (Coordinates.coordinatesSearch sample_Number_toString "5 5"
                (VNum (num_of_Z 7)) sample_options)).
Proof.
  intros H.
  specialize (H _ (or_introl eq_refl)).
  vm_compute in H.
  inversion H as [|g gs Hg _]; subst.
  inversion Hg as [|it its Hit _]; subst.
  discriminate Hit.
Qed.

(** ** Doubles

    The arithmetic of the code rounds: [round64] keeps the order, leaves a
    double as it is, and is exact on the integers of at most 53 bits. *)

Section Rounding.

Local Open Scope Q_scope.

(** *** Rounding to the nearest integer *)

Ltac compare_facts :=
  repeat match goal with
         | H : (_ ?= _) = Eq |- _ => apply <- Qeq_alt in H
         | H : (_ ?= _) = Lt |- _ => apply <- Qlt_alt in H
         | H : (_ ?= _) = Gt |- _ => apply <- Qgt_alt in H
         end.

Lemma round_even_comp p q : p == q -> round_even p = round_even q.
Proof.
  intros H. unfold round_even. rewrite (Qfloor_comp _ _ H).
  assert (E : p - inject_Z (Qfloor q) == q - inject_Z (Qfloor q))
    by (rewrite H; reflexivity).
  now rewrite E.
Qed.

Lemma round_even_bounds q :
  (Qfloor q <= round_even q <= Qfloor q + 1)%Z.
Proof.
  unfold round_even. destruct (q - inject_Z (Qfloor q) ?= 1 # 2);
    [destruct (Z.even (Qfloor q))| |]; lia.
Qed.

Lemma round_even_Z n : round_even (inject_Z n) = n.
Proof.
  unfold round_even. rewrite Qfloor_Z.
  assert (E : (inject_Z n - inject_Z n ?= 1 # 2) = Lt).
  { rewrite <- Qlt_alt. ring_simplify (inject_Z n - inject_Z n). reflexivity. }
  now rewrite E.
Qed.

Lemma round_even_le_Z q n : q <= inject_Z n -> (round_even q <= n)%Z.
Proof.
  intros H. destruct (Qlt_le_dec q (inject_Z n)) as [L|G].
  - pose proof (round_even_bounds q) as B.
    assert (Qfloor q < n)%Z; [|lia].
    rewrite Zlt_Qlt. eapply Qle_lt_trans; [apply Qfloor_le|exact L].
  - rewrite (round_even_comp q (inject_Z n)) by (apply Qle_antisym; assumption).
    rewrite round_even_Z. lia.
Qed.

Lemma round_even_ge_Z q n : inject_Z n <= q -> (n <= round_even q)%Z.
Proof.
  intros H. pose proof (round_even_bounds q) as B.
  assert (n <= Qfloor q)%Z; [|lia].
  rewrite <- (Qfloor_Z n). now apply Qfloor_resp_le.
Qed.

Lemma round_even_mono p q : p <= q -> (round_even p <= round_even q)%Z.
Proof.
  intros H. pose proof (Qfloor_resp_le _ _ H) as F.
  pose proof (round_even_bounds p) as Bp. pose proof (round_even_bounds q) as Bq.
  destruct (Z.eq_dec (Qfloor p) (Qfloor q)) as [E|N]; [|lia].
  unfold round_even. rewrite E.
  destruct (p - inject_Z (Qfloor q) ?= 1 # 2) eqn:Cp;
    destruct (q - inject_Z (Qfloor q) ?= 1 # 2) eqn:Cq;
    try (destruct (Z.even (Qfloor q))); try lia; exfalso.
  all: compare_facts; lra.
Qed.

(** *** Powers of two *)

Lemma pow2_pos e : 0 < 2 ^ e.
Proof. now apply Qpower_0_lt. Qed.

Lemma pow2_add a b : 2 ^ (a + b) == 2 ^ a * 2 ^ b.
Proof. now apply Qpower_plus. Qed.

Lemma pow2_le a b : (a <= b)%Z -> 2 ^ a <= 2 ^ b.
Proof. intros H. now apply Qpower_le_compat_l. Qed.

Lemma pow2_lt a b : (a < b)%Z -> 2 ^ a < 2 ^ b.
Proof. intros H. now apply Qpower_lt_compat_l. Qed.

Lemma pow2_lt_inv a b : 2 ^ a < 2 ^ b -> (a < b)%Z.
Proof. intros H. now apply (Qpower_lt_compat_l_inv 2). Qed.

Lemma pow2_Z n : (0 <= n)%Z -> 2 ^ n == inject_Z (2 ^ n).
Proof. intros H. now rewrite Zpower_Qpower. Qed.

(** *** The binary exponent *)

Lemma Qabs_fraction q :
  Qabs q * inject_Z (Zpos (Qden q)) == inject_Z (Z.abs (Qnum q)).
Proof.
  destruct q as [n d]. unfold Qabs, Qeq, Qmult, inject_Z. cbn. lia.
Qed.

Lemma Qabs_zero p : Qabs p <= 0 -> p == 0.
Proof. apply Qabs_case; intros; lra. Qed.

Lemma exponent_rough q :
  ~ q == 0 ->
  let e := (Z.log2 (Z.abs (Qnum q)) - Z.log2 (Zpos (Qden q)))%Z in
  2 ^ (e - 1) < Qabs q /\ Qabs q < 2 ^ (e + 1).
Proof.
  intros Hq e.
  set (n := Z.abs (Qnum q)) in *. set (d := Zpos (Qden q)) in *.
  assert (Hn : (0 < n)%Z).
  { subst n. destruct q as [qn qd]. unfold Qeq in Hq. cbn in *. lia. }
  assert (Hd : (0 < d)%Z) by (subst d; lia).
  destruct (Z.log2_spec n Hn) as [Na Nb]. destruct (Z.log2_spec d Hd) as [Da Db].
  pose proof (Z.log2_nonneg n) as An. pose proof (Z.log2_nonneg d) as Ad.
  set (a := Z.log2 n) in *. set (b := Z.log2 d) in *.
  pose proof (Qabs_fraction q) as F. fold n d in F.
  rewrite Zle_Qle, <- pow2_Z in Na, Da by lia.
  rewrite Zlt_Qlt, <- pow2_Z in Nb, Db by lia.
  assert (E1 : 2 ^ (e - 1) * 2 ^ (Z.succ b) == 2 ^ a).
  { rewrite <- pow2_add. now replace (e - 1 + Z.succ b)%Z with a by (subst e; lia). }
  assert (E2 : 2 ^ (e + 1) * 2 ^ b == 2 ^ (Z.succ a)).
  { rewrite <- pow2_add. now replace (e + 1 + b)%Z with (Z.succ a) by (subst e; lia). }
  pose proof (pow2_pos (e - 1)) as P1. pose proof (pow2_pos (e + 1)) as P2.
  pose proof (pow2_pos b) as P3.
  assert (HD : 0 < inject_Z d) by (rewrite <- (Zlt_Qlt 0); exact Hd).
  split.
  - destruct (Qlt_le_dec (2 ^ (e - 1)) (Qabs q)) as [L|G]; [exact L|exfalso].
    assert (Qabs q * inject_Z d <= 2 ^ (e - 1) * inject_Z d)
      by (apply Qmult_le_compat_r; [exact G|now apply Qlt_le_weak]).
    assert (2 ^ (e - 1) * inject_Z d < 2 ^ (e - 1) * 2 ^ Z.succ b)
      by (apply Qmult_lt_l; assumption).
    lra.
  - destruct (Qlt_le_dec (Qabs q) (2 ^ (e + 1))) as [L|G]; [exact L|exfalso].
    assert (2 ^ (e + 1) * inject_Z d <= Qabs q * inject_Z d)
      by (apply Qmult_le_compat_r; [exact G|now apply Qlt_le_weak]).
    assert (2 ^ (e + 1) * 2 ^ b <= 2 ^ (e + 1) * inject_Z d)
      by (apply Qmult_le_l; assumption).
    lra.
Qed.

Lemma exponent_spec q :
  ~ q == 0 -> 2 ^ exponent q <= Qabs q /\ Qabs q < 2 ^ (exponent q + 1).
Proof.
  intros Hq. destruct (exponent_rough q Hq) as [L U]. unfold exponent.
  set (e := (Z.log2 (Z.abs (Qnum q)) - Z.log2 (Zpos (Qden q)))%Z) in *.
  destruct (Qle_bool (2 ^ e) (Qabs q)) eqn:E.
  - apply Qle_bool_iff in E. split; assumption.
  - split; [now apply Qlt_le_weak|].
    replace (e - 1 + 1)%Z with e by lia.
    apply Qnot_le_lt. intros H. apply Qle_bool_iff in H. congruence.
Qed.

Lemma exponent_unique q k :
  2 ^ k <= Qabs q -> Qabs q < 2 ^ (k + 1) -> exponent q = k.
Proof.
  intros L U.
  assert (Hq : ~ q == 0).
  { intros H. rewrite H in L. pose proof (pow2_pos k). cbn in L. lra. }
  destruct (exponent_spec q Hq) as [L' U'].
  assert (k < exponent q + 1)%Z by (apply pow2_lt_inv; lra).
  assert (exponent q < k + 1)%Z by (apply pow2_lt_inv; lra).
  lia.
Qed.

Lemma exponent_mono p q :
  ~ p == 0 -> Qabs p <= Qabs q -> (exponent p <= exponent q)%Z.
Proof.
  intros Hp H.
  assert (Hq : ~ q == 0).
  { intros E. rewrite E in H. apply Hp, Qabs_zero. exact H. }
  destruct (exponent_spec p Hp) as [Lp Up]. destruct (exponent_spec q Hq) as [Lq Uq].
  assert (exponent p < exponent q + 1)%Z by (apply pow2_lt_inv; lra).
  lia.
Qed.

(** *** Rounding to a multiple of the unit in the last place *)

Lemma nearest_le_grid q n :
  q <= inject_Z n * 2 ^ ulp_exponent q -> nearest q <= inject_Z n * 2 ^ ulp_exponent q.
Proof.
  intros H. unfold nearest. pose proof (pow2_pos (ulp_exponent q)) as P.
  apply Qmult_le_compat_r; [|now apply Qlt_le_weak].
  rewrite <- Zle_Qle. apply round_even_le_Z. now apply Qle_shift_div_r.
Qed.

Lemma nearest_ge_grid q n :
  inject_Z n * 2 ^ ulp_exponent q <= q -> inject_Z n * 2 ^ ulp_exponent q <= nearest q.
Proof.
  intros H. unfold nearest. pose proof (pow2_pos (ulp_exponent q)) as P.
  apply Qmult_le_compat_r; [|now apply Qlt_le_weak].
  rewrite <- Zle_Qle. apply round_even_ge_Z. now apply Qle_shift_div_l.
Qed.

(** A multiple of the unit in the last place is left as it is. *)
Lemma nearest_grid q n : q == inject_Z n * 2 ^ ulp_exponent q -> nearest q == q.
Proof.
  intros H. apply Qle_antisym.
  - rewrite H at 2. apply nearest_le_grid. rewrite <- H. apply Qle_refl.
  - rewrite H at 1. apply nearest_ge_grid. rewrite <- H. apply Qle_refl.
Qed.

Lemma pow2_on_grid k e : (e <= k)%Z -> 2 ^ k == inject_Z (2 ^ (k - e)) * 2 ^ e.
Proof.
  intros H. rewrite <- pow2_Z by lia. rewrite <- pow2_add.
  now replace (k - e + e)%Z with k by lia.
Qed.

Lemma ulp_exponent_mono p q :
  ~ p == 0 -> Qabs p <= Qabs q -> (ulp_exponent p <= ulp_exponent q)%Z.
Proof.
  intros Hp H. pose proof (exponent_mono p q Hp H). unfold ulp_exponent. lia.
Qed.

Lemma nearest_mono_same p q :
  ulp_exponent p = ulp_exponent q -> p <= q -> nearest p <= nearest q.
Proof.
  intros E H. unfold nearest. rewrite E. pose proof (pow2_pos (ulp_exponent q)) as P.
  apply Qmult_le_compat_r; [|now apply Qlt_le_weak].
  rewrite <- Zle_Qle. apply round_even_mono.
  unfold Qdiv. apply Qmult_le_compat_r; [exact H|].
  apply Qlt_le_weak, Qinv_lt_0_compat, P.
Qed.

Lemma nearest_mono_pos p q : 0 < p -> p <= q -> nearest p <= nearest q.
Proof.
  intros Hp H.
  assert (Np : ~ p == 0) by lra. assert (Nq : ~ q == 0) by lra.
  assert (Ap : Qabs p == p) by (apply Qabs_pos; lra).
  assert (Aq : Qabs q == q) by (apply Qabs_pos; lra).
  assert (HA : Qabs p <= Qabs q) by lra.
  pose proof (ulp_exponent_mono p q Np HA) as U.
  destruct (Z.eq_dec (ulp_exponent p) (ulp_exponent q)) as [E|N];
    [now apply nearest_mono_same|].
  pose proof (exponent_mono p q Np HA) as M.
  destruct (exponent_spec p Np) as [_ Up]. destruct (exponent_spec q Nq) as [Lq _].
  assert (Hlt : (exponent p < exponent q)%Z) by (unfold ulp_exponent in *; lia).
  assert (Hq : ulp_exponent q = (exponent q - 52)%Z) by (unfold ulp_exponent in *; lia).
  assert (Hp' : (ulp_exponent p <= exponent q)%Z) by (unfold ulp_exponent in *; lia).
  pose proof (pow2_le (exponent p + 1) (exponent q) ltac:(lia)) as B.
  apply Qle_trans with (2 ^ exponent q).
  - rewrite (pow2_on_grid (exponent q) (ulp_exponent p)) by exact Hp'.
    apply nearest_le_grid. rewrite <- pow2_on_grid by exact Hp'. lra.
  - rewrite (pow2_on_grid (exponent q) (ulp_exponent q)) by lia.
    apply nearest_ge_grid. rewrite <- pow2_on_grid by lia. lra.
Qed.

Lemma nearest_mono_neg p q : q < 0 -> p <= q -> nearest p <= nearest q.
Proof.
  intros Hq H.
  assert (Np : ~ p == 0) by lra. assert (Nq : ~ q == 0) by lra.
  assert (Ap : Qabs p == - p) by (apply Qabs_neg; lra).
  assert (Aq : Qabs q == - q) by (apply Qabs_neg; lra).
  assert (HA : Qabs q <= Qabs p) by lra.
  pose proof (ulp_exponent_mono q p Nq HA) as U.
  destruct (Z.eq_dec (ulp_exponent p) (ulp_exponent q)) as [E|N];
    [now apply nearest_mono_same|].
  pose proof (exponent_mono q p Nq HA) as M.
  destruct (exponent_spec p Np) as [Lp _]. destruct (exponent_spec q Nq) as [_ Uq].
  assert (Hlt : (exponent q < exponent p)%Z) by (unfold ulp_exponent in *; lia).
  assert (Hp : ulp_exponent p = (exponent p - 52)%Z) by (unfold ulp_exponent in *; lia).
  assert (Hq' : (ulp_exponent q <= exponent p)%Z) by (unfold ulp_exponent in *; lia).
  pose proof (pow2_le (exponent q + 1) (exponent p) ltac:(lia)) as B.
  assert (G : forall e, (e <= exponent p)%Z ->
            - 2 ^ exponent p == inject_Z (- 2 ^ (exponent p - e)) * 2 ^ e).
  { intros e He. rewrite (pow2_on_grid (exponent p) e He) at 1.
    rewrite inject_Z_opp. ring. }
  apply Qle_trans with (- 2 ^ exponent p).
  - rewrite (G (ulp_exponent p)) by lia.
    apply nearest_le_grid. rewrite <- G by lia. lra.
  - rewrite (G (ulp_exponent q)) by exact Hq'.
    apply nearest_ge_grid. rewrite <- G by exact Hq'. lra.
Qed.

Lemma nearest_nonneg q : 0 <= q -> 0 <= nearest q.
Proof.
  intros H. assert (E : 0 == inject_Z 0 * 2 ^ ulp_exponent q) by ring.
  rewrite E. apply nearest_ge_grid. now rewrite <- E.
Qed.

Lemma nearest_nonpos q : q <= 0 -> nearest q <= 0.
Proof.
  intros H. assert (E : 0 == inject_Z 0 * 2 ^ ulp_exponent q) by ring.
  rewrite E. apply nearest_le_grid. now rewrite <- E.
Qed.

(** Rounding keeps the order. *)
Lemma nearest_mono p q : p <= q -> nearest p <= nearest q.
Proof.
  intros H. destruct (Qlt_le_dec 0 p) as [Hp|Hp]; [now apply nearest_mono_pos|].
  destruct (Qlt_le_dec q 0) as [Hq|Hq]; [now apply nearest_mono_neg|].
  apply Qle_trans with 0; [now apply nearest_nonpos|now apply nearest_nonneg].
Qed.

(** *** Rounding to a double *)

Lemma round64_not_NaN q : round64 q <> NaN.
Proof.
  unfold round64. destruct (Qle_bool _ _); [destruct (Qle_bool _ _)|]; discriminate.
Qed.

Lemma round64_Fin q r :
  round64 q = Fin r -> r == nearest q /\ Qabs r < 2 ^ 1024.
Proof.
  unfold round64. destruct (Qle_bool (2 ^ 1024) (Qabs (nearest q))) eqn:E.
  - destruct (Qle_bool 0 q); discriminate.
  - intros [= <-]. pose proof (Qred_correct (nearest q)) as R.
    split; [exact R|]. setoid_rewrite R.
    apply Qnot_le_lt. intros H. apply Qle_bool_iff in H. congruence.
Qed.

Lemma round64_finite q :
  Qabs (nearest q) < 2 ^ 1024 -> round64 q = Fin (Qred (nearest q)).
Proof.
  intros H. unfold round64. destruct (Qle_bool (2 ^ 1024) (Qabs (nearest q))) eqn:E;
    [|reflexivity].
  apply Qle_bool_iff in E. lra.
Qed.

Lemma round64_PInf q : round64 q = PInf -> 0 <= q /\ 2 ^ 1024 <= nearest q.
Proof.
  unfold round64. destruct (Qle_bool (2 ^ 1024) (Qabs (nearest q))) eqn:E; [|discriminate].
  destruct (Qle_bool 0 q) eqn:S; [|discriminate]. intros _.
  apply Qle_bool_iff in E, S. split; [exact S|].
  now rewrite Qabs_pos in E by now apply nearest_nonneg.
Qed.

Lemma round64_NInf q : round64 q = NInf -> q < 0 /\ nearest q <= - 2 ^ 1024.
Proof.
  unfold round64. destruct (Qle_bool (2 ^ 1024) (Qabs (nearest q))) eqn:E; [|discriminate].
  destruct (Qle_bool 0 q) eqn:S; [discriminate|]. intros _.
  apply Qle_bool_iff in E.
  assert (Hq : q < 0).
  { apply Qnot_le_lt. intros H. apply Qle_bool_iff in H. congruence. }
  split; [exact Hq|].
  rewrite Qabs_neg in E by (apply nearest_nonpos; lra). lra.
Qed.

(** Rounding to a double keeps the order. *)
Lemma round64_mono p q : p <= q -> num_le (round64 p) (round64 q) = true.
Proof.
  intros H. pose proof (nearest_mono p q H) as M.
  pose proof (pow2_pos 1024) as P.
  destruct (round64 p) as [r| | |] eqn:Ep, (round64 q) as [s| | |] eqn:Eq;
    try reflexivity; try (now apply round64_not_NaN in Ep);
    try (now apply round64_not_NaN in Eq); cbn [num_le].
  - apply round64_Fin in Ep, Eq. apply Qle_bool_iff. lra.
  - exfalso. apply round64_Fin in Ep. apply round64_NInf in Eq.
    destruct Ep as [Er Hr]. rewrite Er in Hr.
    revert Hr. apply Qabs_case; intros; lra.
  - exfalso. apply round64_PInf in Ep. apply round64_Fin in Eq.
    destruct Eq as [Es Hs]. rewrite Es in Hs.
    revert Hs. apply Qabs_case; intros; lra.
  - exfalso. apply round64_PInf in Ep. apply round64_NInf in Eq. lra.
Qed.

(** A number that is not negative is not rounded to a negative one. *)
Lemma round64_nonneg q :
  0 <= q -> round64 q = PInf \/ exists r, round64 q = Fin r /\ 0 <= r.
Proof.
  intros H. destruct (round64 q) as [r| | |] eqn:E.
  - right. exists r. split; [reflexivity|]. apply round64_Fin in E.
    destruct E as [-> _]. now apply nearest_nonneg.
  - now left.
  - apply round64_NInf in E. lra.
  - now apply round64_not_NaN in E.
Qed.

(** *** Integers *)

Lemma Qred_inject_Z z : Qred (inject_Z z) = inject_Z z.
Proof.
  unfold Qred, inject_Z.
  pose proof (Z.ggcd_gcd z 1) as G. pose proof (Z.ggcd_correct_divisors z 1) as D.
  destruct (Z.ggcd z 1) as [g [aa bb]]. cbn [fst snd] in *.
  rewrite Z.gcd_1_r in G. subst g. destruct D as [Da Db].
  assert (aa = z) by lia. assert (bb = 1%Z) by lia. clear Da Db. now subst.
Qed.

Lemma Qabs_inject_Z z : Qabs (inject_Z z) = inject_Z (Z.abs z).
Proof. reflexivity. Qed.

(** An integer of at most 53 bits is a double. *)
Lemma round64_integer z :
  (Z.abs z <= 2 ^ 53)%Z -> round64 (inject_Z z) = Fin (inject_Z z).
Proof.
  intros H.
  assert (G : nearest (inject_Z z) == inject_Z z).
  { destruct (Z.eq_dec z 0) as [->|Nz]; [reflexivity|].
    assert (Hpos : (0 < Z.abs z)%Z) by lia.
    destruct (Z.log2_spec _ Hpos) as [La Lb]. pose proof (Z.log2_nonneg (Z.abs z)) as L0.
    set (k := Z.log2 (Z.abs z)) in *.
    assert (Hk : (k <= 53)%Z).
    { destruct (Z_le_gt_dec k 53) as [?|G]; [assumption|exfalso].
      pose proof (Z.pow_le_mono_r 2 54 k ltac:(lia) ltac:(lia)). lia. }
    assert (Ek : exponent (inject_Z z) = k).
    { apply exponent_unique; rewrite Qabs_inject_Z, pow2_Z by lia.
      - now rewrite <- Zle_Qle.
      - rewrite <- Zlt_Qlt. now replace (k + 1)%Z with (Z.succ k) by lia. }
    assert (Eu : ulp_exponent (inject_Z z) = (k - 52)%Z) by (unfold ulp_exponent; lia).
    destruct (Z.eq_dec k 53) as [E53|N53].
    - assert (Ez : Z.abs z = (2 ^ 53)%Z) by (rewrite E53 in La; lia).
      apply (nearest_grid _ (z / 2)). rewrite Eu, E53.
      assert (z = 2 ^ 53 \/ z = - 2 ^ 53)%Z as [-> | ->] by lia; reflexivity.
    - apply (nearest_grid _ (z * 2 ^ (52 - k))). rewrite Eu.
      rewrite inject_Z_mult, <- pow2_Z by lia. rewrite <- Qmult_assoc, <- pow2_add.
      replace (52 - k + (k - 52))%Z with 0%Z by lia. change (2 ^ 0) with 1. ring. }
  rewrite round64_finite.
  - now rewrite (Qred_complete _ _ G), Qred_inject_Z.
  - rewrite G, Qabs_inject_Z.
    apply Qle_lt_trans with (inject_Z (2 ^ 53)); [now rewrite <- Zle_Qle|].
    rewrite <- pow2_Z by lia. now apply pow2_lt.
Qed.

(** *** Doubles *)

Lemma finite_double_Fin q :
  finite_double (Fin q) = true ->
  exists r, round64 q = Fin r /\ r == q /\ nearest q == q.
Proof.
  unfold finite_double. destruct (round64 q) as [r| | |] eqn:E; try discriminate.
  cbn [num_eq]. intros H. apply Qeq_bool_iff in H.
  exists r. repeat split; auto. apply round64_Fin in E. destruct E as [E _].
  now rewrite <- E.
Qed.

Lemma round64_fixed q :
  nearest q == q -> Qabs q < 2 ^ 1024 -> finite_double (Fin q) = true.
Proof.
  intros N B. unfold finite_double. rewrite round64_finite by now rewrite N.
  cbn [num_eq]. apply Qeq_bool_iff. now rewrite Qred_correct.
Qed.

(** The finite doubles are the numbers [m * 2^e] with a mantissa [m] of at
    most 53 bits and an exponent [e] from -1074 to 971. *)
Lemma finite_double_iff q :
  finite_double (Fin q) = true
  <-> exists m e,
        q == inject_Z m * 2 ^ e /\ (Z.abs m < 2 ^ 53)%Z /\ (-1074 <= e <= 971)%Z.
Proof.
  split.
  - intros H. destruct (finite_double_Fin q H) as (r & R & Er & N).
    apply round64_Fin in R. destruct R as [_ B]. rewrite Er in B.
    destruct (Qeq_dec q 0) as [E0|N0].
    { exists 0%Z, 0%Z. split; [rewrite E0; reflexivity|]. split; [reflexivity|lia]. }
    destruct (exponent_spec q N0) as [L U].
    set (u := ulp_exponent q) in *. set (n := round_even (q / 2 ^ u)).
    assert (Hq : q == inject_Z n * 2 ^ u) by (symmetry; exact N).
    assert (HE : (exponent q < 1024)%Z) by (apply pow2_lt_inv; lra).
    exists n, u. split; [exact Hq|]. split; [|unfold u, ulp_exponent; lia].
    assert (A : Qabs q == inject_Z (Z.abs n) * 2 ^ u).
    { rewrite Hq, Qabs_Qmult, (Qabs_pos (2 ^ u)) by (apply Qlt_le_weak, pow2_pos).
      reflexivity. }
    pose proof (pow2_pos u) as Pu.
    assert (Hu : (exponent q + 1 <= 53 + u)%Z) by (unfold u, ulp_exponent; lia).
    pose proof (pow2_le _ _ Hu) as Le. rewrite (pow2_add 53 u) in Le.
    rewrite Zlt_Qlt, <- pow2_Z by lia.
    apply Qmult_lt_r with (2 ^ u); [exact Pu|].
    rewrite <- A. eapply Qlt_le_trans; [exact U|exact Le].
  - intros (m & e & Hq & Hm & He).
    assert (A : Qabs q == inject_Z (Z.abs m) * 2 ^ e).
    { rewrite Hq, Qabs_Qmult, (Qabs_pos (2 ^ e)) by (apply Qlt_le_weak, pow2_pos).
      reflexivity. }
    pose proof (pow2_pos e) as Pe.
    assert (Bm : Qabs q < 2 ^ 53 * 2 ^ e).
    { rewrite A. apply Qmult_lt_r; [exact Pe|].
      rewrite pow2_Z by lia. now rewrite <- Zlt_Qlt. }
    rewrite <- pow2_add in Bm.
    apply round64_fixed.
    + destruct (Qeq_dec q 0) as [E0|N0].
      { apply (nearest_grid _ 0). apply Qeq_trans with 0; [exact E0|ring]. }
      destruct (exponent_spec q N0) as [L U].
      assert (HE : (exponent q < 53 + e)%Z) by (apply pow2_lt_inv; lra).
      assert (Hu : (ulp_exponent q <= e)%Z) by (unfold ulp_exponent; lia).
      apply (nearest_grid _ (m * 2 ^ (e - ulp_exponent q))).
      rewrite inject_Z_mult, <- pow2_Z by lia.
      rewrite <- Qmult_assoc, <- pow2_add.
      now replace (e - ulp_exponent q + ulp_exponent q)%Z with e by lia.
    + apply Qlt_le_trans with (2 ^ (53 + e)); [exact Bm|]. apply pow2_le. lia.
Qed.

Lemma Qabs_twice q : Qabs (2 * q) == 2 * Qabs q.
Proof. rewrite Qabs_Qmult. reflexivity. Qed.

(** Twice a multiple of the unit in the last place is one as well. *)
Lemma nearest_twice q : nearest q == q -> nearest (2 * q) == 2 * q.
Proof.
  intros H. destruct (Qeq_dec q 0) as [E0|N].
  - apply (nearest_grid _ 0). apply Qeq_trans with 0; [lra|ring].
  - destruct (exponent_spec q N) as [L U].
    assert (E : exponent (2 * q) = (exponent q + 1)%Z).
    { apply exponent_unique; rewrite Qabs_twice, pow2_add;
        change (2 ^ 1) with 2; lra. }
    unfold nearest in H. set (n := round_even (q / 2 ^ ulp_exponent q)) in H.
    destruct (Z_le_gt_dec (-1074) (exponent q - 52)) as [A|B].
    + apply (nearest_grid _ n).
      replace (ulp_exponent (2 * q)) with (ulp_exponent q + 1)%Z
        by (unfold ulp_exponent; lia).
      rewrite pow2_add. change (2 ^ 1) with 2. rewrite <- H at 1. ring.
    + apply (nearest_grid _ (2 * n)).
      replace (ulp_exponent (2 * q)) with (ulp_exponent q)
        by (unfold ulp_exponent; lia).
      rewrite inject_Z_mult. rewrite <- H at 1. change (inject_Z 2) with 2. ring.
Qed.

Lemma num_le_Fin_l p p' b : p == p' -> num_le (Fin p) b = num_le (Fin p') b.
Proof.
  intros H. destruct b as [q| | |]; cbn [num_le]; try reflexivity.
  apply eq_true_iff_eq. rewrite !Qle_bool_iff. now rewrite H.
Qed.

Lemma num_le_Fin_r a q q' : q == q' -> num_le a (Fin q) = num_le a (Fin q').
Proof.
  intros H. destruct a as [p| | |]; cbn [num_le]; try reflexivity.
  apply eq_true_iff_eq. rewrite !Qle_bool_iff. now rewrite H.
Qed.

(** The midpoint of two doubles in order, computed as [0.5 * (a + c)], lies
    between them, as long as the sum does not overflow. *)
Lemma midpoint_between (a c : number) :
  finite_double a = true -> finite_double c = true ->
  is_finite (num_add a c) = true ->
  num_le a c = true ->
  num_le a (num_mul half (num_add a c)) = true
  /\ num_le (num_mul half (num_add a c)) c = true.
Proof.
  destruct a as [p| | |], c as [q| | |]; try discriminate. intros Da Dc.
  cbn [num_add]. destruct (round64 (p + q)) as [s| | |] eqn:Es; try discriminate.
  intros _ H. cbn [num_le] in H. apply Qle_bool_iff in H.
  apply round64_Fin in Es. destruct Es as [Es _].
  destruct (finite_double_Fin p Da) as (p' & Rp & Ep & Np).
  destruct (finite_double_Fin q Dc) as (q' & Rq & Eq & Nq).
  pose proof (nearest_twice p Np) as Tp. pose proof (nearest_twice q Nq) as Tq.
  assert (Lo : 2 * p <= s).
  { rewrite Es, <- Tp. apply nearest_mono. lra. }
  assert (Hi : s <= 2 * q).
  { rewrite Es, <- Tq. apply nearest_mono. lra. }
  unfold half. cbn [num_mul]. split.
  - rewrite (num_le_Fin_l p p') by now symmetry. rewrite <- Rp.
    apply round64_mono. lra.
  - rewrite (num_le_Fin_r _ q q') by now symmetry. rewrite <- Rq.
    apply round64_mono. lra.
Qed.

End Rounding.

(** ** The point of a place and its box *)

(** Where the sum overflows the midpoint is lost: the two doubles are
    [2^1023], their sum is Infinity. *)
Lemma midpoint_of_overflow :
  let a := Fin (inject_Z (2 ^ 1023)) in
  finite_double a = true
  /\ num_le a a = true
  /\ num_mul half (num_add a a) = PInf
  /\ num_le PInf a = false.
Proof. repeat split; vm_compute; reflexivity. Qed.

(** With one bound at minus infinity and the other at plus infinity the
    bounds are in order and the midpoint is NaN, which lies nowhere. *)
Lemma midpoint_of_unbounded :
  num_le NInf PInf = true
  /\ num_mul half (num_add NInf PInf) = NaN
  /\ num_le NInf NaN = false.
Proof. repeat split. Qed.

Lemma map_VNum_prefix (bbox : list number) b0 b1 b2 b3 rest :
  map VNum bbox = VNum b0 :: VNum b1 :: VNum b2 :: VNum b3 :: rest ->
  exists bbox', bbox = b0 :: b1 :: b2 :: b3 :: bbox'.
Proof.
  destruct bbox as [|c0 [|c1 [|c2 [|c3 bbox']]]]; cbn; try discriminate.
  intros [= -> -> -> -> _]. eauto.
Qed.

Lemma at_midpoint_within_intro (it : Item) b0 b1 b2 b3 :
  prop it "x" = VNum (num_mul half (num_add b0 b2)) ->
  prop it "y" = VNum (num_mul half (num_add b1 b3)) ->
  all_doubles b0 b1 b2 b3 -> sums_finite b0 b1 b2 b3 -> in_order b0 b1 b2 b3 ->
  at_midpoint_within it b0 b1 b2 b3.
Proof.
  intros Hx Hy (F0 & F1 & F2 & F3) (S02 & S13) (O02 & O13).
  destruct (midpoint_between b0 b2 F0 F2 S02 O02) as [? ?].
  destruct (midpoint_between b1 b3 F1 F3 S13 O13) as [? ?].
  eexists _, _. repeat split; eauto.
Qed.

Lemma uster_item_midpoint counter entry bbox :
  midpoint_of_finite_bbox (Uster.item counter entry bbox).
Proof.
  intros b0 b1 b2 b3 [rest Hb] HF HS HO. cbn in Hb. injection Hb as Hb.
  apply map_VNum_prefix in Hb. destruct Hb as [bbox' ->].
  apply at_midpoint_within_intro; auto.
Qed.

Lemma wolfsburg_item_midpoint counter entry bbox :
  midpoint_of_finite_bbox (Wolfsburg.item counter entry bbox).
Proof.
  intros b0 b1 b2 b3 [rest Hb] HF HS HO. cbn in Hb. injection Hb as Hb.
  apply map_VNum_prefix in Hb. destruct Hb as [bbox' ->].
  apply at_midpoint_within_intro; auto.
Qed.

Lemma glarus_feature_item_midpoint g f it :
  Glarus.feature_item g f = Ok it -> midpoint_of_finite_bbox it.
Proof.
  unfold Glarus.feature_item. destruct (Glarus.Feature.bbox f) as [bbox|]; [|discriminate].
  intros [= <-] b0 b1 b2 b3 [rest Hb] HF HS HO. cbn in Hb. injection Hb as Hb.
  apply map_VNum_prefix in Hb. destruct Hb as [bbox' ->].
  apply at_midpoint_within_intro; auto.
Qed.

Lemma glarus_more_item_midpoint k g : midpoint_of_finite_bbox (Glarus.more_item k g).
Proof. intros b0 b1 b2 b3 [rest Hb]. discriminate Hb. Qed.

Lemma num_value_VNum o b : num_value o = VNum b -> o = Some b.
Proof. destruct o; cbn; [intros [= ->]; reflexivity | discriminate]. Qed.

Lemma nominatim_item_midpoint entry text label bbox :
  midpoint_of_finite_bbox (Nominatim.item entry text label bbox).
Proof.
  intros b0 b1 b2 b3 [rest Hb] HF HS HO. cbn in Hb. injection Hb as Hb.
  destruct bbox as [|o0 [|o1 [|o2 [|o3 bbox']]]]; try discriminate Hb.
  cbn in Hb. injection Hb as H0 H1 H2 H3 _.
  apply num_value_VNum in H0, H1, H2, H3. subst.
  apply at_midpoint_within_intro; auto.
Qed.

Section PlaceMidpoint.

Variable Number_toString : number -> string.
Variable reprojectBbox : list number -> string -> string -> list number.
Variable toUpperCase : string -> string.
Variable THEMELAYER : value.
Variable toLowerCase : string -> string.

Let table : list (string * Provider) :=
  SearchProviders Number_toString reprojectBbox toUpperCase THEMELAYER toLowerCase.

Lemma glarus_items_midpoint obj requestId limit a :
  Glarus.glarusSearchResults obj requestId limit = Ok a ->
  all_items midpoint_of_finite_bbox (data (results_of a)).
Proof.
  apply glarusSearchResults_items.
  - apply glarus_feature_item_midpoint.
  - apply glarus_more_item_midpoint.
Qed.

Lemma onSearch_items_midpoint key p text requestId searchOptions net :
  In (key, p) table -> In key midpoint_providers ->
  deliveries_satisfy midpoint_of_finite_bbox
    (trace (onSearch p text requestId searchOptions net)).
Proof.
  unfold table, SearchProviders, midpoint_providers. cbn [In].
  intros H K.
  repeat (destruct H as [H|H];
          [inversion H; subst; clear H; cbn [onSearch]|]);
    [ | | | | | | | destruct H];
    try (exfalso; repeat (destruct K as [K|K]; [discriminate K|]); exact K).
  - rewrite usterSearch_trace.
    destruct (uster_search net text); [|apply deliveries_satisfy_nil].
    apply deliveries_satisfy_one. apply usterSearchResults_items.
    apply uster_item_midpoint.
  - rewrite wolfsburgSearch_trace.
    destruct (wolfsburg_search net text); [|apply deliveries_satisfy_nil].
    apply deliveries_satisfy_one. apply wolfsburgSearchResults_items.
    apply wolfsburg_item_midpoint.
  - rewrite glarusSearch_trace.
    destruct (glarus_search net text) as [d|e]; [|apply deliveries_satisfy_empty].
    destruct (Glarus.glarusSearchResults _ _ _) as [a|e] eqn:E;
      [|apply deliveries_satisfy_empty].
    apply deliveries_satisfy_one. eapply glarus_items_midpoint; eauto.
  - rewrite nominatimSearch_trace.
    destruct (nominatim_search net text) as [d|e]; [|apply deliveries_satisfy_nil].
    destruct (Nominatim.nominatimSearchResults _ _ _) as [a|e] eqn:E;
      [|apply deliveries_satisfy_nil].
    apply deliveries_satisfy_one.
    eapply nominatimSearchResults_items; [|exact E]. apply nominatim_item_midpoint.
Qed.

Lemma getMoreResults_items_midpoint key p more moreItem text requestId net :
  In (key, p) table ->
  getMoreResults p = Some more ->
  deliveries_satisfy midpoint_of_finite_bbox (trace (more moreItem text requestId net)).
Proof.
  unfold table, SearchProviders. cbn [In].
  intros H.
  repeat (destruct H as [H|H];
          [inversion H; subst; clear H; cbn [getMoreResults]; try discriminate|]);
    [ | destruct H].
  intros M; inversion M; subst; clear M.
  rewrite glarusMoreResults_trace.
  destruct (glarus_more net moreItem text) as [d|e]; [|apply deliveries_satisfy_empty].
  destruct (Glarus.glarusSearchResults _ _ _) as [a|e] eqn:E;
    [|apply deliveries_satisfy_empty].
  apply deliveries_satisfy_one. eapply glarus_items_midpoint; eauto.
Qed.

(** C7, amended.  For the uster, wolfsburg, glarus and nominatim providers,
    every delivered item whose box (after the reordering that the nominatim
    provider applies) consists of finite doubles with [bbox[0] <= bbox[2]]
    and [bbox[1] <= bbox[3]], and whose sums [bbox[0] + bbox[2]] and
    [bbox[1] + bbox[3]] do not overflow, has its point at the midpoint of the
    box as the code computes it, [x = 0.5 * (bbox[0] + bbox[2])] and
    [y = 0.5 * (bbox[1] + bbox[3])] with the sum and the product each rounded
    to a double, and this point lies within the box. *)
Theorem place_at_midpoint_of_finite_bbox (p : Provider) (key text : string)
    (requestId : value) (searchOptions : SearchOptions) (net : Network) :
  provider_named table key = Some p ->
  In key midpoint_providers ->
  deliveries_satisfy midpoint_of_finite_bbox
    (trace (onSearch p text requestId searchOptions net))
  /\ (forall more moreItem,
        getMoreResults p = Some more ->
        deliveries_satisfy midpoint_of_finite_bbox
          (trace (more moreItem text requestId net))).
Proof.
  intros H K. apply provider_named_In in H. split.
  - eapply onSearch_items_midpoint; eauto.
  - intros more moreItem Hm. eapply getMoreResults_items_midpoint; eauto.
Qed.

End PlaceMidpoint.

Lemma place_at_midpoint_of_finite_bbox_witness :
  exists p,
    provider_named sample_table "nominatim" = Some p
    /\ In "nominatim" midpoint_providers
    /\ deliveries_satisfy midpoint_of_finite_bbox
         (trace (onSearch p "bern" (VNum (num_of_Z 7)) sample_options sample_network))
    /\ (forall more moreItem,
          getMoreResults p = Some more ->
          deliveries_satisfy midpoint_of_finite_bbox
            (trace (more moreItem "bern" (VNum (num_of_Z 7)) sample_network))).
Proof.
  eexists. split; [reflexivity|].
  split; [cbn; tauto|].
  apply (place_at_midpoint_of_finite_bbox sample_Number_toString sample_reprojectBbox
           sample_toUpperCase sample_THEMELAYER sample_toLowerCase _ "nominatim").
  - reflexivity.
  - cbn. tauto.
Defined.

(** The item delivered for [sample_nominatim_entry] is one to which C7
    applies: its box holds finite doubles in order, and the sums are finite. *)
Example place_at_midpoint_sample :
  exists it b0 b1 b2 b3,
    delivered_items
      (trace (Nominatim.nominatimSearch sample_toUpperCase "bern" (VNum (num_of_Z 7))
                sample_options (Ok (Some [sample_nominatim_entry]))))
    = [it]
    /\ has_bbox it b0 b1 b2 b3
    /\ all_doubles b0 b1 b2 b3
    /\ sums_finite b0 b1 b2 b3
    /\ in_order b0 b1 b2 b3.
Proof.
  do 5 eexists. split; [vm_compute; reflexivity|].
  split; [exists []; reflexivity|].
  repeat split; vm_compute; reflexivity.
Qed.

(** C7 fails as stated: the bounds of the box delivered for
    [sample_unbounded_entry] are in order, and the point of the item is not
    within the box (its [x] is NaN). *)
Lemma midpoint_outside_unbounded_bbox :
  ~ deliveries_satisfy midpoint_of_ordered_bbox
      (trace (Nominatim.nominatimSearch sample_toUpperCase "earth" (VNum (num_of_Z 7))
                sample_options (Ok (Some [sample_unbounded_entry])))).
Proof.
  intros H.
  specialize (H _ (or_introl eq_refl)).
  inversion H as [|g gs Hg _]; subst.
  inversion Hg as [|it its Hit _]; subst.
  destruct (Hit NInf (num_of_Z (-90)) PInf (num_of_Z 90)) as (x & y & Hx & _ & _ & _ & Hle & _).
  - exists []. reflexivity.
  - split; reflexivity.
  - cbn in Hx. injection Hx as <-. discriminate Hle.
Qed.

(** ** Groups of the uster and wolfsburg answers *)

Section Grouping.

Variable E : Type.
Variable bbox_of : E -> option (list number).
Variable mk_group : nat -> E -> ResultGroup.
Variable mk_item : nat -> E -> list number -> Item.
Hypothesis mk_group_empty : forall n e, items (mk_group n e) = [].

Local Abbreviation grouping_step := (grouping_step bbox_of mk_group mk_item).
Local Abbreviation grouping := (grouping bbox_of mk_group mk_item).
Local Abbreviation is_header := (is_header bbox_of).
Local Abbreviation has_box := (has_box bbox_of).
Local Abbreviation headers := (headers bbox_of).
Local Abbreviation from_first_header := (from_first_header bbox_of).
Local Abbreviation emitted := (emitted bbox_of).
Local Abbreviation at_header := (at_header bbox_of).
Local Abbreviation segment_items := (segment_items bbox_of mk_item).

Lemma push_item_last rs g it :
  push_item (rs ++ [g]) (List.length rs) it = rs ++ [with_items g (items g ++ [it])].
Proof. induction rs as [|r rs IH]; cbn; [reflexivity | now rewrite IH]. Qed.

Lemma with_items_with_items g its its' :
  with_items (with_items g its) its' = with_items g its'.
Proof. reflexivity. Qed.

Lemma with_items_mk_group n e : with_items (mk_group n e) [] = mk_group n e.
Proof.
  unfold with_items. rewrite <- (mk_group_empty n e). now destruct (mk_group n e).
Qed.

(** A run of entries with a bbox extends the current group, which is the
    last one. *)
Lemma fold_segment seg : forall rs g its gc c,
  forallb has_box seg = true ->
  fold_left grouping_step seg
    {| results := rs ++ [with_items g its]; currentgroup := Some (List.length rs);
       groupcounter := gc; counter := c |}
  = {| results := rs ++ [with_items g (its ++ segment_items c seg)];
       currentgroup := Some (List.length rs);
       groupcounter := gc; counter := c + List.length seg |}.
Proof.
  induction seg as [|e seg IH]; intros rs g its gc c Hseg; cbn [fold_left].
  - cbn. now rewrite app_nil_r, Nat.add_0_r.
  - cbn in Hseg. apply andb_true_iff in Hseg. destruct Hseg as [He Hseg].
    unfold has_box, is_header in He. unfold grouping_step at 2. cbn [segment_items].
    destruct (bbox_of e) as [bbox|]; [|discriminate].
    cbn [currentgroup results counter groupcounter].
    rewrite push_item_last, with_items_with_items. cbn [items with_items].
    rewrite IH by exact Hseg. cbn [List.length].
    rewrite <- app_assoc, Nat.add_succ_r. reflexivity.
Qed.

(** Without a current group, entries with a bbox leave the state as it is. *)
Lemma fold_dropped pre : forall rs gc c,
  forallb has_box pre = true ->
  fold_left grouping_step pre
    {| results := rs; currentgroup := None; groupcounter := gc; counter := c |}
  = {| results := rs; currentgroup := None; groupcounter := gc; counter := c |}.
Proof.
  induction pre as [|e pre IH]; intros rs gc c Hpre; cbn [fold_left]; [reflexivity|].
  cbn in Hpre. apply andb_true_iff in Hpre. destruct Hpre as [He Hpre].
  unfold has_box, is_header in He. unfold grouping_step at 2.
  destruct (bbox_of e); [|discriminate]. cbn [currentgroup]. now apply IH.
Qed.

Lemma push_item_firstn rs : forall n k it,
  n <= k -> firstn n (push_item rs k it) = firstn n rs.
Proof.
  induction rs as [|g rs IH]; intros n k it Hnk; [reflexivity|].
  destruct k as [|k].
  - assert (n = 0) as -> by lia. reflexivity.
  - destruct n as [|n]; [reflexivity|]. cbn. f_equal. apply IH. lia.
Qed.

Lemma push_item_length rs : forall k it,
  List.length (push_item rs k it) = List.length rs.
Proof.
  induction rs as [|g rs IH]; intros k it; [reflexivity|].
  destruct k; cbn; auto.
Qed.

Lemma step_settled n st e :
  n <= List.length (results st) -> beyond n st ->
  firstn n (results (grouping_step st e)) = firstn n (results st)
  /\ n <= List.length (results (grouping_step st e))
  /\ beyond n (grouping_step st e).
Proof.
  intros Hn (k & Hk & Hnk). unfold grouping_step.
  destruct (bbox_of e) as [bbox|]; [rewrite Hk|]; cbn [results currentgroup].
  - rewrite push_item_firstn, push_item_length by exact Hnk.
    repeat split; auto. exists k. auto.
  - rewrite firstn_app, length_app.
    replace (n - List.length (results st)) with 0 by lia.
    cbn [firstn]. rewrite app_nil_r. repeat split; [lia|].
    exists (List.length (results st)). split; [reflexivity | lia].
Qed.

Lemma fold_settled l : forall n st,
  n <= List.length (results st) -> beyond n st ->
  firstn n (results (fold_left grouping_step l st)) = firstn n (results st).
Proof.
  induction l as [|e l IH]; intros n st Hn Hb; cbn [fold_left]; [reflexivity|].
  destruct (step_settled n st e Hn Hb) as (Hf & Hn' & Hb').
  rewrite IH by assumption. exact Hf.
Qed.

(** After a header, what follows leaves the groups before it alone. *)
Lemma fold_after_header after : forall st,
  at_header after ->
  firstn (List.length (results st)) (results (fold_left grouping_step after st))
  = results st.
Proof.
  destruct after as [|h after]; intros st Hh; cbn [fold_left].
  - apply firstn_all.
  - cbn in Hh. unfold is_header in Hh.
    destruct (bbox_of h) as [bbox|] eqn:Eh; [discriminate|].
    rewrite fold_settled.
    + unfold grouping_step. rewrite Eh. cbn [results].
      rewrite firstn_app, Nat.sub_diag, firstn_all. cbn. apply app_nil_r.
    + unfold grouping_step. rewrite Eh. cbn [results]. rewrite length_app. lia.
    + unfold grouping_step. rewrite Eh. eexists. split; [reflexivity|lia].
Qed.

(** *** The counters *)

Lemma headers_app l l' : headers (l ++ l') = headers l + headers l'.
Proof. unfold headers. now rewrite filter_app, length_app. Qed.

Lemma from_first_header_app l l' :
  from_first_header (l ++ l')
  = if headers l =? 0 then from_first_header l' else from_first_header l ++ l'.
Proof.
  induction l as [|e l IH]; [reflexivity|].
  unfold headers in *. cbn. destruct (is_header e); [reflexivity | exact IH].
Qed.

Lemma from_first_header_headers l : headers (from_first_header l) = headers l.
Proof.
  induction l as [|e l IH]; [reflexivity|].
  unfold headers in *. cbn. destruct (is_header e) eqn:He; [|exact IH].
  cbn. now rewrite He.
Qed.

Lemma from_first_header_nil l : headers l = 0 -> from_first_header l = [].
Proof.
  induction l as [|x l IH]; [reflexivity|].
  unfold headers in *. cbn. destruct (is_header x); [discriminate | exact IH].
Qed.

Lemma emitted_without_header l : headers l = 0 -> emitted l = 0.
Proof. intros H. unfold emitted. now rewrite from_first_header_nil. Qed.

Lemma headers_snoc l e :
  headers (l ++ [e]) = headers l + (if is_header e then 1 else 0).
Proof.
  rewrite headers_app. f_equal. unfold headers. cbn. now destruct (is_header e).
Qed.

Lemma emitted_snoc l e :
  emitted (l ++ [e])
  = if is_header e then emitted l
    else if headers l =? 0 then 0 else S (emitted l).
Proof.
  unfold emitted. rewrite from_first_header_app.
  destruct (headers l =? 0) eqn:E0.
  - apply Nat.eqb_eq in E0. rewrite (from_first_header_nil l E0).
    cbn. unfold has_box. destruct (is_header e) eqn:He; cbn; [|reflexivity].
    now rewrite He.
  - rewrite filter_app, length_app. cbn. unfold has_box at 2.
    destruct (is_header e); cbn; lia.
Qed.

(** The state reached from the start after the entries [l]. *)
Lemma fold_counters l :
  let st := fold_left grouping_step l grouping_init in
  List.length (results st) = headers l
  /\ groupcounter st = headers l
  /\ counter st = emitted l
  /\ currentgroup st = (if headers l =? 0 then None else Some (headers l - 1)).
Proof.
  induction l as [|e l IH] using rev_ind; [repeat split|].
  rewrite fold_left_app. cbn [fold_left].
  set (st := fold_left grouping_step l grouping_init) in *.
  cbv zeta in IH. destruct IH as (HL & HG & HC & HK). cbv zeta.
  rewrite headers_snoc, emitted_snoc. unfold grouping_step, is_header.
  destruct (bbox_of e) as [bbox|] eqn:Ee.
  - rewrite Nat.add_0_r, HK. destruct (headers l =? 0) eqn:E0.
    + apply Nat.eqb_eq in E0. rewrite (emitted_without_header l E0) in HC.
      repeat split; auto.
    + cbn [results groupcounter counter currentgroup].
      rewrite push_item_length. repeat split; auto.
  - cbn [results groupcounter counter currentgroup].
    rewrite length_app. cbn [List.length].
    replace (headers l + 1 =? 0) with false by (symmetry; apply Nat.eqb_neq; lia).
    repeat split; try lia. f_equal. lia.
Qed.

(** *** The three facts about the groups *)

(** Entries with a bbox that come before any header leave no trace. *)
Lemma grouping_drops_leading pre rest :
  forallb has_box pre = true -> grouping (pre ++ rest) = grouping rest.
Proof.
  intros H. unfold grouping. rewrite fold_left_app.
  unfold grouping_init. now rewrite fold_dropped.
Qed.

Lemma grouping_without_header entries :
  forallb has_box entries = true -> grouping entries = [].
Proof.
  intros H. unfold grouping, grouping_init. now rewrite fold_dropped.
Qed.

Lemma grouping_length entries : List.length (grouping entries) = headers entries.
Proof. apply (fold_counters entries). Qed.

(** The header [h] opens the group whose position is the number of headers
    before it, and the items of that group are those of the entries between
    [h] and the next header. *)
Lemma grouping_segment before h seg after :
  is_header h = true -> forallb has_box seg = true -> at_header after ->
  nth_error (grouping (before ++ h :: seg ++ after)) (headers before)
  = Some (with_items (mk_group (headers before) h)
            (segment_items (emitted before) seg)).
Proof.
  intros Hh Hseg Hafter. unfold grouping.
  rewrite fold_left_app. cbn [fold_left]. rewrite fold_left_app.
  destruct (fold_counters before) as (HL & HG & HC & _).
  set (st0 := fold_left grouping_step before grouping_init) in *.
  assert (Hst1 : grouping_step st0 h
                 = {| results := results st0 ++ [with_items (mk_group (headers before) h) []];
                      currentgroup := Some (List.length (results st0));
                      groupcounter := S (headers before);
                      counter := emitted before |}).
  { unfold grouping_step. unfold is_header in Hh.
    destruct (bbox_of h); [discriminate|].
    now rewrite with_items_mk_group, HG, HC. }
  rewrite Hst1, fold_segment by exact Hseg. cbn [app].
  match goal with |- nth_error (results (fold_left _ _ ?st2)) _ = _ =>
    pose proof (fold_after_header after st2 Hafter) as Hfix;
    set (st3 := fold_left grouping_step after st2) in *
  end.
  cbn [results] in Hfix.
  rewrite <- (firstn_skipn (List.length (results st0 ++
             [with_items (mk_group (headers before) h)
                (segment_items (emitted before) seg)])) (results st3)).
  rewrite Hfix, <- HL, <- app_assoc.
  rewrite nth_error_app2 by lia. rewrite Nat.sub_diag. reflexivity.
Qed.

End Grouping.

Lemma grouping_groups_by_header {E : Type} (bbox_of : E -> option (list number))
    (mk_group : nat -> E -> ResultGroup) (mk_item : nat -> E -> list number -> Item) :
  (forall n e, items (mk_group n e) = []) ->
  groups_by_header bbox_of mk_group mk_item (grouping bbox_of mk_group mk_item).
Proof.
  intros H. repeat split.
  - apply grouping_drops_leading.
  - now apply grouping_segment.
  - apply grouping_length.
  - apply grouping_without_header.
Qed.

Lemma uster_groups_grouping requestId entries :
  uster_groups requestId entries
  = grouping Uster.Entry.bbox Uster.group Uster.item entries.
Proof. reflexivity. Qed.

Lemma wolfsburg_groups_grouping requestId entries :
  wolfsburg_groups requestId entries
  = grouping Wolfsburg.Entry.bbox Wolfsburg.group Wolfsburg.item entries.
Proof. reflexivity. Qed.

(** An answer without [results] yields no group either. *)
Lemma no_results_no_groups requestId :
  data (results_of
          (Uster.usterSearchResults {| Uster.Response.results := None |} requestId)) = []
  /\ data (results_of
             (Wolfsburg.wolfsburgSearchResults
                {| Wolfsburg.Response.results := None |} requestId)) = [].
Proof. split; reflexivity. Qed.

(** C10.  In [usterSearchResults] and [wolfsburgSearchResults], the entries
    with a bbox that precede any header are dropped without a trace; every
    item sits in the group opened by the nearest header before its entry,
    each group holding exactly the items of the entries between its header
    and the next one; and a payload made of entries with a bbox only yields
    no group. *)
Theorem items_grouped_by_preceding_header (requestId : value) :
  groups_by_header Uster.Entry.bbox Uster.group Uster.item (uster_groups requestId)
  /\ groups_by_header Wolfsburg.Entry.bbox Wolfsburg.group Wolfsburg.item
       (wolfsburg_groups requestId).
Proof.
  split.
  - apply (grouping_groups_by_header Uster.Entry.bbox Uster.group Uster.item).
    reflexivity.
  - apply (grouping_groups_by_header Wolfsburg.Entry.bbox Wolfsburg.group Wolfsburg.item).
    reflexivity.
Qed.

Lemma items_grouped_by_preceding_header_witness :
  nth_error
    (uster_groups (VNum (num_of_Z 7))
       (sample_uster_before ++ sample_uster_header "Addresses"
          :: sample_uster_segment ++ sample_uster_after)) 1
  = Some {| id := VStr "ustergroup1"; title := VStr "Addresses";
            titlemsgid := VUndefined;
            items := [Uster.item 1 (sample_uster_entry "Bahnhofstrasse 1" 696100 244100)
                        [num_of_Z 696100; num_of_Z 244100;
                         num_of_Z 696200; num_of_Z 244150];
                      Uster.item 2 (sample_uster_entry "Bahnhofstrasse 2" 696200 244200)
                        [num_of_Z 696200; num_of_Z 244200;
                         num_of_Z 696300; num_of_Z 244250]] |}.
Proof.
  exact (proj1 (proj2 (proj1 (items_grouped_by_preceding_header (VNum (num_of_Z 7)))))
           sample_uster_before (sample_uster_header "Addresses")
           sample_uster_segment sample_uster_after eq_refl eq_refl eq_refl).
Defined.

(** * Further properties *)

(** ** What the patterns let through *)

Lemma rmatch_run r : forall b s c k res,
  rmatch r b s c k = Some res ->
  exists b' s' c', run r b s c b' s' c' /\ k b' s' c' = Some res.
Proof.
  induction r as [|p|r1 IH1 r2 IH2|r1 IH1 r2 IH2|r1 IH1|i r1 IH1| |];
    intros b s c k res H; cbn in H.
  - eauto 12 using run.
  - destruct s as [|a s']; [discriminate|].
    destruct (p a) eqn:E; [|discriminate]. eauto 12 using run.
  - apply IH1 in H. destruct H as (b1 & s1 & c1 & R1 & H).
    apply IH2 in H. destruct H as (b2 & s2 & c2 & R2 & H). eauto 12 using run.
  - destruct (rmatch r1 b s c k) eqn:E.
    + injection H as <-. apply IH1 in E. destruct E as (b' & s' & c' & R & E).
      eauto 12 using run.
    + apply IH2 in H. destruct H as (b' & s' & c' & R & E'). eauto 12 using run.
  - remember (List.length s) as fuel eqn:Ef. clear Ef.
    revert b s c H. induction fuel as [|fuel IHf]; intros b s c H.
    + eauto 12 using run.
    + cbn in H.
      match type of H with
      | match ?m with _ => _ end = _ => destruct m eqn:E
      end.
      * injection H as <-. apply IH1 in E. destruct E as (b1 & s1 & c1 & R1 & E).
        match type of E with
        | (if ?t then _ else _) = _ => destruct t; [|discriminate]
        end.
        apply IHf in E. destruct E as (b2 & s2 & c2 & R2 & E). eauto 12 using run.
      * eauto 12 using run.
  - apply IH1 in H. destruct H as (b' & s' & c' & R & H). eauto 12 using run.
  - destruct b; [|discriminate]. eauto 12 using run.
  - destruct s; [|discriminate]. eauto 12 using run.
Qed.

Lemma run_suffix r b s c b' s' c' :
  run r b s c b' s' c' -> exists w, s = w ++ s'.
Proof.
  induction 1; try (now exists []).
  - now exists [a].
  - destruct IHrun1 as [w1 ->], IHrun2 as [w2 ->]. exists (w1 ++ w2).
    now rewrite app_assoc.
  - assumption.
  - assumption.
  - destruct IHrun1 as [w1 ->], IHrun2 as [w2 ->]. exists (w1 ++ w2).
    now rewrite app_assoc.
  - assumption.
Qed.

Lemma run_captures r b s c b' s' c' :
  run r b s c b' s' c' -> ngroups r = 0 -> c' = c.
Proof.
  intros R Hn. induction R; cbn in Hn; try reflexivity; try discriminate.
  - rewrite IHR2, IHR1; auto; lia.
  - apply IHR; lia.
  - apply IHR; lia.
  - rewrite IHR2, IHR1; auto.
Qed.

Lemma firstn_consumed {A} (w s' : list A) :
  firstn (List.length (w ++ s') - List.length s') (w ++ s') = w.
Proof.
  rewrite length_app, Nat.add_sub. 
  rewrite firstn_app, Nat.sub_diag, firstn_all. cbn. now rewrite app_nil_r.
Qed.

Lemma search_run r : forall s bos c,
  search r bos s = Some c ->
  exists b s0 b' s' , run (Group 0 r) b s0 [] b' s' c.
Proof.
  induction s as [|a s IH]; intros bos c H; cbn [search] in H.
  - destruct (rmatch (Group 0 r) bos [] [] (fun _ _ c => Some c)) eqn:E; [|discriminate].
    injection H as <-. apply rmatch_run in E.
    destruct E as (b' & s' & c' & R & [= <-]). eauto.
  - destruct (rmatch (Group 0 r) bos (a :: s) [] (fun _ _ c => Some c)) eqn:E.
    + injection H as <-. apply rmatch_run in E.
      destruct E as (b' & s' & c' & R & [= <-]). eauto.
    + eauto.
Qed.

Lemma run_star_chr p b s c b' s' c' :
  run (Star (Chr p)) b s c b' s' c' -> c' = c /\ exists w, s = w ++ s'.
Proof.
  intros R. split.
  - eapply run_captures; [eassumption|reflexivity].
  - eapply run_suffix; eauto.
Qed.

Lemma run_decimal_re b s c b' s' c' :
  run GeoAdmin.decimal_re b s c b' s' c' ->
  c' = c /\ exists w, s = w ++ s' /\ decimal_text w.
Proof.
  intros R. split; [eapply run_captures; [eassumption|reflexivity]|].
  unfold GeoAdmin.decimal_re, Cat, Plus, Opt in R. cbn [fold_right] in R.
  inversion R as [| |r1 r2 b0 s0 c0 b1 s1 c1 b2 s2 c2 R1 R2| | | | | | |]; subst; clear R.
  apply run_suffix in R2. destruct R2 as [w2 ->].
  inversion R1 as [| |r1 r2 b0 s0 c0 b3 s3 c3 b4 s4 c4 R3 R4| | | | | | |]; subst; clear R1.
  apply run_suffix in R4. destruct R4 as [w4 ->].
  inversion R3; subst.
  exists (a :: w4 ++ w2). split.
  - cbn. now rewrite <- app_assoc.
  - red. eauto.
Qed.

Lemma run_number_re b s c b' s' c' :
  run Coordinates.number_re b s c b' s' c' ->
  c' = c /\ exists w, s = w ++ s' /\ signed_decimal_text w.
Proof.
  intros R. split; [eapply run_captures; [eassumption|reflexivity]|].
  unfold Coordinates.number_re, Cat, Plus, Opt in R. cbn [fold_right] in R.
  inversion R as [| |r1 r2 b0 s0 c0 b1 s1 c1 b2 s2 c2 R1 R2| | | | | | |]; subst; clear R.
  assert (D : exists w, s1 = w ++ s' /\ decimal_text w).
  { inversion R2 as [| |r1 r2 b0 s0 c0 b3 s3 c3 b4 s4 c4 R3 R4| | | | | | |]; subst; clear R2.
    apply run_suffix in R4. destruct R4 as [w4 ->].
    inversion R3 as [| |r1 r2 b0 s0 c0 b5 s5 c5 b6 s6 c6 R5 R6| | | | | | |]; subst; clear R3.
    apply run_suffix in R6. destruct R6 as [w6 ->].
    inversion R5; subst.
    exists (a :: w6 ++ w4). split; [cbn; now rewrite <- app_assoc|red; eauto]. }
  destruct D as (w & -> & D).
  inversion R1 as [| | |r1 r2 b0 s0 c0 b3 s3 c3 R3|r1 r2 b0 s0 c0 b3 s3 c3 R3| | | | |];
    subst; clear R1.
  - inversion R3; subst. exists (a :: w). split; [reflexivity|].
    right. exists a, w. auto.
  - inversion R3; subst. exists w. split; [reflexivity|now left].
Qed.

(** Inversion of a run of a pattern made of sequences, classes, stars of
    classes and the two number patterns in capturing parentheses. *)
Ltac invert_run :=
  repeat match goal with
         | H : run (Seq _ _) _ _ _ _ _ _ |- _ => inversion H; subst; clear H
         | H : run (Chr _) _ _ _ _ _ _ |- _ => inversion H; subst; clear H
         | H : run Eps _ _ _ _ _ _ |- _ => inversion H; subst; clear H
         | H : run Bos _ _ _ _ _ _ |- _ => inversion H; subst; clear H
         | H : run Eos _ _ _ _ _ _ |- _ => inversion H; subst; clear H
         | H : run (Star (Chr _)) _ _ _ _ _ _ |- _ =>
             apply run_star_chr in H; destruct H as [-> _]
         | H : run (Group _ _) _ _ _ _ _ _ |- _ => inversion H; subst; clear H
         | H : run GeoAdmin.decimal_re _ _ _ _ _ _ |- _ =>
             apply run_decimal_re in H; destruct H as (-> & ? & -> & ?)
         | H : run Coordinates.number_re _ _ _ _ _ _ |- _ =>
             apply run_number_re in H; destruct H as (-> & ? & -> & ?)
         end.

(** A property of characters that holds of each of the 256 code units. *)
Lemma ascii_forall (P : ascii -> bool) :
  forallb (fun n => P (ascii_of_nat n)) (seq 0 256) = true -> forall a, P a = true.
Proof.
  intros H a. rewrite forallb_forall in H. rewrite <- (ascii_nat_embedding a).
  apply H. apply in_seq. pose proof (nat_ascii_bounded a). lia.
Qed.

Lemma digit_class d :
  is_digit d = true ->
  is_space d = false /\ is_char "-" d = false /\ is_char "+" d = false
  /\ Ascii.eqb "I" d = false.
Proof.
  intros H.
  pose proof (ascii_forall
                (fun d => implb (is_digit d)
                            (negb (is_space d) && negb (is_char "-" d)
                             && negb (is_char "+" d) && negb (Ascii.eqb "I" d)))
                ltac:(vm_compute; reflexivity) d) as G.
  cbv beta in G. rewrite H in G. cbn [implb] in G.
  rewrite !andb_true_iff, !negb_true_iff in G. tauto.
Qed.

Lemma digits_value_nonneg ds : (0 <= digits_value ds)%Z.
Proof.
  unfold digits_value.
  assert (G : forall acc, (0 <= acc)%Z ->
            (0 <= fold_left (fun acc d => (10 * acc + Z.of_nat (nat_of_ascii d - 48))%Z)
                    ds acc)%Z).
  { induction ds as [|d ds IH]; intros acc Ha; cbn [fold_left]; [assumption|].
    apply IH. lia. }
  apply G. lia.
Qed.

Lemma scale10_nonneg m e : (0 <= m)%Z -> (0 <= scale10 m e)%Q.
Proof.
  intros Hm. unfold scale10. destruct (0 <=? e)%Z eqn:E.
  - apply Z.leb_le in E. unfold Qle, inject_Z. cbn.
    pose proof (Z.pow_nonneg 10 e). nia.
  - unfold Qle. cbn. lia.
Qed.

Lemma round64_nonnegative q : (0 <= q)%Q -> nonnegative (round64 q).
Proof.
  intros H. destruct (round64_nonneg q H) as [E|(r & E & Hr)]; rewrite E.
  - now left.
  - right. now exists r.
Qed.

(** [parseFloat] on a text that starts with a digit. *)
Lemma parseFloat_decimal_text w :
  decimal_text w -> nonnegative (parseFloat (string_of_list_ascii w)).
Proof.
  intros (d & rest & -> & Hd). destruct (digit_class d Hd) as (Hs & Hm & Hp & Hi).
  unfold parseFloat. rewrite list_ascii_of_string_of_list_ascii.
  cbn [trim_start]. rewrite Hs, Hm, Hp.
  cbn [list_ascii_of_string starts_with]. rewrite Hi. cbn [andb].
  cbn [span]. rewrite Hd. destruct (span is_digit rest) as [t r].
  assert (G : forall fp r2,
            nonnegative
              match (d :: t) ++ fp with
              | [] => NaN
              | _ :: _ =>
                  round64 (scale10 (digits_value ((d :: t) ++ fp))
                             (exponent_part r2 - Z.of_nat (List.length fp)))
              end).
  { intros fp r2. cbn [app].
    apply round64_nonnegative, scale10_nonneg, digits_value_nonneg. }
  destruct r as [|dot r]; [exact (G [] [])|].
  destruct (is_char "." dot); [|exact (G [] (dot :: r))].
  destruct (span is_digit r) as [fp r2]. exact (G fp r2).
Qed.

Lemma not_NaN_round64 q : not_NaN (round64 q) = true.
Proof.
  pose proof (round64_not_NaN q). now destruct (round64 q).
Qed.

Lemma parseFloat_signed_decimal_text w :
  signed_decimal_text w -> not_NaN (parseFloat (string_of_list_ascii w)) = true.
Proof.
  intros [D|(sg & w' & -> & Hsg & (d & rest & -> & Hd))].
  - destruct (parseFloat_decimal_text w D) as [->|(q & -> & _)]; reflexivity.
  - destruct (digit_class d Hd) as (Hs & Hm & Hp & Hi).
    unfold parseFloat. rewrite list_ascii_of_string_of_list_ascii.
    apply orb_true_iff in Hsg. unfold is_char in Hsg.
    destruct Hsg as [H|H]; apply Ascii.eqb_eq in H; subst sg.
    all: cbn [trim_start].
    all: match goal with
         | |- context [is_space ?c] => change (is_space c) with false; cbv iota
         end.
    all: unfold is_char at 1; cbn [Ascii.eqb Bool.eqb]; cbv iota.
    all: try (unfold is_char at 1; cbn [Ascii.eqb Bool.eqb]; cbv iota).
    all: cbn [list_ascii_of_string starts_with]; rewrite Hi; cbn [andb].
    all: cbn [span]; rewrite Hd; destruct (span is_digit rest) as [t r].
    all: destruct r as [|dot r]; [cbn [app]; apply not_NaN_round64|].
    all: match goal with
         | |- context [if ?c then span is_digit ?r else _] =>
             destruct c; [destruct (span is_digit r)|]
         end; cbn [app]; apply not_NaN_round64.
Qed.

Lemma coordinates_re_captures text m :
  String_match text Coordinates.coordinates_re = Some m ->
  exists w0 w1 w2,
    m = [Some w0; Some (string_of_list_ascii w1); Some (string_of_list_ascii w2)]
    /\ signed_decimal_text w1 /\ signed_decimal_text w2.
Proof.
  unfold String_match.
  destruct (search _ true (list_ascii_of_string text)) as [c|] eqn:E; [|discriminate].
  intros [= <-]. apply search_run in E. destruct E as (b & s0 & b' & s' & R).
  unfold Coordinates.coordinates_re, Cat in R. cbn [fold_right] in R.
  invert_run. rewrite !firstn_consumed. cbn. eauto 10.
Qed.

Lemma box_re_captures s m :
  String_match s GeoAdmin.box_re = Some m ->
  exists w0 w1 w2 w3 w4,
    m = [Some w0; Some (string_of_list_ascii w1); Some (string_of_list_ascii w2);
         Some (string_of_list_ascii w3); Some (string_of_list_ascii w4)]
    /\ decimal_text w1 /\ decimal_text w2 /\ decimal_text w3 /\ decimal_text w4.
Proof.
  unfold String_match.
  destruct (search _ true (list_ascii_of_string s)) as [c|] eqn:E; [|discriminate].
  intros [= <-]. apply search_run in E. destruct E as (b & s0 & b' & s' & R).
  unfold GeoAdmin.box_re, Cat, Lit in R. cbn [fold_right map list_ascii_of_string] in R.
  invert_run. rewrite !firstn_consumed. cbn. eauto 12.
Qed.

Section ParsedNumbers.

Variable Number_toString : number -> string.

(** X1.  Whatever the text, every item that [coordinatesSearch] delivers has
    a point given by two numbers, neither of them NaN: the pattern lets
    through only texts that [parseFloat] reads as decimal literals.  The
    numbers may be infinite (a numeral of 310 digits is read as Infinity) in
    the item of the display reference system only: an item in EPSG:4326 has
    its [x] between -180 and 180 and its [y] between -90 and 90. *)
Theorem coordinatesSearch_points_are_numbers (text : string) (requestId : value)
    (searchOptions : SearchOptions) :
  deliveries_satisfy numeric_point
    (trace (Coordinates.coordinatesSearch Number_toString text requestId searchOptions)).
Proof.
  unfold Coordinates.coordinatesSearch.
  destruct (String_match text Coordinates.coordinates_re) as [m|] eqn:Em;
    [|apply deliveries_satisfy_one; constructor].
  destruct (coordinates_re_captures _ _ Em) as (w0 & w1 & w2 & -> & D1 & D2).
  apply parseFloat_signed_decimal_text in D1, D2.
  cbn [List.length Nat.leb nth parseFloat_opt].
  set (crs := or_string (displaycrs searchOptions) "EPSG:4326").
  set (x := parseFloat (string_of_list_ascii w1)) in *.
  set (y := parseFloat (string_of_list_ascii w2)) in *.
  assert (Display : forall id_ text_,
            String.eqb crs "EPSG:4326" = false ->
            numeric_point (coordinates_item id_ text_ x y crs)).
  { intros id_ text_ Hc. exists x, y.
    do 2 (split; [reflexivity|]). do 2 (split; [assumption|]).
    cbn. intros [= Hcrs]. apply String.eqb_neq in Hc. contradiction. }
  assert (LonLat : forall id_ text_ u v,
            between (-180) 180 u = true -> between (-90) 90 v = true ->
            not_NaN u = true -> not_NaN v = true ->
            numeric_point (coordinates_item id_ text_ u v "EPSG:4326")).
  { intros id_ text_ u v Hu Hv Nu Nv. exists u, v.
    do 2 (split; [reflexivity|]). do 2 (split; [assumption|]). now intros _. }
  destruct (String.eqb crs "EPSG:4326") eqn:Ec; cbn [negb];
    destruct (num_ge x (num_of_Z (-180)) && num_le x (num_of_Z 180)
              && num_ge y (num_of_Z (-90)) && num_le y (num_of_Z 90)) eqn:E1;
    destruct (num_ge x (num_of_Z (-90)) && num_le x (num_of_Z 90)
              && num_ge y (num_of_Z (-180)) && num_le y (num_of_Z 180)
              && negb (num_eq x y)) eqn:E2;
    apply deliveries_satisfy_one; cbn [app List.length Nat.ltb Nat.leb];
    repeat (apply Forall_cons || apply Forall_nil); cbn [items].
  all: repeat (apply Forall_cons || apply Forall_nil).
  all: try (apply (Display _ _ eq_refl)).
  all: repeat match goal with
              | H : _ && _ = true |- _ =>
                  apply andb_true_iff in H; destruct H
              end.
  all: apply LonLat; unfold between; try assumption;
    apply andb_true_iff; split; assumption.
Qed.

End ParsedNumbers.

Lemma forallb_impl {A} (p q : A -> bool) (l : list A) :
  (forall a, p a = true -> q a = true) -> forallb p l = true -> forallb q l = true.
Proof.
  intros H. rewrite !forallb_forall. auto.
Qed.

Lemma run_reads r b s c b' s' c' :
  run r b s c b' s' c' -> exists w, s = w ++ s' /\ forallb (may_read r) w = true.
Proof.
  induction 1; cbn [may_read]; try (now exists []).
  - exists [a]. split; [reflexivity|]. cbn. now rewrite H.
  - destruct IHrun1 as (w1 & -> & H1), IHrun2 as (w2 & -> & H2).
    exists (w1 ++ w2). split; [now rewrite app_assoc|].
    rewrite forallb_app. apply andb_true_iff. split.
    + eapply forallb_impl; [|exact H1]. intros x Hx. now rewrite Hx.
    + eapply forallb_impl; [|exact H2]. intros x Hx. rewrite Hx. apply orb_true_r.
  - destruct IHrun as (w & -> & Hw). exists w. split; [reflexivity|].
    eapply forallb_impl; [|exact Hw]. intros x Hx. now rewrite Hx.
  - destruct IHrun as (w & -> & Hw). exists w. split; [reflexivity|].
    eapply forallb_impl; [|exact Hw]. intros x Hx. rewrite Hx. apply orb_true_r.
  - destruct IHrun1 as (w1 & -> & H1), IHrun2 as (w2 & -> & H2).
    exists (w1 ++ w2). split; [now rewrite app_assoc|].
    rewrite forallb_app. apply andb_true_iff. split; [exact H1|exact H2].
  - assumption.
Qed.

Lemma run_reads_nothing r b s c b' s' c' :
  run r b s c b' s' c' -> reads_nothing r = true -> s' = s.
Proof.
  induction 1; cbn [reads_nothing]; intros Hn; try reflexivity; try discriminate.
  - apply andb_true_iff in Hn. destruct Hn as [H1 H2].
    rewrite IHrun2, IHrun1; auto.
  - auto.
Qed.

Lemma run_ends_at_Eos r b s c b' s' c' :
  run r b s c b' s' c' -> ends_at_Eos r = true -> s' = [].
Proof.
  induction 1; cbn [ends_at_Eos]; intros He; try reflexivity; try discriminate.
  - apply orb_true_iff in He. destruct He as [He|He]; [auto|].
    apply andb_true_iff in He. destruct He as [He Hn].
    rewrite (run_reads_nothing _ _ _ _ _ _ _ H0 Hn). auto.
  - auto.
Qed.

Lemma search_Bos_later r : forall s, search (Seq Bos r) false s = None.
Proof. induction s as [|a s IH]; cbn; [reflexivity|exact IH]. Qed.

(** A match of a pattern anchored at both ends reads the whole text. *)
Lemma anchored_match_reads r text m :
  ends_at_Eos r = true ->
  String_match text (Seq Bos r) = Some m ->
  forallb (may_read r) (list_ascii_of_string text) = true.
Proof.
  unfold String_match. intros He.
  destruct (search _ true (list_ascii_of_string text)) as [c|] eqn:E; [|discriminate].
  intros _. set (s := list_ascii_of_string text) in *.
  assert (R : exists res, rmatch (Group 0 (Seq Bos r)) true s [] (fun _ _ c => Some c)
                          = Some res).
  { destruct s as [|a s']; cbn [search] in E.
    - destruct (rmatch _ true [] [] _); [eauto|discriminate].
    - destruct (rmatch _ true (a :: s') [] _); [eauto|].
      now rewrite search_Bos_later in E. }
  destruct R as [res R]. apply rmatch_run in R.
  destruct R as (b' & s' & c' & R & _).
  inversion R as [| | | | | | |i r0 b0 s1 c0 b1 s1' c1 R0| |]; subst; clear R.
  inversion R0 as [| |? ? ? ? ? ? ? ? ? ? ? Ra R1| | | | | | |]; subst; clear R0.
  inversion Ra; subst; clear Ra.
  pose proof (run_ends_at_Eos _ _ _ _ _ _ _ R1 He) as ->.
  destruct (run_reads _ _ _ _ _ _ _ R1) as (w & Hw & Hall).
  rewrite app_nil_r in Hw. now rewrite Hw.
Qed.

Lemma coordinates_re_chars text m :
  String_match text Coordinates.coordinates_re = Some m ->
  forallb coordinate_char (list_ascii_of_string text) = true.
Proof.
  intros H. unfold Coordinates.coordinates_re, Cat in H. cbn [fold_right] in H.
  apply anchored_match_reads in H; [|reflexivity].
  eapply forallb_impl; [|exact H]. intros a.
  unfold coordinate_char, Coordinates.number_re, Cat, Plus, Opt.
  cbn [may_read fold_right]. cbv beta.
  destruct (is_digit a), (is_space a), (is_char "+" a), (is_char "-" a),
    (is_char "." a), (is_char "," a); cbn; congruence.
Qed.

Section OtherTexts.

Variable Number_toString : number -> string.

(** X2.  A text that holds a character other than a digit, a sign, a dot, a
    comma or white space is no pair of coordinates: [coordinatesSearch] still
    dispatches its one action, with no group. *)
Theorem coordinatesSearch_ignores_other_texts (text : string) (requestId : value)
    (searchOptions : SearchOptions) :
  forallb coordinate_char (list_ascii_of_string text) = false ->
  trace (Coordinates.coordinatesSearch Number_toString text requestId searchOptions)
  = [empty_delivery (VStr "coordinates") requestId (VBool true)]
  /\ settled (Coordinates.coordinatesSearch Number_toString text requestId searchOptions)
     = Ok tt.
Proof.
  intros H. unfold Coordinates.coordinatesSearch.
  destruct (String_match text Coordinates.coordinates_re) as [m|] eqn:Em.
  - apply coordinates_re_chars in Em. congruence.
  - split; reflexivity.
Qed.

End OtherTexts.

Lemma coordinatesSearch_ignores_other_texts_witness :
  trace (Coordinates.coordinatesSearch sample_Number_toString "Bahnhofstrasse 1"
           (VNum (num_of_Z 7)) sample_options)
  = [empty_delivery (VStr "coordinates") (VNum (num_of_Z 7)) (VBool true)]
  /\ settled (Coordinates.coordinatesSearch sample_Number_toString "Bahnhofstrasse 1"
                (VNum (num_of_Z 7)) sample_options)
     = Ok tt.
Proof.
  apply (coordinatesSearch_ignores_other_texts sample_Number_toString). reflexivity.
Defined.

(** ** Counters in ids and names *)

Lemma decimal_value_nat_to_string n : decimal_value (nat_to_string n) = n.
Proof.
  unfold decimal_value, nat_to_string. rewrite NilEmpty.usu. apply Unsigned.of_to.
Qed.

Lemma nat_to_string_inj a b : nat_to_string a = nat_to_string b -> a = b.
Proof.
  intros H. rewrite <- (decimal_value_nat_to_string a), H.
  apply decimal_value_nat_to_string.
Qed.

Lemma decimal_value_two_digits n : decimal_value (two_digits n) = n.
Proof.
  unfold two_digits. destruct (n <? 10); [|apply decimal_value_nat_to_string].
  unfold decimal_value, nat_to_string. cbn [String.append NilEmpty.uint_of_string].
  rewrite NilEmpty.usu. cbn. apply Unsigned.of_to.
Qed.

Lemma two_digits_inj a b : two_digits a = two_digits b -> a = b.
Proof.
  intros H. rewrite <- (decimal_value_two_digits a), H.
  apply decimal_value_two_digits.
Qed.

Lemma append_inj_l p a b : p +:+ a = p +:+ b -> a = b.
Proof. induction p as [|c p IH]; cbn; [auto|]. intros [= H]. auto. Qed.

Lemma NoDup_map_injective {A B} (f : A -> B) (l : list A) :
  (forall a b, f a = f b -> a = b) -> NoDup l -> NoDup (map f l).
Proof.
  intros Hf. induction 1 as [|a l Hin Hl IH]; cbn; constructor; auto.
  rewrite in_map_iff. intros (b & E & Hb). apply Hf in E. now subst.
Qed.

(** Ids made of a prefix and a counter are pairwise distinct. *)
Lemma NoDup_numbered (prefix : string) (start n : nat) :
  NoDup (map (fun k => VStr (prefix +:+ nat_to_string k)) (seq start n)).
Proof.
  apply NoDup_map_injective; [|apply seq_NoDup].
  intros a b [= H]. now apply append_inj_l, nat_to_string_inj in H.
Qed.

Lemma mapi_from_length {A B} (f : A -> nat -> B) (l : list A) : forall i,
  List.length (mapi_from f i l) = List.length l.
Proof. induction l as [|a l IH]; intros i; cbn; [reflexivity|now rewrite IH]. Qed.

Lemma mapi_from_nth {A B} (f : A -> nat -> B) (l : list A) : forall i j,
  nth_error (mapi_from f i l) j = option_map (fun a => f a (i + j)) (nth_error l j).
Proof.
  induction l as [|a l IH]; intros i [|j]; cbn; try reflexivity.
  - now rewrite Nat.add_0_r.
  - rewrite IH. now rewrite Nat.add_succ_r.
Qed.

Lemma mapi_from_map {A B C} (f : A -> nat -> B) (g : B -> C) (h : nat -> C)
    (l : list A) :
  (forall a j, g (f a j) = h j) ->
  forall i, map g (mapi_from f i l) = map h (seq i (List.length l)).
Proof.
  intros H. induction l as [|a l IH]; intros i; cbn; [reflexivity|].
  now rewrite H, IH.
Qed.

(** X12.  [createLayerSearchSublayers] makes one sublayer for each box, in order.
    The sublayer at index [i] keeps the box as its bounds and is named by the
    type followed by [i + 1] in two digits; its title is its name.  The names
    are pairwise distinct. *)
Theorem createLayerSearchSublayers_names (boundingBoxes : list (list number))
    (type : string) :
  let sublayers := Layers.createLayerSearchSublayers boundingBoxes type in
  List.length sublayers = List.length boundingBoxes
  /\ NoDup (map Layers.Sublayer.name sublayers)
  /\ forall i bounds,
       nth_error boundingBoxes i = Some bounds ->
       exists s,
         nth_error sublayers i = Some s
         /\ Layers.BBox.bounds (Layers.Sublayer.bbox s) = bounds
         /\ Layers.Sublayer.name s = type +:+ two_digits (S i)
         /\ Layers.Sublayer.title s = Layers.Sublayer.name s.
Proof.
  unfold Layers.createLayerSearchSublayers. cbv zeta. split; [apply mapi_from_length|].
  split.
  - rewrite (mapi_from_map _ _ (fun j => type +:+ two_digits (j + 1))) by reflexivity.
    apply NoDup_map_injective; [|apply seq_NoDup].
    intros a b H. apply append_inj_l, two_digits_inj in H. lia.
  - intros i bounds H. rewrite mapi_from_nth, H. cbn [option_map].
    eexists. split; [reflexivity|]. cbn. rewrite Nat.add_1_r. repeat split.
Qed.

(** ** Splitting and joining *)

Lemma append_assoc (a b c : string) : (a +:+ b) +:+ c = a +:+ (b +:+ c).
Proof. induction a as [|x a IH]; cbn; [reflexivity|now rewrite IH]. Qed.

Lemma append_nil_r (a : string) : a +:+ "" = a.
Proof. induction a as [|x a IH]; cbn; [reflexivity|now rewrite IH]. Qed.

Lemma string_of_list_ascii_app (u v : list ascii) :
  string_of_list_ascii (u ++ v) = string_of_list_ascii u +:+ string_of_list_ascii v.
Proof. induction u as [|x u IH]; cbn; [reflexivity|now rewrite IH]. Qed.

Lemma prefix_append (p r : string) : String.prefix p (p +:+ r) = true.
Proof.
  induction p as [|x p IH]; cbn; [now destruct r|].
  destruct (ascii_dec x x); [assumption|contradiction].
Qed.

Lemma split_comma_space_nonempty s : forall cur, split_comma_space cur s <> [].
Proof.
  induction s as [|c1 s IH]; intros cur; cbn [split_comma_space]; [discriminate|].
  destruct s as [|c2 s'']; [apply IH|].
  destruct (is_char "," c1 && is_char " " c2); [discriminate|apply IH].
Qed.

Lemma join_cons a l : l <> [] -> join (a :: l) = a +:+ ", " +:+ join l.
Proof. destruct l; [contradiction|reflexivity]. Qed.

(** Splitting at ", " and joining with ", " gives the text back. *)
Lemma join_split_comma_space n : forall s cur,
  List.length s <= n ->
  join (split_comma_space cur s) = string_of_list_ascii (rev cur ++ s).
Proof.
  induction n as [|n IH]; intros s cur Hn.
  - destruct s; [|cbn in Hn; lia]. cbn. now rewrite app_nil_r.
  - destruct s as [|c1 s']; [cbn; now rewrite app_nil_r|]. cbn [split_comma_space].
    destruct s' as [|c2 s''].
    + rewrite (IH [] (c1 :: cur)) by (cbn; lia). cbn [rev].
      now rewrite <- app_assoc.
    + destruct (is_char "," c1 && is_char " " c2) eqn:E.
      * apply andb_true_iff in E. unfold is_char in E. destruct E as [E1 E2].
        apply Ascii.eqb_eq in E1, E2. subst c1 c2.
        rewrite join_cons by apply split_comma_space_nonempty.
        rewrite (IH s'' []) by (cbn in Hn; cbn; lia).
        cbn [rev app]. now rewrite string_of_list_ascii_app.
      * rewrite (IH (c2 :: s'') (c1 :: cur)) by (cbn in Hn; cbn; lia).
        cbn [rev]. now rewrite <- app_assoc.
Qed.

Lemma join_split s : join (split s) = s.
Proof.
  unfold split. rewrite (join_split_comma_space _ _ [] (Nat.le_refl _)).
  apply string_of_list_ascii_of_string.
Qed.

(** Joining the first parts gives a prefix of the joined whole. *)
Lemma join_firstn l : forall n, exists rest, join l = join (firstn n l) +:+ rest.
Proof.
  induction l as [|a l IH]; intros [|n]; cbn [firstn].
  - now exists "".
  - now exists "".
  - now exists (join (a :: l)).
  - destruct (IH n) as [rest Hrest]. destruct l as [|b l].
    + rewrite firstn_nil. exists "". cbn. now rewrite append_nil_r.
    + rewrite (join_cons a (b :: l)) by discriminate.
      destruct (firstn n (b :: l)) as [|b' l'] eqn:Ef.
      * exists (", " +:+ join (b :: l)). reflexivity.
      * rewrite (join_cons a (b' :: l')) by discriminate. exists rest.
        rewrite Hrest, !append_assoc. reflexivity.
Qed.

(** ** The ids of the uster and wolfsburg results *)

Section GroupingItems.

Variable E : Type.
Variable bbox_of : E -> option (list number).
Variable mk_group : nat -> E -> ResultGroup.
Variable mk_item : nat -> E -> list number -> Item.
Hypothesis mk_group_empty : forall n e, items (mk_group n e) = [].

Local Abbreviation grouping_step := (grouping_step bbox_of mk_group mk_item).
Local Abbreviation grouping := (grouping bbox_of mk_group mk_item).
Local Abbreviation is_header := (is_header bbox_of).
Local Abbreviation has_box := (has_box bbox_of).
Local Abbreviation headers := (headers bbox_of).
Local Abbreviation from_first_header := (from_first_header bbox_of).
Local Abbreviation emitted := (emitted bbox_of).
Local Abbreviation segment_items := (segment_items bbox_of mk_item).

Lemma segment_items_app a : forall c b,
  segment_items c (a ++ b)
  = segment_items c a ++ segment_items (c + List.length (filter has_box a)) b.
Proof.
  induction a as [|e a IH]; intros c b; cbn [app segment_items filter List.length].
  - now rewrite Nat.add_0_r.
  - unfold has_box, is_header. destruct (bbox_of e) as [bbox|]; cbn [negb].
    + cbn [List.length app]. now rewrite IH, Nat.add_succ_r.
    + apply IH.
Qed.

Lemma flat_map_items_push rs g it :
  flat_map items (push_item (rs ++ [g]) (List.length rs) it)
  = flat_map items (rs ++ [g]) ++ [it].
Proof.
  rewrite push_item_last, !flat_map_app. cbn. rewrite !app_nil_r.
  now rewrite app_assoc.
Qed.

(** Read group after group, the items are those of the entries with a bbox
    that follow the first header, in the order of the payload, numbered from
    0 without a gap. *)
Lemma grouping_all_items l :
  flat_map items (grouping l) = segment_items 0 (from_first_header l).
Proof.
  unfold grouping. induction l as [|e l IH] using rev_ind; [reflexivity|].
  rewrite fold_left_app. cbn [fold_left].
  pose proof (fold_counters _ bbox_of mk_group mk_item l) as HC. cbv zeta in HC.
  set (st := fold_left grouping_step l grouping_init) in *.
  destruct HC as (HL & _ & HC & HK).
  rewrite from_first_header_app. unfold grouping_step.
  destruct (bbox_of e) as [bbox|] eqn:Ee.
  - rewrite HK. destruct (headers l =? 0) eqn:E0.
    + rewrite IH. apply Nat.eqb_eq in E0.
      rewrite (from_first_header_nil _ bbox_of l E0).
      cbn. unfold is_header. now rewrite Ee.
    + apply Nat.eqb_neq in E0. cbn [results].
      destruct (results st) as [|g rs] eqn:Er using rev_ind;
        [cbn in HL; lia|clear IHrs].
      rewrite length_app in HL. cbn in HL.
      replace (headers l - 1) with (List.length rs) by lia.
      rewrite flat_map_items_push, IH, segment_items_app.
      cbn [segment_items]. rewrite Ee, Nat.add_0_l. now rewrite HC.
  - cbn [results]. rewrite flat_map_app. cbn. rewrite mk_group_empty, !app_nil_r, IH.
    destruct (headers l =? 0) eqn:E0.
    + apply Nat.eqb_eq in E0. rewrite (from_first_header_nil _ bbox_of l E0).
      cbn. unfold is_header. rewrite Ee. cbn. now rewrite Ee.
    + rewrite segment_items_app. cbn [segment_items]. rewrite Ee. now rewrite app_nil_r.
Qed.

Variable group_id : nat -> value.
Variable item_id : nat -> value.
Hypothesis mk_group_id : forall n e, id (mk_group n e) = group_id n.
Hypothesis mk_item_id : forall n e bbox, prop (mk_item n e bbox) "id" = item_id n.

Lemma push_item_ids rs : forall k it, map id (push_item rs k it) = map id rs.
Proof.
  induction rs as [|r rs IH]; intros [|k] it; cbn; try reflexivity.
  now rewrite IH.
Qed.

Lemma grouping_group_ids l : map id (grouping l) = map group_id (seq 0 (headers l)).
Proof.
  unfold grouping. induction l as [|e l IH] using rev_ind; [reflexivity|].
  rewrite fold_left_app. cbn [fold_left].
  pose proof (fold_counters _ bbox_of mk_group mk_item l) as HC. cbv zeta in HC.
  set (st := fold_left grouping_step l grouping_init) in *.
  destruct HC as (_ & HG & _ & _).
  rewrite headers_snoc. unfold grouping_step, is_header.
  destruct (bbox_of e) as [bbox|] eqn:Ee.
  - rewrite Nat.add_0_r. destruct (currentgroup st); [|exact IH].
    cbn [results]. now rewrite push_item_ids.
  - cbn [results]. rewrite map_app, IH, seq_app, map_app. cbn.
    now rewrite mk_group_id, HG.
Qed.

Lemma segment_item_ids seg : forall c,
  map (fun it => prop it "id") (segment_items c seg)
  = map item_id (seq c (List.length (segment_items c seg))).
Proof.
  induction seg as [|e seg IH]; intros c; cbn [segment_items]; [reflexivity|].
  destruct (bbox_of e); [|apply IH].
  cbn. now rewrite mk_item_id, IH.
Qed.

Lemma grouping_item_ids l :
  item_ids (grouping l)
  = map item_id (seq 0 (List.length (flat_map items (grouping l)))).
Proof. unfold item_ids. rewrite grouping_all_items. apply segment_item_ids. Qed.

End GroupingItems.

Lemma grouping_uniquely_numbered {E : Type} (bbox_of : E -> option (list number))
    (mk_group : nat -> E -> ResultGroup) (mk_item : nat -> E -> list number -> Item)
    (group_prefix item_prefix : string) (l : list E) :
  (forall n e, items (mk_group n e) = []) ->
  (forall n e, id (mk_group n e) = VStr (group_prefix +:+ nat_to_string n)) ->
  (forall n e bbox,
     prop (mk_item n e bbox) "id" = VStr (item_prefix +:+ nat_to_string n)) ->
  uniquely_numbered group_prefix item_prefix (grouping bbox_of mk_group mk_item l).
Proof.
  intros He Hg Hi.
  assert (G : map id (grouping bbox_of mk_group mk_item l)
              = counted group_prefix (List.length (grouping bbox_of mk_group mk_item l))).
  { rewrite grouping_length. now apply grouping_group_ids. }
  assert (I : item_ids (grouping bbox_of mk_group mk_item l)
              = counted item_prefix
                  (List.length (flat_map items (grouping bbox_of mk_group mk_item l)))).
  { now apply grouping_item_ids. }
  repeat split; [exact G|exact I| |].
  - rewrite G. apply NoDup_numbered.
  - rewrite I. apply NoDup_numbered.
Qed.

(** X6.  In a delivery of the uster provider, and in one of the wolfsburg
    provider, the groups carry the ids "ustergroup0", "ustergroup1", ... in
    order and the items, read group after group, the ids "usterresult0",
    "usterresult1", ... (with the prefixes of the provider): no id of a group
    and no id of an item occurs twice. *)
Theorem uster_wolfsburg_ids_unique (requestId : value)
    (uster_entries : list Uster.Entry.t) (wolfsburg_entries : list Wolfsburg.Entry.t) :
  uniquely_numbered "ustergroup" "usterresult" (uster_groups requestId uster_entries)
  /\ uniquely_numbered "wolfsburggroup" "wolfsburgresult"
       (wolfsburg_groups requestId wolfsburg_entries).
Proof.
  split.
  - rewrite uster_groups_grouping. now apply grouping_uniquely_numbered.
  - rewrite wolfsburg_groups_grouping. now apply grouping_uniquely_numbered.
Qed.

(** ** Dictionaries *)

Lemma existsb_eqb_In k l : existsb (String.eqb k) l = true <-> In k l.
Proof.
  rewrite existsb_exists. split.
  - intros (x & Hx & E). apply String.eqb_eq in E. now subst.
  - intros H. exists k. split; [assumption|apply String.eqb_refl].
Qed.

Lemma existsb_eqb_not_In k l : existsb (String.eqb k) l = false <-> ~ In k l.
Proof.
  rewrite <- existsb_eqb_In. destruct (existsb _ l); split; intros; congruence.
Qed.

Lemma first_occurrences_snoc l k :
  first_occurrences (l ++ [k])
  = if existsb (String.eqb k) (first_occurrences l)
    then first_occurrences l else first_occurrences l ++ [k].
Proof. unfold first_occurrences. now rewrite fold_left_app. Qed.

Lemma first_occurrences_In l : forall k, In k (first_occurrences l) <-> In k l.
Proof.
  induction l as [|x l IH] using rev_ind; intros k; [reflexivity|].
  rewrite first_occurrences_snoc, in_app_iff.
  destruct (existsb (String.eqb x) (first_occurrences l)) eqn:E.
  - apply existsb_eqb_In in E. rewrite IH in *. cbn. intuition (subst; auto).
  - rewrite in_app_iff, IH. reflexivity.
Qed.

Lemma first_occurrences_NoDup l : NoDup (first_occurrences l).
Proof.
  induction l as [|x l IH] using rev_ind; [constructor|].
  rewrite first_occurrences_snoc.
  destruct (existsb (String.eqb x) (first_occurrences l)) eqn:E; [assumption|].
  apply existsb_eqb_not_In in E. apply NoDup_app; auto.
  - repeat constructor. intros [].
  - intros k Hk [<-|[]]. contradiction.
Qed.

Section Tabulate.

Context {A : Type}.
Variable f : string -> A.

Lemma own_tabulate keys k :
  own (tabulate f keys) k = if existsb (String.eqb k) keys then Some (f k) else None.
Proof.
  unfold tabulate. induction keys as [|k' keys IH]; cbn; [reflexivity|].
  rewrite (String.eqb_sym k k'). destruct (String.eqb k' k) eqn:E; cbn.
  - apply String.eqb_eq in E. now subst.
  - exact IH.
Qed.

Lemma dict_set_tabulate_new keys k a :
  ~ In k keys -> dict_set (tabulate f keys) k a = tabulate f keys ++ [(k, a)].
Proof.
  unfold tabulate. induction keys as [|k' keys IH]; cbn; intros H; [reflexivity|].
  destruct (String.eqb k' k) eqn:E.
  - apply String.eqb_eq in E. subst. tauto.
  - rewrite IH; tauto.
Qed.

Lemma dict_set_tabulate_old keys k a :
  NoDup keys -> In k keys ->
  dict_set (tabulate f keys) k a
  = map (fun k' => (k', if String.eqb k' k then a else f k')) keys.
Proof.
  unfold tabulate.
  induction 1 as [|k' keys Hnot Hnd IH]; cbn; intros Hin; [contradiction|].
  destruct (String.eqb k' k) eqn:E.
  - apply String.eqb_eq in E. subst k'. f_equal.
    apply map_ext_in. intros k' Hk'.
    destruct (String.eqb k' k) eqn:E'; [|reflexivity].
    apply String.eqb_eq in E'. subst. contradiction.
  - f_equal. apply IH. destruct Hin as [->|]; [|assumption].
    rewrite String.eqb_refl in E. discriminate.
Qed.

Lemma dict_set_last (d : dict A) k a a' :
  own d k = None -> dict_set (d ++ [(k, a)]) k a' = d ++ [(k, a')].
Proof.
  induction d as [|[k' b] d IH]; cbn; intros H.
  - now rewrite String.eqb_refl.
  - destruct (String.eqb k' k); [discriminate|]. now rewrite IH.
Qed.

Lemma own_last (d : dict A) k a : own d k = None -> own (d ++ [(k, a)]) k = Some a.
Proof.
  induction d as [|[k' b] d IH]; cbn; intros H.
  - now rewrite String.eqb_refl.
  - destruct (String.eqb k' k); [discriminate|]. now apply IH.
Qed.

End Tabulate.

(** [Object.values] lists every property once. *)
Lemma insert_by_index_Permutation {A} n (a : A) l :
  Permutation (insert_by_index n a l) ((n, a) :: l).
Proof.
  induction l as [|[m b] l IH]; cbn; [reflexivity|].
  destruct (n <? m)%N; [reflexivity|].
  rewrite IH. apply perm_swap.
Qed.

Lemma Object_values_Permutation {A} (d : dict A) :
  Permutation (Object_values d) (map snd d).
Proof.
  unfold Object_values.
  assert (G : forall acc,
            Permutation
              (map snd
                 (fold_left
                    (fun acc '(k, a) =>
                       match array_index k with
                       | Some n => insert_by_index n a acc
                       | None => acc
                       end) d acc)
               ++ map snd
                    (filter (fun '(k, _) =>
                               match array_index k with
                               | Some _ => false
                               | None => true
                               end) d))
              (map snd acc ++ map snd d)).
  { induction d as [|[k a] d IH]; intros acc; cbn [fold_left filter map].
    - reflexivity.
    - destruct (array_index k) as [n|].
      + rewrite IH. rewrite (Permutation_map snd (insert_by_index_Permutation n a acc)).
        cbn. apply Permutation_middle.
      + cbn [map]. rewrite <- Permutation_middle, IH. apply Permutation_middle. }
  apply (G []).
Qed.

(** When no key is an array index, [Object.values] keeps the order of
    creation. *)
Lemma Object_values_named {A} (d : dict A) :
  Forall (fun kv => array_index (fst kv) = None) d -> Object_values d = map snd d.
Proof.
  intros H. unfold Object_values.
  assert (G : forall acc,
            fold_left
              (fun acc '(k, a) =>
                 match array_index k with
                 | Some n => insert_by_index n a acc
                 | None => acc
                 end) d acc = acc).
  { induction H as [|[k a] d Hk Hd IH]; intros acc; cbn [fold_left]; [reflexivity|].
    cbn in Hk. rewrite Hk. apply IH. }
  rewrite G. clear G. cbn [map app].
  induction H as [|[k a] d Hk Hd IH]; cbn [filter map]; [reflexivity|].
  cbn in Hk. rewrite Hk. cbn [map snd]. now rewrite IH.
Qed.

(** ** The groups of the geoadmin provider *)

Module GeoAdminFacts.
Import GeoAdmin GeoAdminSpec.

Section WithBuiltins.

Variable reprojectBbox : list number -> string -> string -> list number.

Local Abbreviation parseItemBBox := (parseItemBBox reprojectBbox).
Local Abbreviation step := (step reprojectBbox).
Local Abbreviation loop := (loop reprojectBbox).
Local Abbreviation box_of := (box_of reprojectBbox).
Local Abbreviation group_of := (group_of reprojectBbox).
Local Abbreviation grouped := (grouped reprojectBbox).

Lemma parseItemBBox_on_match s m :
  String_match s box_re = Some m ->
  exists xmin ymin xmax ymax,
    parseItemBBox (Some s)
    = Ok (Some (reprojectBbox [xmin; ymin; xmax; ymax] "EPSG:21781" "EPSG:4326"))
    /\ nonnegative xmin /\ nonnegative ymin /\ nonnegative xmax /\ nonnegative ymax.
Proof.
  intros Em. unfold GeoAdmin.parseItemBBox. rewrite Em.
  destruct (box_re_captures _ _ Em) as (w0 & w1 & w2 & w3 & w4 & -> & D1 & D2 & D3 & D4).
  cbn [List.length Nat.ltb Nat.leb nth parseFloat_opt].
  do 4 eexists. split; [reflexivity|].
  repeat split; apply parseFloat_decimal_text; assumption.
Qed.

(** X3.  The three ways [parseItemBBox] ends.  It returns [null] for an undefined
    string only; it throws on a string that does not match the BOX pattern;
    on a match it returns the box of four numbers, none negative and none
    NaN (each is finite or Infinity: a numeral of 310 digits is read as
    Infinity), reprojected from EPSG:21781 to EPSG:4326.  A match always has
    its four captures, so the test on the number of captures never returns
    [null]. *)
Theorem parseItemBBox_outcomes (bboxstr : option string) :
  match bboxstr with
  | None => parseItemBBox bboxstr = Ok None
  | Some s =>
      match String_match s box_re with
      | None => parseItemBBox bboxstr = Fail TypeError
      | Some _ =>
          exists xmin ymin xmax ymax,
            parseItemBBox bboxstr
            = Ok (Some (reprojectBbox [xmin; ymin; xmax; ymax] "EPSG:21781" "EPSG:4326"))
            /\ nonnegative xmin /\ nonnegative ymin
            /\ nonnegative xmax /\ nonnegative ymax
      end
  end.
Proof.
  destruct bboxstr as [s|]; [|reflexivity].
  destruct (String_match s box_re) as [m|] eqn:Em.
  - eapply parseItemBBox_on_match; eauto.
  - now apply parseItemBBox_throws_without_match.
Qed.

Lemma geoadmin_readable_box entry :
  readable entry = true ->
  parseItemBBox (Attrs.geom_st_box2d (Entry.attrs entry)) = Ok (box_of entry).
Proof.
  unfold readable, GeoAdminSpec.box_of. intros H. apply andb_true_iff in H.
  destruct H as [_ H].
  destruct (Attrs.geom_st_box2d (Entry.attrs entry)) as [s|]; [|reflexivity].
  destruct (String_match s box_re) as [m|] eqn:Em; [|discriminate].
  destruct (parseItemBBox_on_match _ _ Em) as (? & ? & ? & ? & -> & _). reflexivity.
Qed.

Lemma geoadmin_group_of_snoc origin done entry :
  group_of origin (done ++ [entry])
  = if String.eqb (origin_of entry) origin
    then with_items (group_of origin done)
           (items (group_of origin done) ++ [item entry (box_of entry)])
    else group_of origin done.
Proof.
  unfold GeoAdminSpec.group_of, with_items. cbn [id title titlemsgid items].
  rewrite filter_app. cbn [filter].
  destruct (String.eqb (origin_of entry) origin).
  - now rewrite map_app.
  - now rewrite app_nil_r.
Qed.

Lemma geoadmin_group_of_absent origin done :
  ~ In origin (map origin_of done) -> items (group_of origin done) = [].
Proof.
  intros H. cbn. induction done as [|e done IH]; [reflexivity|].
  cbn [filter]. destruct (String.eqb (origin_of e) origin) eqn:E.
  - apply String.eqb_eq in E. exfalso. apply H. now left.
  - apply IH. intros Hin. apply H. now right.
Qed.

(** One turn of the loop on a readable entry. *)
Lemma geoadmin_step_readable done entry :
  readable entry = true ->
  step (grouped done) entry = Ok (grouped (done ++ [entry])).
Proof.
  intros Hr. pose proof (geoadmin_readable_box _ Hr) as Hbox.
  unfold readable in Hr. apply andb_true_iff in Hr. destruct Hr as [Hk _].
  apply negb_true_iff in Hk. unfold inherited_key in Hk.
  unfold GeoAdmin.step. cbv zeta. fold (origin_of entry).
  set (k := origin_of entry) in *.
  unfold GeoAdminSpec.grouped. rewrite map_app. cbn [map]. fold k.
  rewrite first_occurrences_snoc.
  set (keys := first_occurrences (map origin_of done)).
  assert (Hnd : NoDup keys) by apply first_occurrences_NoDup.
  assert (Hget : dict_get (tabulate (fun origin => group_of origin done) keys) k
                 = if existsb (String.eqb k) keys
                   then Own (group_of k done) else Absent).
  { unfold dict_get. rewrite own_tabulate, Hk. now destruct (existsb _ keys). }
  rewrite !Hget. destruct (existsb (String.eqb k) keys) eqn:Ein.
  - rewrite Hget, Hbox. cbn [obind]. f_equal.
    apply existsb_eqb_In in Ein.
    rewrite dict_set_tabulate_old by assumption.
    unfold tabulate. apply map_ext. intros k'. f_equal.
    rewrite geoadmin_group_of_snoc. fold k. rewrite (String.eqb_sym k' k).
    destruct (String.eqb k k') eqn:E; [|reflexivity].
    apply String.eqb_eq in E. now subst k'.
  - assert (Hown : own (tabulate (fun origin => group_of origin done) keys) k = None).
    { rewrite own_tabulate. now rewrite Ein. }
    apply existsb_eqb_not_In in Ein.
    rewrite dict_set_tabulate_new by assumption.
    unfold dict_get. rewrite own_last by assumption.
    rewrite Hbox. cbn [obind id title titlemsgid items app]. f_equal.
    rewrite dict_set_last by assumption.
    unfold tabulate. rewrite map_app. cbn [map]. f_equal.
    + apply map_ext_in. intros k' Hk'. f_equal. rewrite geoadmin_group_of_snoc. fold k.
      destruct (String.eqb k k') eqn:E; [|reflexivity].
      apply String.eqb_eq in E. subst k'. contradiction.
    + f_equal. f_equal. rewrite geoadmin_group_of_snoc. fold k. rewrite String.eqb_refl.
      unfold with_items. cbn [id title titlemsgid].
      rewrite geoadmin_group_of_absent; [reflexivity|].
      unfold keys in Ein. now rewrite first_occurrences_In in Ein.
Qed.

Lemma geoadmin_step_unreadable done entry :
  forallb readable done = true -> readable entry = false ->
  step (grouped done) entry = Fail TypeError.
Proof.
  intros Hd Hr. unfold readable in Hr. apply andb_false_iff in Hr.
  destruct Hr as [Hk|Hb].
  - apply negb_false_iff in Hk.
    assert (Hown : own (grouped done) (origin_of entry) = None).
    { unfold GeoAdminSpec.grouped. rewrite own_tabulate.
      destruct (existsb _ (first_occurrences _)) eqn:E; [|reflexivity].
      apply existsb_eqb_In in E. rewrite first_occurrences_In, in_map_iff in E.
      destruct E as (e' & E & Hin). rewrite forallb_forall in Hd.
      apply Hd in Hin. unfold readable in Hin. apply andb_true_iff in Hin.
      destruct Hin as [Hin _]. rewrite E, Hk in Hin. discriminate. }
    unfold GeoAdmin.step. cbv zeta. fold (origin_of entry). unfold dict_get.
    unfold inherited_key in Hk. rewrite Hown, Hk. cbv iota. now rewrite Hown.
  - destruct (Attrs.geom_st_box2d (Entry.attrs entry)) as [s|] eqn:Es; [|discriminate].
    destruct (String_match s box_re) eqn:Em; [discriminate|].
    eapply step_throws_on_malformed_box; eauto.
Qed.

Lemma geoadmin_loop_grouped entries : forall done,
  forallb readable done = true ->
  loop (grouped done) entries
  = if forallb readable entries then Ok (grouped (done ++ entries)) else Fail TypeError.
Proof.
  induction entries as [|e entries IH]; intros done Hd; cbn [GeoAdmin.loop forallb].
  - now rewrite app_nil_r.
  - destruct (readable e) eqn:Hr.
    + rewrite geoadmin_step_readable by assumption. cbn [obind andb].
      rewrite IH; [now rewrite <- app_assoc|].
      rewrite forallb_app, Hd. cbn. now rewrite Hr.
    + rewrite geoadmin_step_unreadable by assumption. reflexivity.
Qed.

(** X4.  [geoAdminLocationSearchResults] groups the entries by origin.  When
    every entry is readable it returns one group for each origin: the id is
    the origin, the title comes from [categoryMap], and the items are those
    of the entries of that origin in the order of the answer, with the box of
    the entry or, without one, the box of no area at its point.  Otherwise it
    throws a TypeError: this is the case of a box that does not match, and of
    an origin such as "constructor" that names a member of [Object.prototype]. *)
Theorem geoAdminLocationSearchResults_groups_by_origin (obj : Response.t)
    (requestId : value) :
  let entries := match Response.results obj with Some l => l | None => [] end in
  geoAdminLocationSearchResults reprojectBbox obj requestId
  = if forallb readable entries
    then Ok (addSearchResults
               {| data := Object_values (grouped entries);
                  provider := VStr "geoadmin"; reqId := requestId |}
               (VBool true))
    else Fail TypeError.
Proof.
  cbv zeta. unfold GeoAdmin.geoAdminLocationSearchResults.
  change (@nil (string * ResultGroup)) with (grouped []).
  rewrite geoadmin_loop_grouped by reflexivity. cbn [app].
  now destruct (forallb readable _).
Qed.

Lemma geoadmin_grouped_ids entries :
  map id (map snd (grouped entries))
  = map VStr (first_occurrences (map origin_of entries)).
Proof.
  unfold GeoAdminSpec.grouped, tabulate. rewrite !map_map. reflexivity.
Qed.

Lemma geoadmin_normalized_data obj requestId a :
  geoAdminLocationSearchResults reprojectBbox obj requestId = Ok a ->
  data (results_of a)
  = Object_values (grouped (match Response.results obj with Some l => l | None => [] end)).
Proof.
  unfold GeoAdmin.geoAdminLocationSearchResults.
  change (@nil (string * ResultGroup)) with (grouped []).
  rewrite geoadmin_loop_grouped by reflexivity. cbn [app].
  destruct (forallb readable _); [|discriminate].
  cbn [obind]. now intros [= <-].
Qed.

Lemma geoadmin_group_ids_Permutation entries :
  Permutation (map id (Object_values (grouped entries)))
    (map VStr (first_occurrences (map origin_of entries))).
Proof. rewrite <- geoadmin_grouped_ids. apply Permutation_map, Object_values_Permutation. Qed.

Lemma geoadmin_group_ids_NoDup entries : NoDup (map id (Object_values (grouped entries))).
Proof.
  eapply Permutation_NoDup; [symmetry; apply geoadmin_group_ids_Permutation|].
  apply NoDup_map_injective; [now intros x y [= ->]|apply first_occurrences_NoDup].
Qed.

(** X5.  The groups of a geoadmin delivery carry the origins of the answer as
    ids, each origin once.  The groups come in the order in which the origins
    first occur in the answer, unless an origin is spelled like an array
    index: [Object.values] lists such keys first. *)
Theorem geoadmin_groups_in_order_of_origins (obj : Response.t) (requestId : value)
    (a : Action) :
  geoAdminLocationSearchResults reprojectBbox obj requestId = Ok a ->
  let entries := match Response.results obj with Some l => l | None => [] end in
  let origins := first_occurrences (map origin_of entries) in
  Permutation (map id (data (results_of a))) (map VStr origins)
  /\ (forallb (fun k => match array_index k with Some _ => false | None => true end)
        origins = true ->
      map id (data (results_of a)) = map VStr origins).
Proof.
  intros H. apply geoadmin_normalized_data in H. rewrite H. cbv zeta.
  set (entries := match Response.results obj with Some l => l | None => [] end).
  split; [apply geoadmin_group_ids_Permutation|].
  intros Hn. rewrite Object_values_named; [apply geoadmin_grouped_ids|].
  unfold GeoAdminSpec.grouped, tabulate. rewrite Forall_map. cbn [fst].
  rewrite forallb_forall in Hn. apply Forall_forall. intros k Hk.
  apply Hn in Hk. now destruct (array_index k).
Qed.

End WithBuiltins.

End GeoAdminFacts.

Lemma geoadmin_groups_in_order_of_origins_witness :
  exists a,
    GeoAdmin.geoAdminLocationSearchResults sample_reprojectBbox sample_geoadmin_readable
      (VNum (num_of_Z 7)) = Ok a
    /\ Permutation (map id (data (results_of a))) [VStr "gg25"]
    /\ map id (data (results_of a)) = [VStr "gg25"].
Proof.
  eexists. split; [vm_compute; reflexivity|].
  pose proof (GeoAdminFacts.geoadmin_groups_in_order_of_origins sample_reprojectBbox
                sample_geoadmin_readable (VNum (num_of_Z 7)) _ eq_refl) as H.
  cbv zeta in H. destruct H as (H1 & H2).
  split; [exact H1|]. apply H2. reflexivity.
Defined.

(** ** The groups of the nominatim provider *)

Lemma mapi_from_app {A B} (f : A -> nat -> B) (l l' : list A) : forall i,
  mapi_from f i (l ++ l') = mapi_from f i l ++ mapi_from f (i + List.length l) l'.
Proof.
  induction l as [|a l IH]; intros i; cbn.
  - now rewrite Nat.add_0_r.
  - now rewrite IH, Nat.add_succ_r.
Qed.

Lemma positions_snoc keys k :
  positions (keys ++ [k]) = positions keys ++ [(k, List.length keys)].
Proof. unfold positions. now rewrite mapi_from_app. Qed.

Lemma positions_keys keys : map fst (positions keys) = keys.
Proof.
  unfold positions. generalize 0.
  induction keys as [|k keys IH]; intros i; cbn; [reflexivity|now rewrite IH].
Qed.

Lemma positions_length keys : List.length (positions keys) = List.length keys.
Proof. apply mapi_from_length. Qed.

Lemma own_keys {A} (d : dict A) k :
  own d k = None <-> ~ In k (map fst d).
Proof.
  induction d as [|[k' a] d IH]; cbn; [tauto|].
  destruct (String.eqb k' k) eqn:E.
  - apply String.eqb_eq in E. subst. split; [discriminate|tauto].
  - apply String.eqb_neq in E. rewrite IH. tauto.
Qed.

Lemma own_nth {A} (d : dict A) k a :
  own d k = Some a -> exists i, nth_error d i = Some (k, a).
Proof.
  induction d as [|[k' b] d IH]; cbn; [discriminate|].
  destruct (String.eqb k' k) eqn:E.
  - apply String.eqb_eq in E. subst. intros [= ->]. now exists 0.
  - intros H. destruct (IH H) as [i Hi]. now exists (S i).
Qed.

Lemma positions_nth keys i k j :
  nth_error (positions keys) i = Some (k, j) -> j = i /\ nth_error keys i = Some k.
Proof.
  unfold positions. rewrite mapi_from_nth.
  destruct (nth_error keys i) as [k'|]; [|discriminate].
  cbn. intros [= -> ->]. auto.
Qed.

Lemma dict_set_new {A} (d : dict A) k a :
  own d k = None -> dict_set d k a = d ++ [(k, a)].
Proof.
  induction d as [|[k' b] d IH]; cbn; intros H; [reflexivity|].
  destruct (String.eqb k' k); [discriminate|]. now rewrite IH.
Qed.

(** Pushing an item on the group at position [i] of a list of groups that
    is the image of a list. *)
Lemma push_item_map {X} (G G' : X -> ResultGroup) (l : list X) it : forall i x,
  nth_error l i = Some x ->
  G' x = with_items (G x) (items (G x) ++ [it]) ->
  (forall j y, nth_error l j = Some y -> j <> i -> G' y = G y) ->
  push_item (map G l) i it = map G' l.
Proof.
  induction l as [|y l IH]; intros [|i] x Hx Hpush Hrest; cbn in Hx; try discriminate.
  - injection Hx as ->. cbn [map push_item]. rewrite Hpush. unfold with_items. f_equal.
    apply map_ext_in. intros z Hz. apply In_nth_error in Hz. destruct Hz as [j Hj].
    symmetry. apply (Hrest (S j)); [exact Hj|discriminate].
  - cbn [map push_item]. f_equal.
    + symmetry. apply (Hrest 0); [reflexivity|discriminate].
    + apply (IH i x); auto. intros j z Hj Hne. apply (Hrest (S j)); [exact Hj|lia].
Qed.

Module NominatimFacts.
Import Nominatim NominatimSpec.

Section WithBuiltins.

Variable toUpperCase : string -> string.

Local Abbreviation step := (step toUpperCase).
Local Abbreviation loop := (loop toUpperCase).
Local Abbreviation group_of := (group_of toUpperCase).
Local Abbreviation grouped := (grouped toUpperCase).
Local Abbreviation state_after := (state_after toUpperCase).

Lemma nominatim_group_of_snoc i class done entry :
  group_of i class (done ++ [entry])
  = if String.eqb (Entry.class entry) class
    then with_items (group_of i class done)
           (items (group_of i class done) ++ [item_of entry])
    else group_of i class done.
Proof.
  unfold NominatimSpec.group_of, with_items. cbn [id title titlemsgid items].
  rewrite filter_app. cbn [filter].
  destruct (String.eqb (Entry.class entry) class).
  - now rewrite map_app.
  - now rewrite app_nil_r.
Qed.

Lemma nominatim_group_of_absent i class done :
  ~ In class (map Entry.class done) -> items (group_of i class done) = [].
Proof.
  intros H. cbn. induction done as [|e done IH]; [reflexivity|].
  cbn [filter]. destruct (String.eqb (Entry.class e) class) eqn:E.
  - apply String.eqb_eq in E. exfalso. apply H. now left.
  - apply IH. intros Hin. apply H. now right.
Qed.

Lemma nominatim_grouped_length done :
  List.length (grouped done)
  = List.length (first_occurrences (map Entry.class done)).
Proof. unfold NominatimSpec.grouped. now rewrite length_map, positions_length. Qed.

(** The item that one turn of the loop pushes. *)
Lemma nominatim_step_item entry a boundingbox :
  Entry.address entry = Some a -> Entry.boundingbox entry = Some boundingbox ->
  item entry
    (if 0 <? List.length (address_line a)
     then label_of entry +:+ "<br/><i>" +:+ join (address_line a) +:+ "</i>"
     else label_of entry)
    (label_of entry)
    (let b := map parseFloat boundingbox in [index b 2; index b 0; index b 3; index b 1])
  = item_of entry.
Proof.
  intros Ha Hb. unfold item_of, text_of, bbox_of. rewrite Ha, Hb.
  now destruct (address_line a).
Qed.

Lemma nominatim_step_readable done entry :
  readable entry = true ->
  step (state_after done) entry = Ok (state_after (done ++ [entry])).
Proof.
  intros Hr. unfold readable in Hr. rewrite !andb_true_iff in Hr.
  destruct Hr as ((Hk & Ha) & Hb). apply negb_true_iff in Hk.
  unfold inherited_key in Hk.
  destruct (Entry.address entry) as [a|] eqn:Ea; [|discriminate].
  destruct (Entry.boundingbox entry) as [bb|] eqn:Eb; [|discriminate].
  pose proof (nominatim_step_item entry a bb Ea Eb) as Hit.
  unfold Nominatim.step. cbv zeta. rewrite Ea, Eb.
  fold (address_line a). fold (label_of entry). cbv zeta in Hit. rewrite Hit.
  set (k := Entry.class entry) in *.
  unfold state_after. cbv zeta. rewrite map_app. cbn [map]. fold k.
  rewrite first_occurrences_snoc.
  set (keys := first_occurrences (map Entry.class done)).
  assert (Hnd : NoDup keys) by apply first_occurrences_NoDup.
  cbn [groups results groupcounter].
  destruct (existsb (String.eqb k) keys) eqn:Ein.
  - apply existsb_eqb_In in Ein.
    destruct (own (positions keys) k) as [i|] eqn:Eo.
    2:{ apply own_keys in Eo. rewrite positions_keys in Eo. contradiction. }
    unfold dict_get. rewrite Eo. cbn [groups results groupcounter]. rewrite Eo.
    f_equal. f_equal.
    destruct (own_nth _ _ _ Eo) as [j Hj].
    destruct (positions_nth _ _ _ _ Hj) as [-> Hkey].
    unfold NominatimSpec.grouped. fold keys. rewrite map_app. cbn [map]. fold k.
    rewrite first_occurrences_snoc. fold keys.
    apply existsb_eqb_In in Ein. rewrite Ein.
    apply (push_item_map _ _ _ _ j (k, j)); [exact Hj| |].
    + cbn [fst snd]. rewrite nominatim_group_of_snoc. fold k. now rewrite String.eqb_refl.
    + intros j' [k' i'] Hj' Hne. cbn [fst snd]. rewrite nominatim_group_of_snoc. fold k.
      destruct (positions_nth _ _ _ _ Hj') as [-> Hkey'].
      destruct (String.eqb k k') eqn:E; [|reflexivity].
      apply String.eqb_eq in E. subst k'. exfalso. apply Hne.
      apply (proj1 (NoDup_nth_error keys) Hnd j' j);
        [apply nth_error_Some; now rewrite Hkey'|now rewrite Hkey', Hkey].
  - apply existsb_eqb_not_In in Ein.
    assert (Eo : own (positions keys) k = None).
    { apply own_keys. now rewrite positions_keys. }
    unfold dict_get. rewrite Eo, Hk. cbn [groups results groupcounter].
    rewrite dict_set_new by assumption. rewrite own_last by assumption.
    rewrite nominatim_grouped_length. fold keys.
    pose proof (nominatim_grouped_length done) as HL. fold keys in HL.
    match goal with
    | |- context [push_item (?rs ++ [?g]) _ ?it] =>
        assert (Hp : push_item (rs ++ [g]) (List.length keys) it
                     = rs ++ [with_items g (items g ++ [it])])
          by (rewrite <- HL; apply push_item_last)
    end.
    rewrite Hp. clear Hp. cbn [items app].
    rewrite length_app, Nat.add_1_r, positions_snoc. f_equal. f_equal.
    unfold NominatimSpec.grouped. rewrite map_app. cbn [map]. fold k.
    rewrite first_occurrences_snoc. fold keys.
    apply existsb_eqb_not_In in Ein. rewrite Ein. apply existsb_eqb_not_In in Ein.
    rewrite positions_snoc, map_app. cbn [map fst snd]. f_equal.
    + apply map_ext_in. intros [k' i'] Hin. cbn [fst snd]. rewrite nominatim_group_of_snoc. fold k.
      destruct (String.eqb k k') eqn:E; [|reflexivity].
      apply String.eqb_eq in E. subst k'. exfalso. apply Ein.
      rewrite <- (positions_keys keys). apply (in_map fst) in Hin. exact Hin.
    + f_equal. rewrite nominatim_group_of_snoc. fold k. rewrite String.eqb_refl.
      unfold with_items. cbn [id title titlemsgid].
      rewrite nominatim_group_of_absent; [reflexivity|].
      unfold keys in Ein. now rewrite first_occurrences_In in Ein.
Qed.

Lemma nominatim_step_fails st entry e :
  step st entry = Fail e -> e = TypeError.
Proof.
  unfold Nominatim.step. cbv zeta.
  destruct (Entry.address entry); [|now intros [= <-]].
  destruct (Entry.boundingbox entry); [|now intros [= <-]].
  match goal with
  | |- match ?d with _ => _ end = _ -> _ => destruct d
  end; try discriminate; now intros [= <-].
Qed.

Lemma nominatim_step_unreadable done entry :
  forallb readable done = true -> readable entry = false ->
  step (state_after done) entry = Fail TypeError.
Proof.
  intros Hd Hr.
  destruct (step (state_after done) entry) as [st|e] eqn:Es;
    [|now rewrite (nominatim_step_fails _ _ _ Es)].
  exfalso. revert Es. unfold Nominatim.step. cbv zeta.
  unfold readable in Hr.
  destruct (Entry.address entry); [|discriminate].
  destruct (Entry.boundingbox entry); [|discriminate].
  rewrite !andb_true_r in Hr. apply negb_false_iff in Hr. unfold inherited_key in Hr.
  assert (Hown : own (groups (state_after done)) (Entry.class entry) = None).
  { cbn [state_after groups]. apply own_keys. rewrite positions_keys.
    rewrite first_occurrences_In, in_map_iff. intros (e' & E & Hin).
    rewrite forallb_forall in Hd. apply Hd in Hin. unfold readable in Hin.
    rewrite !andb_true_iff in Hin. destruct Hin as ((Hin & _) & _).
    unfold inherited_key in Hin. rewrite E, Hr in Hin. discriminate. }
  unfold dict_get. rewrite Hown, Hr. cbv iota. rewrite Hown. discriminate.
Qed.

Lemma nominatim_loop_grouped entries : forall done,
  forallb readable done = true ->
  loop (state_after done) entries
  = if forallb readable entries
    then Ok (state_after (done ++ entries)) else Fail TypeError.
Proof.
  induction entries as [|e entries IH]; intros done Hd; cbn [Nominatim.loop forallb].
  - now rewrite app_nil_r.
  - destruct (readable e) eqn:Hr.
    + rewrite nominatim_step_readable by assumption. cbn [obind andb].
      rewrite IH; [now rewrite <- app_assoc|].
      rewrite forallb_app, Hd. cbn. now rewrite Hr.
    + rewrite nominatim_step_unreadable by assumption. reflexivity.
Qed.

(** X9.  [nominatimSearchResults] groups the entries by class.  When every entry
    is readable it returns one group for each class, in the order in which
    the classes first occur: the groups are numbered "nominatimgroup0",
    "nominatimgroup1", ..., the title is the class with its first letter in
    upper case, and the items are those of the entries of that class in the
    order of the answer.  Otherwise it throws a TypeError: this is the case
    of an entry without address or bounding box, and of a class such as
    "constructor" that names a member of [Object.prototype]. *)
Theorem nominatimSearchResults_groups_by_class (obj : option (list Entry.t))
    (requestId : value) :
  let entries := match obj with Some l => l | None => [] end in
  nominatimSearchResults toUpperCase obj requestId
  = if forallb readable entries
    then Ok (addSearchResults
               {| data := grouped entries;
                  provider := VStr "nominatim"; reqId := requestId |}
               (VBool true))
    else Fail TypeError.
Proof.
  cbv zeta. unfold Nominatim.nominatimSearchResults.
  change {| results := []; groups := []; groupcounter := 0 |} with (state_after []).
  rewrite nominatim_loop_grouped by reflexivity. cbn [app].
  now destruct (forallb readable _).
Qed.

Lemma nominatim_normalized_data obj requestId a :
  nominatimSearchResults toUpperCase obj requestId = Ok a ->
  data (results_of a) = grouped (match obj with Some l => l | None => [] end).
Proof.
  unfold Nominatim.nominatimSearchResults.
  change {| results := []; groups := []; groupcounter := 0 |} with (state_after []).
  rewrite nominatim_loop_grouped by reflexivity. cbn [app].
  destruct (forallb readable _); [|discriminate].
  cbn [obind]. now intros [= <-].
Qed.

Lemma positions_indices keys : map snd (positions keys) = seq 0 (List.length keys).
Proof.
  unfold positions. generalize 0.
  induction keys as [|k keys IH]; intros i; cbn; [reflexivity|now rewrite IH].
Qed.

Lemma nominatim_grouped_ids entries :
  map id (grouped entries)
  = map (fun i => VStr ("nominatimgroup" +:+ nat_to_string i))
      (seq 0 (List.length (first_occurrences (map Entry.class entries)))).
Proof.
  unfold NominatimSpec.grouped. rewrite map_map. cbn [id NominatimSpec.group_of].
  rewrite <- positions_indices, map_map. reflexivity.
Qed.

Lemma item_of_shortens entry : shortens entry (item_of entry).
Proof.
  unfold shortens, item_of, Nominatim.item. cbn [prop String.eqb Ascii.eqb Bool.eqb].
  split; [reflexivity|]. split; [reflexivity|]. split; [|split].
  - destruct (join_firstn (split (Entry.display_name entry)) 3) as [rest H].
    rewrite join_split in H. fold (label_of entry) in H.
    rewrite H at 1. apply prefix_append.
  - intros H. unfold label_of. rewrite firstn_all2 by assumption. apply join_split.
  - unfold text_of. destruct (Entry.address entry) as [a|].
    + destruct (address_line a); [exists ""; now rewrite append_nil_r|eauto].
    + exists "". now rewrite append_nil_r.
Qed.

(** X10.  Every item of a nominatim delivery is made from an entry of the answer:
    it carries the place id of the entry, and its label is the display name
    cut after its third part, a part ending at each ", ".  The label is a
    prefix of the display name and is the whole of it when there are three
    parts at most; the text of the item starts with the label. *)
Theorem nominatim_labels_shorten_display_names (obj : option (list Entry.t))
    (requestId : value) (a : Action) :
  nominatimSearchResults toUpperCase obj requestId = Ok a ->
  all_items
    (fun it =>
       exists entry,
         In entry (match obj with Some l => l | None => [] end)
         /\ shortens entry it)
    (data (results_of a)).
Proof.
  unfold Nominatim.nominatimSearchResults.
  change {| results := []; groups := []; groupcounter := 0 |} with (state_after []).
  rewrite nominatim_loop_grouped by reflexivity. cbn [app].
  destruct (forallb readable _); [|discriminate].
  cbn [obind]. intros [= <-]. cbn [results_of data state_after results].
  unfold all_items, NominatimSpec.grouped. rewrite Forall_map. apply Forall_forall.
  intros [k i] _. cbn [fst snd NominatimSpec.group_of items].
  rewrite Forall_map. apply Forall_forall. intros entry Hin.
  apply filter_In in Hin. destruct Hin as [Hin _].
  exists entry. split; [exact Hin|apply item_of_shortens].
Qed.

End WithBuiltins.

End NominatimFacts.

Lemma nominatim_labels_shorten_display_names_witness :
  exists a,
    Nominatim.nominatimSearchResults sample_toUpperCase (Some [sample_nominatim_entry])
      (VNum (num_of_Z 7)) = Ok a
    /\ all_items
         (fun it =>
            exists entry,
              In entry [sample_nominatim_entry] /\ NominatimSpec.shortens entry it)
         (data (results_of a)).
Proof.
  eexists. split; [vm_compute; reflexivity|].
  exact (NominatimFacts.nominatim_labels_shorten_display_names sample_toUpperCase
           (Some [sample_nominatim_entry]) (VNum (num_of_Z 7)) _ eq_refl).
Defined.

(** ** The groups of the glarus provider *)

Module GlarusGroupsFacts.
Import Glarus GlarusSpec GlarusGroups.

Lemma map_feature_items g fs :
  map_outcome (feature_item g) fs
  = if forallb (fun f => match Feature.bbox f with Some _ => true | None => false end) fs
    then Ok (map (feature_entry g) fs) else Fail TypeError.
Proof.
  induction fs as [|f fs IH]; cbn [map_outcome forallb map]; [reflexivity|].
  unfold feature_entry at 1.
  destruct (feature_item g f) as [it|e] eqn:Ef; unfold feature_item in Ef;
    destruct (Feature.bbox f); try discriminate; cbn [andb].
  - rewrite IH. now destruct (forallb _ fs).
  - now injection Ef as <-.
Qed.

Lemma step_group_at limit results k g :
  step limit (results, k) g
  = if readable g
    then Ok (results ++ [group_at limit k g], if truncated limit g then S k else k)
    else Fail TypeError.
Proof.
  unfold step, readable, group_at, truncated, feature_count.
  destruct (Group.features g) as [fs|]; [|reflexivity].
  rewrite map_feature_items. destruct (forallb _ fs); [|reflexivity].
  cbn [obind].
  destruct ((limit >=? 0)%Z && (Z.of_nat (List.length fs) >? limit)%Z);
    cbn [id title titlemsgid items]; now rewrite ?app_nil_r.
Qed.

Lemma loop_groups_from limit groups : forall results k,
  loop limit (results, k) groups
  = if forallb readable groups
    then Ok (results ++ groups_from limit k groups,
             k + List.length (filter (truncated limit) groups))
    else Fail TypeError.
Proof.
  induction groups as [|g rest IH]; intros results k; cbn [loop forallb groups_from filter].
  - now rewrite app_nil_r, Nat.add_0_r.
  - rewrite step_group_at. destruct (readable g); [|reflexivity].
    cbn [obind andb]. rewrite IH. destruct (forallb readable rest); [|reflexivity].
    rewrite <- app_assoc. cbn [app]. do 2 f_equal.
    destruct (truncated limit g); cbn [List.length]; lia.
Qed.

Lemma feature_entries_not_more g fs :
  filter is_more (map (feature_entry g) fs) = [].
Proof.
  induction fs as [|f fs IH]; cbn [map filter]; [reflexivity|].
  unfold feature_entry at 1, feature_item. now destruct (Feature.bbox f).
Qed.

Lemma more_ids_groups_from limit groups : forall k,
  more_ids (groups_from limit k groups)
  = map (fun i => VStr ("glarusmore" +:+ nat_to_string i))
      (seq k (List.length (filter (truncated limit) groups))).
Proof.
  unfold more_ids.
  induction groups as [|g rest IH]; intros k; cbn [groups_from flat_map filter];
    [reflexivity|].
  cbn [items group_at]. rewrite !filter_app, feature_entries_not_more, !map_app.
  cbn [app]. rewrite IH. now destruct (truncated limit g).
Qed.

(** X7.  The "more" entries of a glarus delivery carry the ids "glarusmore0",
    "glarusmore1", ... in the order of their groups, one for each group that
    exceeds the limit: no two of them share an id. *)
Theorem glarus_more_ids_unique (obj : Response.t) (requestId : value)
    (limit : option Z) (a : Action) :
  glarusSearchResults obj requestId limit = Ok a ->
  more_ids (data (results_of a))
  = counted "glarusmore"
      (List.length (filter (truncated (effective limit)) (groups_of obj)))
  /\ NoDup (more_ids (data (results_of a))).
Proof.
  unfold glarusSearchResults. fold (effective limit). fold (groups_of obj).
  rewrite loop_groups_from. destruct (forallb readable _); [|discriminate].
  cbn [obind fst app]. intros [= <-]. cbn [results_of data].
  rewrite more_ids_groups_from. split; [reflexivity|apply NoDup_numbered].
Qed.

Lemma groups_from_sizes limit groups : forall k,
  Forall2 (fun g r =>
             id r = Group.category g
             /\ List.length (items r)
                = feature_count g + (if truncated limit g then 1 else 0))
    groups (groups_from limit k groups).
Proof.
  induction groups as [|g rest IH]; intros k; cbn [groups_from]; constructor.
  - split; [reflexivity|]. cbn [items group_at].
    rewrite length_app, length_map. unfold feature_count.
    destruct (Group.features g); now destruct (truncated limit g).
  - apply IH.
Qed.

(** X8.  [glarusSearch] is all or nothing.  When every group of the answer is
    readable, it delivers one group for each group of the answer, in order,
    with all the features of the group (the limit cuts nothing off) and one
    "more" entry after them when their number exceeds the limit of 9.  As soon
    as one group lacks its features, or one feature its bbox, the
    normalization throws, and the handler of the rejection delivers the empty
    list: the readable groups are lost as well. *)
Theorem glarusSearch_all_or_nothing (d : Response.t) (text : string)
    (requestId : value) (searchOptions : SearchOptions) :
  if forallb readable (groups_of d)
  then exists a,
         glarusSearchResults d requestId (Some 9%Z) = Ok a
         /\ trace (glarusSearch text requestId searchOptions (Ok d)) = [a]
         /\ Forall2 (fun g r =>
                       id r = Group.category g
                       /\ List.length (items r)
                          = feature_count g + (if truncated 9 g then 1 else 0))
              (groups_of d) (data (results_of a))
  else glarusSearchResults d requestId (Some 9%Z) = Fail TypeError
       /\ trace (glarusSearch text requestId searchOptions (Ok d))
          = [empty_delivery (VStr "glarus") requestId (VBool true)].
Proof.
  rewrite glarusSearch_trace.
  unfold glarusSearchResults. fold (groups_of d).
  rewrite loop_groups_from. destruct (forallb readable (groups_of d)); cbn [obind].
  - eexists. split; [reflexivity|]. split; [reflexivity|].
    cbn [results_of data fst app]. apply groups_from_sizes.
  - split; reflexivity.
Qed.

End GlarusGroupsFacts.

Lemma glarus_more_ids_unique_witness :
  exists a,
    Glarus.glarusSearchResults sample_glarus_answer (VNum (num_of_Z 7)) (Some 9%Z) = Ok a
    /\ GlarusGroups.more_ids (data (results_of a)) = [VStr "glarusmore0"]
    /\ NoDup (GlarusGroups.more_ids (data (results_of a))).
Proof.
  eexists. split; [vm_compute; reflexivity|].
  exact (GlarusGroupsFacts.glarus_more_ids_unique sample_glarus_answer
           (VNum (num_of_Z 7)) (Some 9%Z) _ eq_refl).
Defined.

(** ** The layers provider *)

Section LayerSearch.

Variable THEMELAYER : value.
Variable toLowerCase : string -> string.

Local Abbreviation layer_item := (Layers.layer_item THEMELAYER toLowerCase).
Local Abbreviation createLayerSearchResult :=
  (Layers.createLayerSearchResult THEMELAYER toLowerCase).
Local Abbreviation layerSearchResults :=
  (Layers.layerSearchResults THEMELAYER toLowerCase).
Local Abbreviation layer_entry := (layer_entry THEMELAYER toLowerCase).
Local Abbreviation layers_group := (layers_group THEMELAYER toLowerCase).

Lemma map_outcome_layer_item l : forall ls,
  defined_elements l = Some ls ->
  map_outcome layer_item l = Ok (map layer_entry ls).
Proof.
  induction l as [|[s|] l IH]; intros ls H; cbn in H.
  - injection H as <-. reflexivity.
  - destruct (defined_elements l) as [ls'|]; [|discriminate].
    injection H as <-. cbn. now rewrite (IH ls' eq_refl).
  - discriminate.
Qed.

(** A branch of the chain that pushes the result for an array of sublayers,
    and one that pushes the result for a single sublayer. *)
Lemma push_Array l ls :
  defined_elements l = Some ls -> ls <> [] ->
  Layers.push_result [] (createLayerSearchResult (Layers.Array l) None)
  = Ok (layers_group ls).
Proof.
  intros H Hne. unfold Layers.push_result, Layers.createLayerSearchResult.
  rewrite (map_outcome_layer_item _ _ H). destruct ls; [contradiction|reflexivity].
Qed.

Lemma push_Object o s :
  o = Some s ->
  Layers.push_result [] (createLayerSearchResult (Layers.Object o) None)
  = Ok (layers_group [s]).
Proof. intros ->. reflexivity. Qed.

Lemma layerSearch_settles text requestId searchOptions groups :
  layerSearchResults text = Ok groups ->
  trace (Layers.layerSearch THEMELAYER toLowerCase text requestId searchOptions)
  = [addSearchResults
       {| data := groups; provider := VStr "layers"; reqId := requestId |}
       (VBool true)]
  /\ settled (Layers.layerSearch THEMELAYER toLowerCase text requestId searchOptions)
     = Ok tt.
Proof. intros H. unfold Layers.layerSearch, trace, settled, then_, lift. now rewrite H. Qed.

Ltac layer_branch :=
  lazymatch goal with
  | |- exists ls, Layers.push_result [] (_ (Layers.Array ?l) None) = _ /\ _ =>
      let r := eval vm_compute in (defined_elements l) in
      lazymatch r with
      | Some ?ls =>
          exists ls; split;
          [apply push_Array; [vm_compute; reflexivity|discriminate]
          |vm_compute; reflexivity]
      end
  | |- exists ls, Layers.push_result [] (_ (Layers.Object ?o) None) = _ /\ _ =>
      let r := eval vm_compute in o in
      lazymatch r with
      | Some ?s =>
          exists [s]; split;
          [apply push_Object; vm_compute; reflexivity|vm_compute; reflexivity]
      end
  end.

Lemma layerSearchResults_layers_group text :
  exists ls,
    layerSearchResults text = Ok (layers_group ls)
    /\ forallb well_formed_sublayer ls = true.
Proof.
  unfold Layers.layerSearchResults. cbv zeta.
  repeat lazymatch goal with
         | |- exists ls, (if ?c then _ else _) = _ /\ _ =>
             destruct c; [layer_branch|]
         end.
  exists []. split; reflexivity.
Qed.

(** X13.  [layerSearch] never throws: every index it reads lies within its table.
    For every text it dispatches exactly one action, which holds at most one
    group, "layers"; the items of that group are the entries of a non-empty
    list of well-formed sublayers. *)
Theorem layerSearch_delivers_layer_entries (text : string) (requestId : value)
    (searchOptions : SearchOptions) :
  exists ls,
    layerSearchResults text = Ok (layers_group ls)
    /\ forallb well_formed_sublayer ls = true
    /\ trace (Layers.layerSearch THEMELAYER toLowerCase text requestId searchOptions)
       = [addSearchResults
            {| data := layers_group ls; provider := VStr "layers"; reqId := requestId |}
            (VBool true)]
    /\ settled (Layers.layerSearch THEMELAYER toLowerCase text requestId searchOptions)
       = Ok tt.
Proof.
  destruct (layerSearchResults_layers_group text) as (ls & H & Hw). exists ls.
  split; [exact H|]. split; [exact Hw|]. now apply layerSearch_settles.
Qed.

(** *** The two patterns with an alternative *)

Lemma letter_i_cases c a (l : list ascii) :
  forallb (fun n => implb (is_letter_i c (ascii_of_nat n))
                      (existsb (Ascii.eqb (ascii_of_nat n)) l)) (seq 0 256) = true ->
  is_letter_i c a = true -> In a l.
Proof.
  intros H Ha.
  pose proof (ascii_forall
                (fun a => implb (is_letter_i c a) (existsb (Ascii.eqb a) l)) H a) as G.
  cbv beta in G. rewrite Ha in G. cbn [implb] in G.
  apply existsb_exists in G. destruct G as (x & Hx & E).
  apply Ascii.eqb_eq in E. now subst.
Qed.

Lemma spells_n17 w :
  spells (list_ascii_of_string "n17") w = true ->
  w = list_ascii_of_string "n17" \/ w = list_ascii_of_string "N17".
Proof.
  destruct w as [|a [|b [|c [|? ?]]]]; cbn [spells list_ascii_of_string];
    try discriminate; try (rewrite ?andb_false_r; discriminate).
  rewrite !andb_true_iff. intros (Ha & Hb & Hc & _).
  apply (letter_i_cases _ _ ["n"; "N"]%char) in Ha; [|vm_compute; reflexivity].
  apply (letter_i_cases _ _ ["1"]%char) in Hb; [|vm_compute; reflexivity].
  apply (letter_i_cases _ _ ["7"]%char) in Hc; [|vm_compute; reflexivity].
  destruct Hb as [<-|[]], Hc as [<-|[]], Ha as [<-|[<-|[]]]; auto.
Qed.

Lemma test_anchored_later r a s :
  test (Seq Bos r) (String a s)
  = match rmatch (Group 0 (Seq Bos r)) true (a :: list_ascii_of_string s) []
            (fun _ _ c => Some c) with
    | Some _ => true
    | None => false
    end.
Proof.
  unfold test. cbn [list_ascii_of_string search].
  destruct (rmatch _ true _ [] _); [reflexivity|].
  now rewrite search_Bos_later.
Qed.

(** X14.  The pattern [^n17|nt1$] is an alternative between a text that starts
    with "n17" and a text that ends with "nt1", not the text "n17" or "nt1"
    between its two ends.  So every text that starts with "n17", in upper or
    lower case, finds the layer N17_1: none of the tests before it accepts
    such a text. *)
Theorem layerSearch_accepts_any_text_from_n17 (w rest : string) :
  spells (list_ascii_of_string "n17") (list_ascii_of_string w) = true ->
  exists s,
    index Layers.natureSublayers 16 = Some s
    /\ Layers.Sublayer.name s = "N17_1"
    /\ layerSearchResults (w +:+ rest) = Ok (layers_group [s]).
Proof.
  intros H. apply spells_n17 in H.
  eexists. split; [vm_compute; reflexivity|]. split; [reflexivity|].
  assert (Hw : w = "n17" \/ w = "N17").
  { destruct H as [H|H]; [left|right];
      rewrite <- (string_of_list_ascii_of_string w), H; reflexivity. }
  clear H. unfold Layers.layerSearchResults. cbv zeta.
  destruct Hw as [-> | ->]; cbn [String.append];
    unfold Cat, Lit_i; cbn [fold_right map list_ascii_of_string];
    rewrite !test_anchored_later;
    cbn [String.eqb Ascii.eqb Bool.eqb orb rmatch is_letter_i];
    vm_compute; reflexivity.
Qed.

Lemma spells_nt1 w :
  spells (list_ascii_of_string "nt1") w = true ->
  exists a b,
    w = [a; b; "1"%char]
    /\ (a = "n" \/ a = "N")%char /\ (b = "t" \/ b = "T")%char.
Proof.
  destruct w as [|a [|b [|c [|? ?]]]]; cbn [spells list_ascii_of_string];
    try discriminate; try (rewrite ?andb_false_r; discriminate).
  rewrite !andb_true_iff. intros (Ha & Hb & Hc & _).
  apply (letter_i_cases _ _ ["n"; "N"]%char) in Ha; [|vm_compute; reflexivity].
  apply (letter_i_cases _ _ ["t"; "T"]%char) in Hb; [|vm_compute; reflexivity].
  apply (letter_i_cases _ _ ["1"]%char) in Hc; [|vm_compute; reflexivity].
  destruct Hc as [<-|[]]. exists a, b. split; [reflexivity|].
  cbn [In] in Ha, Hb. split; [destruct Ha as [<-|[<-|[]]]|destruct Hb as [<-|[<-|[]]]];
    auto.
Qed.

Lemma list_ascii_of_string_append (u v : string) :
  list_ascii_of_string (u +:+ v) = list_ascii_of_string u ++ list_ascii_of_string v.
Proof. induction u as [|x u IH]; cbn; [reflexivity|now rewrite IH]. Qed.

Lemma append_snoc (u : string) (a : ascii) (v : string) :
  (u +:+ String a "") +:+ v = u +:+ String a v.
Proof.
  induction u as [|x u IH]; cbn [String.append]; [reflexivity|now rewrite IH].
Qed.

(** A text that ends with "t1" or "T1" is none of the words that the chain
    compares the text with: in each of them a digit or nothing comes before
    the last character. *)
Lemma eqb_keyword pre b k :
  (b = "t" \/ b = "T")%char ->
  match penultimate k with
  | Some c => negb (Ascii.eqb c "t") && negb (Ascii.eqb c "T")
  | None => true
  end = true ->
  String.eqb (pre +:+ string_of_list_ascii [b; "1"%char]) k = false.
Proof.
  intros Hb Hk. apply String.eqb_neq. intros <-.
  unfold penultimate in Hk. rewrite list_ascii_of_string_append in Hk.
  rewrite list_ascii_of_string_of_list_ascii, rev_app_distr in Hk. cbn in Hk.
  destruct Hb as [-> | ->]; discriminate Hk.
Qed.

Lemma run_Lit_i p tail : forall b s c b' s' c',
  run (fold_right Seq tail (map (fun x => Chr (is_letter_i x)) p)) b s c b' s' c' ->
  exists w b1 s1,
    s = w ++ s1 /\ spells p w = true /\ run tail b1 s1 c b' s' c'.
Proof.
  induction p as [|x p IH]; intros b s c b' s' c' R; cbn [map fold_right] in R.
  - exists [], b, s. auto.
  - inversion R as [| |? ? ? ? ? ? ? ? ? ? ? Ra R1| | | | | | |]; subst; clear R.
    inversion Ra; subst; clear Ra.
    apply IH in R1. destruct R1 as (w & bt & st & -> & Hw & R1).
    exists (a :: w), bt, st. split; [reflexivity|]. split; [|exact R1].
    cbn [spells]. rewrite Hw. apply andb_true_iff. split; [assumption|reflexivity].
Qed.

(** The pattern [^p$] accepts only the texts that spell [p]. *)
Lemma test_exact p text :
  test (Cat [Bos; Lit_i p; Eos]) text = true ->
  spells (list_ascii_of_string p) (list_ascii_of_string text) = true.
Proof.
  unfold test, Cat. cbn [fold_right].
  set (r := Seq (Lit_i p) (Seq Eos Eps)).
  set (s := list_ascii_of_string text).
  destruct (search (Seq Bos r) true s) as [c|] eqn:E; [|discriminate]. intros _.
  assert (R : exists res, rmatch (Group 0 (Seq Bos r)) true s [] (fun _ _ c => Some c)
                          = Some res).
  { destruct s as [|a s']; cbn [search] in E.
    - destruct (rmatch _ true [] [] _); [eauto|discriminate].
    - destruct (rmatch _ true (a :: s') [] _); [eauto|].
      now rewrite search_Bos_later in E. }
  destruct R as [res R]. apply rmatch_run in R.
  destruct R as (b' & s' & c' & R & _).
  inversion R as [| | | | | | |i r0 b0 s1 c0 b1 s1' c1 R0| |]; subst; clear R.
  inversion R0 as [| |? ? ? ? ? ? ? ? ? ? ? Ra R1| | | | | | |]; subst; clear R0.
  inversion Ra; subst; clear Ra. subst r.
  inversion R1 as [| |? ? ? ? ? ? ? ? ? ? ? Rl R2| | | | | | |]; subst; clear R1.
  unfold Lit_i, Cat in Rl. apply run_Lit_i in Rl.
  destruct Rl as (w & b2 & s2 & Hs & Hw & Rl). inversion Rl; subst; clear Rl.
  inversion R2 as [| |? ? ? ? ? ? ? ? ? ? ? Re R3| | | | | | |]; subst; clear R2.
  inversion Re; subst; clear Re.
  rewrite Hs, app_nil_r. exact Hw.
Qed.

Lemma spells_length p : forall w, spells p w = true -> List.length w = List.length p.
Proof.
  induction p as [|c p IH]; intros [|a w]; cbn; try discriminate; [reflexivity|].
  intros H. apply andb_true_iff in H. destruct H as [_ H]. now rewrite (IH w H).
Qed.

(** A search for a pattern that can match the end of the text succeeds
    wherever it starts. *)
Lemma search_suffix r w :
  (forall bos, search r bos w <> None) ->
  forall pre bos, search r bos (pre ++ w) <> None.
Proof.
  intros Hw. induction pre as [|a pre IH]; intros bos; [apply Hw|].
  cbn [app search]. destruct (rmatch _ bos _ [] _); [discriminate|apply IH].
Qed.

(** X15.  Likewise every text that ends with "nt1", in upper or lower case, finds
    the layer N17_1, whatever comes before. *)
Theorem layerSearch_accepts_any_text_to_nt1 (before w : string) :
  spells (list_ascii_of_string "nt1") (list_ascii_of_string w) = true ->
  exists s,
    index Layers.natureSublayers 16 = Some s
    /\ Layers.Sublayer.name s = "N17_1"
    /\ layerSearchResults (before +:+ w) = Ok (layers_group [s]).
Proof.
  intros H. destruct (spells_nt1 _ H) as (a & b & Hw & Ha & Hb).
  eexists. split; [vm_compute; reflexivity|]. split; [reflexivity|].
  assert (Ew : w = String a (string_of_list_ascii [b; "1"%char])).
  { rewrite <- (string_of_list_ascii_of_string w), Hw. reflexivity. }
  set (text := before +:+ w).
  assert (Hk : forall k,
            match penultimate k with
            | Some c => negb (Ascii.eqb c "t") && negb (Ascii.eqb c "T")
            | None => true
            end = true ->
            String.eqb text k = false).
  { intros k Hk. unfold text. rewrite Ew.
    replace (before +:+ String a (string_of_list_ascii [b; "1"%char]))
      with ((before +:+ String a "") +:+ string_of_list_ascii [b; "1"%char])
      by apply append_snoc.
    now apply eqb_keyword. }
  assert (Hexact : forall p,
            spells (list_ascii_of_string p) (list_ascii_of_string w) = false ->
            String.length p = 3 ->
            test (Cat [Bos; Lit_i p; Eos]) text = false).
  { intros p Hp Hlen. destruct (test _ text) eqn:E; [|reflexivity].
    apply test_exact in E. pose proof (spells_length _ _ E) as HL.
    unfold text in E, HL. rewrite list_ascii_of_string_append in E, HL.
    rewrite length_app, Hw in HL. cbn [List.length] in HL.
    rewrite <- (list_ascii_of_string_of_list_ascii (list_ascii_of_string p)) in HL.
    assert (List.length (list_ascii_of_string p) = 3).
    { clear - Hlen. destruct p as [|? [|? [|? [|? ?]]]]; cbn in *; congruence. }
    rewrite list_ascii_of_string_of_list_ascii in HL.
    destruct (list_ascii_of_string before); [|cbn in HL; lia].
    cbn [app] in E. congruence. }
  assert (Hlast : test (Alt (Cat [Bos; Lit_i "n17"]) (Cat [Lit_i "nt1"; Eos])) text
                  = true).
  { unfold test, text. rewrite list_ascii_of_string_append, Hw.
    match goal with
    | |- match ?m with _ => _ end = _ => destruct m eqn:E; [reflexivity|]
    end.
    exfalso. revert E. apply search_suffix.
    intros bos. destruct Ha as [-> | ->], Hb as [-> | ->], bos; vm_compute; discriminate. }
  unfold Layers.layerSearchResults. cbv zeta. fold text.
  rewrite !Hk by reflexivity.
  rewrite !Hexact by (try reflexivity; rewrite Hw;
                      destruct Ha as [-> | ->], Hb as [-> | ->]; reflexivity).
  rewrite Hlast. cbn [orb]. apply push_Object. vm_compute. reflexivity.
Qed.

End LayerSearch.

Lemma layerSearch_accepts_any_text_from_n17_witness :
  exists s,
    index Layers.natureSublayers 16 = Some s
    /\ Layers.Sublayer.name s = "N17_1"
    /\ Layers.layerSearchResults sample_THEMELAYER sample_toLowerCase "N170"
       = Ok (layers_group sample_THEMELAYER sample_toLowerCase [s]).
Proof.
  apply (layerSearch_accepts_any_text_from_n17 sample_THEMELAYER sample_toLowerCase
           "N17" "0"). reflexivity.
Defined.

Lemma layerSearch_accepts_any_text_to_nt1_witness :
  exists s,
    index Layers.natureSublayers 16 = Some s
    /\ Layers.Sublayer.name s = "N17_1"
    /\ Layers.layerSearchResults sample_THEMELAYER sample_toLowerCase "Mont1"
       = Ok (layers_group sample_THEMELAYER sample_toLowerCase [s]).
Proof.
  apply (layerSearch_accepts_any_text_to_nt1 sample_THEMELAYER sample_toLowerCase
           "Mo" "nt1"). reflexivity.
Defined.

(** ** The providers of the table *)

Section Providers.

Variable Number_toString : number -> string.
Variable reprojectBbox : list number -> string -> string -> list number.
Variable toUpperCase : string -> string.
Variable THEMELAYER : value.
Variable toLowerCase : string -> string.

Let table : list (string * Provider) :=
  SearchProviders Number_toString reprojectBbox toUpperCase THEMELAYER toLowerCase.

Local Abbreviation built_by := (built_by THEMELAYER toLowerCase).

Lemma coordinatesSearch_items (P : Item -> Prop) text requestId searchOptions :
  (forall id_ text_ x y crs, P (coordinates_item id_ text_ x y crs)) ->
  deliveries_satisfy P
    (trace (Coordinates.coordinatesSearch Number_toString text requestId searchOptions)).
Proof.
  intros HP. unfold Coordinates.coordinatesSearch.
  destruct (String_match text Coordinates.coordinates_re) as [m|];
    [|apply deliveries_satisfy_one; constructor].
  destruct (3 <=? List.length m); [|apply deliveries_satisfy_one; constructor].
  set (crs := or_string (displaycrs searchOptions) "EPSG:4326").
  set (x := parseFloat_opt (nth 1 m None)). set (y := parseFloat_opt (nth 2 m None)).
  destruct (negb (String.eqb crs "EPSG:4326"));
    destruct (num_ge x (num_of_Z (-180)) && num_le x (num_of_Z 180)
              && num_ge y (num_of_Z (-90)) && num_le y (num_of_Z 90));
    destruct (num_ge x (num_of_Z (-90)) && num_le x (num_of_Z 90)
              && num_ge y (num_of_Z (-180)) && num_le y (num_of_Z 180)
              && negb (num_eq x y));
    apply deliveries_satisfy_one; repeat constructor; apply HP.
Qed.

(** Every item that a provider of the table delivers is one that it builds. *)
Lemma onSearch_items_built key p text requestId searchOptions net :
  In (key, p) table ->
  deliveries_satisfy (built_by key) (trace (onSearch p text requestId searchOptions net)).
Proof.
  unfold table, SearchProviders. cbn [In].
  intros H.
  repeat (destruct H as [H|H]; [inversion H; subst; clear H; cbn [onSearch]|]);
    [ | | | | | | | destruct H].
  - apply coordinatesSearch_items. intros. cbn. eauto 6.
  - rewrite geoAdminLocationSearch_trace.
    destruct (geoadmin_search net text) as [d|e]; [|apply deliveries_satisfy_nil].
    destruct (GeoAdmin.geoAdminLocationSearchResults _ _ _) as [a|e] eqn:E;
      [|apply deliveries_satisfy_nil].
    apply deliveries_satisfy_one.
    eapply geoAdminLocationSearchResults_items; [|exact E]. intros. cbn. eauto.
  - rewrite usterSearch_trace.
    destruct (uster_search net text); [|apply deliveries_satisfy_nil].
    apply deliveries_satisfy_one. apply usterSearchResults_items. intros. cbn. eauto.
  - rewrite wolfsburgSearch_trace.
    destruct (wolfsburg_search net text); [|apply deliveries_satisfy_nil].
    apply deliveries_satisfy_one. apply wolfsburgSearchResults_items. intros. cbn. eauto.
  - rewrite glarusSearch_trace.
    destruct (glarus_search net text) as [d|e]; [|apply deliveries_satisfy_empty].
    destruct (Glarus.glarusSearchResults _ _ _) as [a|e] eqn:E;
      [|apply deliveries_satisfy_empty].
    apply deliveries_satisfy_one.
    eapply glarusSearchResults_items; [| |exact E]; intros; cbn; eauto.
  - rewrite nominatimSearch_trace.
    destruct (nominatim_search net text) as [d|e]; [|apply deliveries_satisfy_nil].
    destruct (Nominatim.nominatimSearchResults _ _ _) as [a|e] eqn:E;
      [|apply deliveries_satisfy_nil].
    apply deliveries_satisfy_one.
    eapply nominatimSearchResults_items; [|exact E]. intros. cbn. eauto.
  - rewrite layerSearch_trace.
    destruct (Layers.layerSearchResults THEMELAYER toLowerCase text) as [groups|e] eqn:E;
      [|apply deliveries_satisfy_nil].
    apply deliveries_satisfy_one. cbn [results_of data].
    eapply layerSearchResults_items; [|exact E]. intros. cbn. eauto.
Qed.

Lemma getMoreResults_items_built key p more moreItem text requestId net :
  In (key, p) table ->
  getMoreResults p = Some more ->
  key = "glarus"
  /\ deliveries_satisfy (built_by key) (trace (more moreItem text requestId net)).
Proof.
  unfold table, SearchProviders. cbn [In].
  intros H.
  repeat (destruct H as [H|H];
          [inversion H; subst; clear H; cbn [getMoreResults]; try discriminate|]);
    [ | destruct H].
  intros M; inversion M; subst; clear M. split; [reflexivity|].
  rewrite glarusMoreResults_trace.
  destruct (glarus_more net moreItem text) as [d|e]; [|apply deliveries_satisfy_empty].
  destruct (Glarus.glarusSearchResults _ _ _) as [a|e] eqn:E;
    [|apply deliveries_satisfy_empty].
  apply deliveries_satisfy_one.
  eapply glarusSearchResults_items; [| |exact E]; intros; cbn; eauto.
Qed.

Lemma deliveries_satisfy_impl (P Q : Item -> Prop) actions :
  (forall it, P it -> Q it) ->
  deliveries_satisfy P actions -> deliveries_satisfy Q actions.
Proof.
  intros HPQ H a Ha. specialize (H a Ha). unfold all_items in *.
  eapply Forall_impl; [|exact H]. intros g Hg. eapply Forall_impl; [|exact Hg].
  exact HPQ.
Qed.

Lemma stamped_geoadmin obj requestId a :
  GeoAdmin.geoAdminLocationSearchResults reprojectBbox obj requestId = Ok a ->
  stamped (VStr "geoadmin") (VBool true) a.
Proof.
  unfold GeoAdmin.geoAdminLocationSearchResults.
  destruct (GeoAdmin.loop _ _ _); [|discriminate]. now intros [= <-].
Qed.

Lemma stamped_glarus obj requestId limit a :
  Glarus.glarusSearchResults obj requestId limit = Ok a ->
  stamped (VStr "glarus") (VBool true) a.
Proof.
  unfold Glarus.glarusSearchResults.
  destruct (Glarus.loop _ _ _); [|discriminate]. now intros [= <-].
Qed.

Lemma stamped_nominatim obj requestId a :
  Nominatim.nominatimSearchResults toUpperCase obj requestId = Ok a ->
  stamped (VStr "nominatim") (VBool true) a.
Proof.
  unfold Nominatim.nominatimSearchResults.
  destruct (Nominatim.loop _ _ _); [|discriminate]. now intros [= <-].
Qed.

Lemma onSearch_stamped key p text requestId searchOptions net :
  In (key, p) table ->
  Forall (stamped (VStr key) (VBool true))
    (trace (onSearch p text requestId searchOptions net)).
Proof.
  unfold table, SearchProviders. cbn [In].
  intros H.
  repeat (destruct H as [H|H]; [inversion H; subst; clear H; cbn [onSearch]|]);
    [ | | | | | | | destruct H].
  - destruct (coordinatesSearch_trace Number_toString text requestId searchOptions)
      as [groups ->]. repeat constructor.
  - rewrite geoAdminLocationSearch_trace.
    destruct (geoadmin_search net text) as [d|e]; [|constructor].
    destruct (GeoAdmin.geoAdminLocationSearchResults _ _ _) as [a|e] eqn:E;
      [|constructor].
    repeat constructor; eapply stamped_geoadmin; eauto.
  - rewrite usterSearch_trace. destruct (uster_search net text); repeat constructor.
  - rewrite wolfsburgSearch_trace.
    destruct (wolfsburg_search net text); repeat constructor.
  - rewrite glarusSearch_trace.
    destruct (glarus_search net text) as [d|e]; [|repeat constructor].
    destruct (Glarus.glarusSearchResults _ _ _) as [a|e] eqn:E; [|repeat constructor].
    constructor; [|constructor]. eapply stamped_glarus; eauto.
  - rewrite nominatimSearch_trace.
    destruct (nominatim_search net text) as [d|e]; [|constructor].
    destruct (Nominatim.nominatimSearchResults _ _ _) as [a|e] eqn:E; [|constructor].
    constructor; [|constructor]. eapply stamped_nominatim; eauto.
  - rewrite layerSearch_trace.
    destruct (Layers.layerSearchResults _ _ _); repeat constructor.
Qed.

Lemma getMoreResults_stamped key p more moreItem text requestId net :
  In (key, p) table ->
  getMoreResults p = Some more ->
  Forall (stamped (VStr key) (VBool true)) (trace (more moreItem text requestId net)).
Proof.
  unfold table, SearchProviders. cbn [In].
  intros H.
  repeat (destruct H as [H|H];
          [inversion H; subst; clear H; cbn [getMoreResults]; try discriminate|]);
    [ | destruct H].
  intros M; inversion M; subst; clear M.
  rewrite glarusMoreResults_trace.
  destruct (glarus_more net moreItem text) as [d|e]; [|repeat constructor].
  destruct (Glarus.glarusSearchResults _ _ _) as [a|e] eqn:E; [|repeat constructor].
  constructor; [|constructor]. eapply stamped_glarus; eauto.
Qed.

(** X16.  Every action that a provider of the table dispatches names the provider
    by the key under which it is registered, and asks for its results to be
    appended ([append] is [true]). *)
Theorem deliveries_name_their_provider (p : Provider) (key text : string)
    (requestId : value) (searchOptions : SearchOptions) (net : Network) :
  provider_named table key = Some p ->
  Forall (stamped (VStr key) (VBool true))
    (trace (onSearch p text requestId searchOptions net))
  /\ (forall more moreItem,
        getMoreResults p = Some more ->
        Forall (stamped (VStr key) (VBool true))
          (trace (more moreItem text requestId net))).
Proof.
  intros H. apply provider_named_In in H. split.
  - now apply onSearch_stamped.
  - intros more moreItem Hm. eapply getMoreResults_stamped; eauto.
Qed.

(** X17.  A provider of the table that has no [getMoreResults] never delivers a
    "more" entry: only the glarus provider, which has one, does. *)
Theorem more_entries_only_with_getMoreResults (p : Provider) (key text : string)
    (requestId : value) (searchOptions : SearchOptions) (net : Network) :
  provider_named table key = Some p ->
  getMoreResults p = None ->
  deliveries_satisfy (fun it => prop it "more" = VUndefined)
    (trace (onSearch p text requestId searchOptions net)).
Proof.
  intros H Hm. apply provider_named_In in H.
  pose proof (onSearch_items_built key p text requestId searchOptions net H) as B.
  eapply deliveries_satisfy_impl; [|exact B].
  clear B. intros it. revert H Hm. unfold table, SearchProviders. cbn [In].
  intros H.
  repeat (destruct H as [H|H];
          [inversion H; subst; clear H; cbn [getMoreResults]; try discriminate|]);
    [ | | | | | | destruct H]; intros _; cbn.
  - intros (? & ? & ? & ? & ? & ->). reflexivity.
  - intros (? & ? & ->). reflexivity.
  - intros (? & ? & ? & ->). reflexivity.
  - intros (? & ? & ? & ->). reflexivity.
  - intros (? & ? & ? & ? & ->). reflexivity.
  - intros ([s|] & Hs); cbn in Hs; [|discriminate]. now injection Hs as <-.
Qed.

(** X18.  A provider of the table that has a geometry resolver (uster, wolfsburg,
    glarus) gives every place it delivers in one coordinate reference system,
    and its resolver hands its callback the selected item together with that
    same system. *)
Theorem resolver_crs_is_crs_of_items (p : Provider) (key text : string)
    (requestId : value) (searchOptions : SearchOptions) (net : Network)
    (resolve : Item -> Network -> M CallbackCall unit) :
  provider_named table key = Some p ->
  getResultGeometry p = Some resolve ->
  deliveries_satisfy
    (fun it => prop it "more" = VBool true \/ prop it "crs" = VStr (crs_of key))
    (trace (onSearch p text requestId searchOptions net))
  /\ (forall more moreItem,
        getMoreResults p = Some more ->
        deliveries_satisfy
          (fun it => prop it "more" = VBool true \/ prop it "crs" = VStr (crs_of key))
          (trace (more moreItem text requestId net)))
  /\ (forall resultItem,
        Forall (fun call => cb_item call = resultItem
                            /\ cb_crs call = VStr (crs_of key))
          (trace (resolve resultItem net))).
Proof.
  intros H Hr. apply provider_named_In in H.
  pose proof (onSearch_items_built key p text requestId searchOptions net H) as B.
  pose proof (fun more moreItem =>
                getMoreResults_items_built key p more moreItem text requestId net H) as BM.
  assert (Q : (forall it, built_by key it ->
                 prop it "more" = VBool true \/ prop it "crs" = VStr (crs_of key))
              /\ (forall resultItem,
                    Forall (fun call => cb_item call = resultItem
                                        /\ cb_crs call = VStr (crs_of key))
                      (trace (resolve resultItem net)))).
  { clear B BM. revert H Hr. unfold table, SearchProviders. cbn [In].
    intros H.
    repeat (destruct H as [H|H];
            [inversion H; subst; clear H; cbn [getResultGeometry]; try discriminate|]);
      [ | | | destruct H]; intros [= <-]; (split; [cbn; intros it|intros resultItem]).
    - intros (? & ? & ? & ->). now right.
    - destruct (uster_geometry net resultItem); repeat constructor.
    - intros (? & ? & ? & ->). now right.
    - destruct (wolfsburg_geometry net resultItem); repeat constructor.
    - intros [(g & f & Hf)|(? & ? & ->)]; [|now left].
      unfold Glarus.feature_item in Hf.
      destruct (Glarus.Feature.bbox f); [|discriminate]. injection Hf as <-. now right.
    - destruct (glarus_geometry net resultItem); repeat constructor. }
  destruct Q as [Q1 Q2]. split; [|split; [|exact Q2]].
  - eapply deliveries_satisfy_impl; [exact Q1|exact B].
  - intros more moreItem Hm. destruct (BM more moreItem Hm) as [_ B'].
    eapply deliveries_satisfy_impl; [exact Q1|exact B'].
Qed.

(** X11.  A provider made by [searchProviderFactory] has neither a geometry
    resolver nor [getMoreResults]; its label and the layer it requires are
    those of its configuration.  Its [onSearch] always dispatches exactly one
    action and is never left rejected: the groups of the service, unchanged,
    when the request succeeds and the empty list when it fails, under the key
    of the configuration and with no [append] flag. *)
Theorem factory_provider_passes_groups_through (cfg : Parametrized.Config)
    (text : string) (requestId : value) (searchOptions : SearchOptions)
    (net : Network) :
  let p := searchProviderFactory cfg in
  label p = Parametrized.label cfg
  /\ requiresLayer p = Parametrized.layerName cfg
  /\ getResultGeometry p = None
  /\ getMoreResults p = None
  /\ trace (onSearch p text requestId searchOptions net)
     = [addSearchResults
          {| data := match parametrized_search net cfg text with
                     | Ok groups => groups
                     | Fail _ => []
                     end;
             provider := Parametrized.key cfg; reqId := requestId |}
          VUndefined]
  /\ settled (onSearch p text requestId searchOptions net) = Ok tt.
Proof.
  cbv zeta. cbn [label requiresLayer getResultGeometry getMoreResults onSearch
                 searchProviderFactory].
  repeat split.
  - apply parametrizedSearch_trace.
  - unfold Parametrized.parametrizedSearch.
    now destruct (parametrized_search net cfg text).
Qed.

End Providers.

Lemma more_entries_only_with_getMoreResults_witness :
  exists p,
    provider_named sample_table "uster" = Some p
    /\ getMoreResults p = None
    /\ deliveries_satisfy (fun it => prop it "more" = VUndefined)
         (trace (onSearch p "bahn" (VNum (num_of_Z 7)) sample_options sample_network)).
Proof.
  eexists. split; [reflexivity|]. split; [reflexivity|].
  apply (more_entries_only_with_getMoreResults sample_Number_toString
           sample_reprojectBbox sample_toUpperCase sample_THEMELAYER sample_toLowerCase
           _ "uster"); reflexivity.
Defined.

Lemma deliveries_name_their_provider_witness :
  exists p,
    provider_named sample_table "glarus" = Some p
    /\ Forall (stamped (VStr "glarus") (VBool true))
         (trace (onSearch p "bahn" (VNum (num_of_Z 7)) sample_options sample_network))
    /\ (forall more moreItem,
          getMoreResults p = Some more ->
          Forall (stamped (VStr "glarus") (VBool true))
            (trace (more moreItem "bahn" (VNum (num_of_Z 7)) sample_network))).
Proof.
  eexists. split; [reflexivity|].
  apply (deliveries_name_their_provider sample_Number_toString
           sample_reprojectBbox sample_toUpperCase sample_THEMELAYER sample_toLowerCase
           _ "glarus"). reflexivity.
Defined.

Lemma resolver_crs_is_crs_of_items_witness :
  exists p resolve,
    provider_named sample_table "uster" = Some p
    /\ getResultGeometry p = Some resolve
    /\ deliveries_satisfy
         (fun it => prop it "more" = VBool true \/ prop it "crs" = VStr "EPSG:21781")
         (trace (onSearch p "bahn" (VNum (num_of_Z 7)) sample_options sample_network))
    /\ (forall more moreItem,
          getMoreResults p = Some more ->
          deliveries_satisfy
            (fun it => prop it "more" = VBool true \/ prop it "crs" = VStr "EPSG:21781")
            (trace (more moreItem "bahn" (VNum (num_of_Z 7)) sample_network)))
    /\ (forall resultItem,
          Forall (fun call => cb_item call = resultItem
                              /\ cb_crs call = VStr "EPSG:21781")
            (trace (resolve resultItem sample_network))).
Proof.
  do 2 eexists. split; [reflexivity|]. split; [reflexivity|].
  apply (resolver_crs_is_crs_of_items sample_Number_toString
           sample_reprojectBbox sample_toUpperCase sample_THEMELAYER sample_toLowerCase
           _ "uster"); reflexivity.
Defined.

(** ** Unique ids of the groups *)

Section UniqueGroupIds.

Variable Number_toString : number -> string.
Variable reprojectBbox : list number -> string -> string -> list number.
Variable toUpperCase : string -> string.
Variable THEMELAYER : value.
Variable toLowerCase : string -> string.

Let table : list (string * Provider) :=
  SearchProviders Number_toString reprojectBbox toUpperCase THEMELAYER toLowerCase.

Lemma usterSearchResults_ids obj requestId :
  NoDup (map id (data (results_of (Uster.usterSearchResults obj requestId)))).
Proof.
  destruct obj as [[entries|]]; [|constructor].
  change (NoDup (map id (uster_groups requestId entries))).
  rewrite uster_groups_grouping.
  now apply (grouping_uniquely_numbered _ _ _ "ustergroup" "usterresult").
Qed.

Lemma wolfsburgSearchResults_ids obj requestId :
  NoDup (map id (data (results_of (Wolfsburg.wolfsburgSearchResults obj requestId)))).
Proof.
  destruct obj as [[entries|]]; [|constructor].
  change (NoDup (map id (wolfsburg_groups requestId entries))).
  rewrite wolfsburg_groups_grouping.
  now apply (grouping_uniquely_numbered _ _ _ "wolfsburggroup" "wolfsburgresult").
Qed.

(** X19.  The format of the results asks for a unique id of each group.  Every
    provider of the table but glarus keeps to it: in each action that its
    [onSearch] dispatches, no two groups share an id.  (The glarus provider
    takes the ids of its groups from the answer of its service.) *)
Theorem group_ids_unique (p : Provider) (key text : string)
    (requestId : value) (searchOptions : SearchOptions) (net : Network) :
  provider_named table key = Some p ->
  key <> "glarus" ->
  Forall (fun a => NoDup (map id (data (results_of a))))
    (trace (onSearch p text requestId searchOptions net)).
Proof.
  intros H Hk. apply provider_named_In in H. revert H.
  unfold table, SearchProviders. cbn [In].
  intros H.
  repeat (destruct H as [H|H]; [inversion H; subst; clear H; cbn [onSearch]|]);
    [ | | | | | | | destruct H].
  - unfold Coordinates.coordinatesSearch.
    match goal with
    | |- context [if (0 <? ?n) then _ else _] => destruct (0 <? n)
    end; repeat constructor; intros [].
  - rewrite geoAdminLocationSearch_trace.
    destruct (geoadmin_search net text) as [d|e]; [|constructor].
    destruct (GeoAdmin.geoAdminLocationSearchResults _ _ _) as [a|e] eqn:E;
      [|constructor].
    constructor; [|constructor].
    rewrite (GeoAdminFacts.geoadmin_normalized_data _ _ _ _ E).
    apply GeoAdminFacts.geoadmin_group_ids_NoDup.
  - rewrite usterSearch_trace. destruct (uster_search net text); [|constructor].
    constructor; [|constructor]. apply usterSearchResults_ids.
  - rewrite wolfsburgSearch_trace.
    destruct (wolfsburg_search net text); [|constructor].
    constructor; [|constructor]. apply wolfsburgSearchResults_ids.
  - contradiction.
  - rewrite nominatimSearch_trace.
    destruct (nominatim_search net text) as [d|e]; [|constructor].
    destruct (Nominatim.nominatimSearchResults _ _ _) as [a|e] eqn:E; [|constructor].
    constructor; [|constructor].
    rewrite (NominatimFacts.nominatim_normalized_data _ _ _ _ E), NominatimFacts.nominatim_grouped_ids.
    apply NoDup_numbered.
  - rewrite layerSearch_trace.
    destruct (layerSearchResults_layers_group THEMELAYER toLowerCase text)
      as (ls & -> & _).
    constructor; [|constructor]. cbn [results_of data].
    destruct ls; repeat constructor. intros [].
Qed.

End UniqueGroupIds.

Lemma group_ids_unique_witness :
  exists p,
    provider_named sample_table "uster" = Some p
    /\ "uster" <> "glarus"
    /\ Forall (fun a => NoDup (map id (data (results_of a))))
         (trace (onSearch p "bahn" (VNum (num_of_Z 7)) sample_options sample_network)).
Proof.
  eexists. split; [reflexivity|]. split; [discriminate|].
  apply (group_ids_unique sample_Number_toString
           sample_reprojectBbox sample_toUpperCase sample_THEMELAYER sample_toLowerCase
           _ "uster"); [reflexivity|discriminate].
Defined.

(** ** Reading back what is written *)

(** *** The greedy star *)

(** On a run of characters of the class followed by none, the star of the
    class reads the whole run at its first attempt: when the rest of the
    pattern succeeds from there, so does the star. *)
Lemma rmatch_star_run p ds : forall bos rest c k res,
  forallb p ds = true -> starts_outside p rest ->
  k (match ds with [] => bos | _ :: _ => false end) rest c = Some res ->
  rmatch (Star (Chr p)) bos (ds ++ rest) c k = Some res.
Proof.
  induction ds as [|d ds IH]; intros bos rest c k res Hds Hrest Hk.
  - cbn [app]. cbn [rmatch]. destruct rest as [|a rest]; [exact Hk|].
    cbn [List.length]. cbn in Hrest. rewrite Hrest. exact Hk.
  - cbn [forallb] in Hds. apply andb_true_iff in Hds. destruct Hds as [Hd Hds].
    specialize (IH false rest c k res Hds Hrest).
    assert (Hk' : k (match ds with [] => false | _ :: _ => false end) rest c = Some res)
      by (destruct ds; exact Hk).
    specialize (IH Hk').
    cbn [app List.length rmatch]. rewrite Hd.
    replace (List.length (ds ++ rest) <? S (List.length (ds ++ rest))) with true
      by (symmetry; apply Nat.ltb_lt; lia).
    cbn [rmatch] in IH. now rewrite IH.
Qed.

Lemma rmatch_star_none p bos s c k :
  starts_outside p s -> rmatch (Star (Chr p)) bos s c k = k bos s c.
Proof.
  intros H. cbn [rmatch]. destruct s as [|a s]; [reflexivity|].
  cbn [List.length]. cbn in H. now rewrite H.
Qed.

Lemma rmatch_opt_none p bos s c k :
  starts_outside p s -> rmatch (Opt (Chr p)) bos s c k = k bos s c.
Proof.
  intros H. unfold Opt. cbn [rmatch]. destruct s as [|a s]; [reflexivity|].
  cbn in H. now rewrite H.
Qed.

(** *** The number patterns on a numeral *)

Lemma rmatch_decimal_re ds bos rest c k res :
  ds <> [] -> forallb is_digit ds = true ->
  starts_outside (fun a => is_digit a || is_char "." a) rest ->
  k false rest c = Some res ->
  rmatch GeoAdmin.decimal_re bos (ds ++ rest) c k = Some res.
Proof.
  intros Hne Hds Hrest Hk. destruct ds as [|d ds]; [contradiction|].
  cbn [forallb] in Hds. apply andb_true_iff in Hds. destruct Hds as [Hd Hds].
  assert (Hdigit : starts_outside is_digit rest).
  { destruct rest as [|a rest]; [exact I|]. cbn in *. now apply orb_false_iff in Hrest. }
  assert (Hdot : starts_outside (is_char ".") rest).
  { destruct rest as [|a rest]; [exact I|]. cbn in *. now apply orb_false_iff in Hrest. }
  unfold GeoAdmin.decimal_re, Cat, Plus. cbn [fold_right app].
  cbn [rmatch]. rewrite Hd.
  change ((fix loop (fuel : nat) (bos0 : bool) (s : list ascii) (c0 : captures)
             {struct fuel} : option captures := _) (List.length (ds ++ rest)) false
            (ds ++ rest) c)
    with (rmatch (Star (Chr is_digit)) false (ds ++ rest) c
            (fun b' s' c' =>
               rmatch (Seq (Opt (Chr (is_char "."))) (Seq (Star (Chr is_digit)) Eps))
                 b' s' c' k)).
  apply rmatch_star_run; [assumption|assumption|].
  change (rmatch (Opt (Chr (is_char ".")))
            (match ds with [] => false | _ :: _ => false end) rest c
            (fun b' s' c' => rmatch (Seq (Star (Chr is_digit)) Eps) b' s' c' k)
          = Some res).
  rewrite rmatch_opt_none by assumption.
  change (rmatch (Star (Chr is_digit)) (match ds with [] => false | _ :: _ => false end)
            rest c (fun b' s' c' => rmatch Eps b' s' c' k) = Some res).
  rewrite rmatch_star_none by assumption. cbn [rmatch]. now destruct ds.
Qed.

Lemma rmatch_number_re ds bos rest c k res :
  ds <> [] -> forallb is_digit ds = true ->
  starts_outside (fun a => is_digit a || is_char "." a) rest ->
  k false rest c = Some res ->
  rmatch Coordinates.number_re bos (ds ++ rest) c k = Some res.
Proof.
  intros Hne Hds Hrest Hk.
  assert (Hsign : starts_outside (fun a => is_char "+" a || is_char "-" a) (ds ++ rest)).
  { destruct ds as [|d ds]; [contradiction|]. cbn [app starts_outside].
    cbn [forallb] in Hds. apply andb_true_iff in Hds. destruct Hds as [Hd _].
    destruct (digit_class d Hd) as (_ & Hm & Hp & _). now rewrite Hm, Hp. }
  change Coordinates.number_re
    with (Seq (Opt (Chr (fun a => is_char "+" a || is_char "-" a))) GeoAdmin.decimal_re).
  cbn [rmatch]. 
  change (rmatch (Opt (Chr (fun a => is_char "+" a || is_char "-" a))) bos (ds ++ rest) c
            (fun b' s' c' => rmatch GeoAdmin.decimal_re b' s' c' k) = Some res).
  rewrite rmatch_opt_none by assumption. now apply rmatch_decimal_re.
Qed.

(** A number pattern in capturing parentheses captures the numeral. *)
Lemma rmatch_Group i r ds bos rest c k res :
  (forall k',
     k' false rest c = Some res -> rmatch r bos (ds ++ rest) c k' = Some res) ->
  k false rest ((i, ds) :: c) = Some res ->
  rmatch (Group i r) bos (ds ++ rest) c k = Some res.
Proof.
  intros Hr Hk. cbn [rmatch]. apply Hr. now rewrite firstn_consumed.
Qed.

(** *** Numerals *)

Lemma uint_digits d :
  forallb is_digit (list_ascii_of_string (NilEmpty.string_of_uint d)) = true.
Proof. induction d; cbn [NilEmpty.string_of_uint list_ascii_of_string forallb]; auto. Qed.

Lemma numeral_digits n : forallb is_digit (numeral n) = true.
Proof. apply uint_digits. Qed.

Lemma numeral_nonempty n : numeral n <> [].
Proof.
  unfold numeral, nat_to_string. intros H.
  assert (E : Nat.to_uint n = Decimal.Nil).
  { destruct (Nat.to_uint n); cbn in H; try discriminate. reflexivity. }
  pose proof (Unsigned.of_to n) as Hn. rewrite E in Hn. cbn in Hn. subst n.
  discriminate E.
Qed.

Lemma uint_value d : forall acc,
  (0 <= acc)%Z ->
  fold_left (fun acc d => (10 * acc + Z.of_nat (nat_of_ascii d - 48))%Z)
    (list_ascii_of_string (NilEmpty.string_of_uint d)) acc
  = Z.of_nat (Nat.of_uint_acc d (Z.to_nat acc)).
Proof.
  induction d; intros acc Ha;
    cbn [NilEmpty.string_of_uint list_ascii_of_string fold_left Nat.of_uint_acc];
    [now rewrite Z2Nat.id|..].
  all: rewrite IHd by lia.
  all: f_equal; f_equal; rewrite Nat.tail_mul_spec.
  all: match goal with
       | |- context [nat_of_ascii ?a - 48] =>
           let v := eval vm_compute in (nat_of_ascii a - 48) in
           change (nat_of_ascii a - 48) with v
       end; lia.
Qed.

Lemma numeral_value n : digits_value (numeral n) = Z.of_nat n.
Proof.
  unfold digits_value, numeral, nat_to_string. rewrite uint_value by lia.
  change (Z.to_nat 0) with 0. fold (Nat.of_uint (Nat.to_uint n)).
  now rewrite Unsigned.of_to.
Qed.

Lemma span_digits ds rest :
  forallb is_digit ds = true -> starts_outside is_digit rest ->
  span is_digit (ds ++ rest) = (ds, rest).
Proof.
  induction ds as [|d ds IH]; intros Hds Hrest; cbn [app span].
  - destruct rest as [|a rest]; [reflexivity|]. cbn in Hrest. cbn [span].
    now rewrite Hrest.
  - cbn [forallb] in Hds. apply andb_true_iff in Hds. destruct Hds as [Hd Hds].
    now rewrite Hd, IH.
Qed.

(** [parseFloat] reads a numeral as the double nearest to the number it
    spells. *)
Lemma parseFloat_numeral n :
  parseFloat (string_of_list_ascii (numeral n)) = double_of_nat n.
Proof.
  pose proof (numeral_digits n) as Hds. pose proof (numeral_nonempty n) as Hne.
  pose proof (numeral_value n) as Hv.
  unfold parseFloat. rewrite list_ascii_of_string_of_list_ascii.
  destruct (numeral n) as [|d ds] eqn:E; [contradiction|].
  cbn [forallb] in Hds. apply andb_true_iff in Hds. destruct Hds as [Hd Hds].
  destruct (digit_class d Hd) as (Hs & Hm & Hp & Hi).
  cbn [trim_start]. rewrite Hs, Hm, Hp.
  cbn [list_ascii_of_string starts_with]. rewrite Hi. cbn [andb].
  rewrite <- (app_nil_r (d :: ds)) at 1.
  rewrite span_digits; [|cbn [forallb]; now rewrite Hd, Hds|exact I].
  cbn [app List.length exponent_part]. rewrite app_nil_r in *.
  unfold double_of_nat, scale10. cbn [Z.leb Z.sub Z.of_nat Z.opp Z.add Z.compare].
  rewrite Hv. f_equal. f_equal. cbn. lia.
Qed.

(** Up to [2^53] the double nearest to a natural number is the number. *)
Lemma double_of_nat_exact n :
  (Z.of_nat n <= 2 ^ 53)%Z -> double_of_nat n = num_of_Z (Z.of_nat n).
Proof. intros H. apply round64_integer. lia. Qed.

(** *** The equations of the matcher *)

Lemma rmatch_Seq r1 r2 bos s c k :
  rmatch (Seq r1 r2) bos s c k
  = rmatch r1 bos s c (fun b' s' c' => rmatch r2 b' s' c' k).
Proof. reflexivity. Qed.

Lemma rmatch_Eps bos s c k : rmatch Eps bos s c k = k bos s c.
Proof. reflexivity. Qed.

Lemma rmatch_Bos s c k : rmatch Bos true s c k = k true s c.
Proof. reflexivity. Qed.

Lemma rmatch_Eos bos c k : rmatch Eos bos [] c k = k bos [] c.
Proof. reflexivity. Qed.

Lemma rmatch_Chr p a bos s c k :
  p a = true -> rmatch (Chr p) bos (a :: s) c k = k false s c.
Proof. intros H. cbn [rmatch]. now rewrite H. Qed.

Lemma rmatch_Group_all r bos s c k :
  rmatch (Group 0 r) bos s c k
  = rmatch r bos s c
      (fun b' s' c' => k b' s' ((0, firstn (List.length s - List.length s') s) :: c')).
Proof. reflexivity. Qed.

Lemma numeral_starts_outside_space n rest : starts_outside is_space (numeral n ++ rest).
Proof.
  pose proof (numeral_digits n) as Hds. pose proof (numeral_nonempty n) as Hne.
  destruct (numeral n) as [|d ds]; [contradiction|]. cbn [app starts_outside].
  cbn [forallb] in Hds. apply andb_true_iff in Hds. destruct Hds as [Hd _].
  now destruct (digit_class d Hd).
Qed.

Lemma search_first r s res :
  rmatch (Group 0 r) true s [] (fun _ _ c => Some c) = Some res ->
  search r true s = Some res.
Proof. intros H. destruct s; cbn [search]; now rewrite H. Qed.

(** The pattern of [coordinatesSearch] accepts two numerals with a comma or
    a blank between them, and captures the two numerals. *)
Lemma coordinates_re_numerals a b sep :
  (sep = "," \/ sep = " ")%char ->
  String_match (string_of_list_ascii (numeral a ++ sep :: numeral b))
    Coordinates.coordinates_re
  = Some [Some (string_of_list_ascii (numeral a ++ sep :: numeral b));
          Some (nat_to_string a); Some (nat_to_string b)].
Proof.
  intros Hsep. unfold String_match. rewrite list_ascii_of_string_of_list_ascii.
  rewrite (search_first _ _ [(0, numeral a ++ sep :: numeral b);
                             (2, numeral b); (1, numeral a)]).
  - cbn [ngroups Coordinates.coordinates_re]. cbn. unfold numeral.
    now rewrite !string_of_list_ascii_of_string.
  - unfold Coordinates.coordinates_re, Cat. cbn [fold_right].
    rewrite rmatch_Group_all, rmatch_Seq, rmatch_Bos. cbv beta.
    rewrite rmatch_Seq, rmatch_star_none by apply numeral_starts_outside_space.
    cbv beta. rewrite rmatch_Seq.
    apply rmatch_Group.
    { intros k' Hk'. apply rmatch_number_re;
        [apply numeral_nonempty|apply numeral_digits| |exact Hk'].
      cbn. destruct Hsep as [-> | ->]; reflexivity. }
    cbv beta. rewrite rmatch_Seq, rmatch_Chr by (destruct Hsep as [-> | ->]; reflexivity).
    cbv beta. rewrite rmatch_Seq.
    rewrite <- (app_nil_r (numeral b)) at 1 2.
    rewrite rmatch_star_none by apply numeral_starts_outside_space.
    cbv beta. rewrite rmatch_Seq.
    apply rmatch_Group.
    { intros k' Hk'. apply rmatch_number_re;
        [apply numeral_nonempty|apply numeral_digits|exact I|exact Hk']. }
    cbv beta. rewrite rmatch_Seq, rmatch_star_none by exact I.
    cbv beta. rewrite rmatch_Seq, rmatch_Eos. cbv beta. rewrite rmatch_Eps.
    cbn [List.length]. now rewrite Nat.sub_0_r, firstn_all, app_nil_r.
Qed.

Lemma list_ascii_of_string_app s1 s2 :
  list_ascii_of_string (s1 +:+ s2) = list_ascii_of_string s1 ++ list_ascii_of_string s2.
Proof. induction s1 as [|a s1 IH]; cbn; [reflexivity|now rewrite IH]. Qed.

Lemma numeral_starts_outside_digit_or_dot a rest :
  (a = "," \/ a = " " \/ a = ")")%char ->
  starts_outside (fun a => is_digit a || is_char "." a) (a :: rest).
Proof. intros [-> | [-> | ->]]; reflexivity. Qed.

Ltac numeral_re lemma :=
  apply rmatch_Group;
  [ let k' := fresh "k" in
    let Hk' := fresh "Hk" in
    intros k' Hk'; apply lemma;
    [ apply numeral_nonempty | apply numeral_digits
    | first [exact I | apply numeral_starts_outside_digit_or_dot; tauto]
    | exact Hk' ]
  | cbv beta ].

(** The pattern of [parseItemBBox] accepts the text of a box with natural
    corners, and captures the four numerals. *)
Lemma box_re_numerals a b c d :
  String_match (box_text a b c d) GeoAdmin.box_re
  = Some [Some (box_text a b c d); Some (nat_to_string a); Some (nat_to_string b);
          Some (nat_to_string c); Some (nat_to_string d)].
Proof.
  unfold String_match.
  assert (Et : list_ascii_of_string (box_text a b c d)
               = ("B" :: "O" :: "X" :: "("
                  :: numeral a ++ " " :: numeral b ++ "," :: numeral c ++ " "
                  :: numeral d ++ [")"])%char).
  { unfold box_text. rewrite !list_ascii_of_string_app. reflexivity. }
  rewrite (search_first _ _ [(0, list_ascii_of_string (box_text a b c d));
                             (4, numeral d); (3, numeral c);
                             (2, numeral b); (1, numeral a)]).
  - cbn [ngroups GeoAdmin.box_re]. cbn -[box_text]. unfold numeral.
    now rewrite !string_of_list_ascii_of_string.
  -
    unfold GeoAdmin.box_re, Lit, Cat.
    cbn [fold_right map list_ascii_of_string].
    rewrite rmatch_Group_all, Et, rmatch_Seq, rmatch_Bos. cbv beta.
    do 3 (rewrite ?rmatch_Seq; rewrite rmatch_Chr by reflexivity; cbv beta).
    rewrite rmatch_Eps, rmatch_Seq, rmatch_star_none by reflexivity. cbv beta.
    rewrite rmatch_Seq, rmatch_Chr by reflexivity. cbv beta.
    rewrite rmatch_Seq, rmatch_star_none by apply numeral_starts_outside_space.
    cbv beta. rewrite rmatch_Seq. numeral_re rmatch_decimal_re.
    rewrite rmatch_Seq.
    apply (rmatch_star_run is_space [" "%char]);
      [reflexivity|apply numeral_starts_outside_space|cbv beta iota].
    rewrite rmatch_Seq. numeral_re rmatch_decimal_re.
    rewrite rmatch_Seq, rmatch_star_none by reflexivity. cbv beta.
    rewrite rmatch_Seq, rmatch_Chr by reflexivity. cbv beta.
    rewrite rmatch_Seq, rmatch_star_none by apply numeral_starts_outside_space.
    cbv beta. rewrite rmatch_Seq. numeral_re rmatch_decimal_re.
    rewrite rmatch_Seq.
    apply (rmatch_star_run is_space [" "%char]);
      [reflexivity|apply numeral_starts_outside_space|cbv beta iota].
    rewrite rmatch_Seq. numeral_re rmatch_decimal_re.
    rewrite rmatch_Seq, rmatch_star_none by reflexivity. cbv beta.
    rewrite rmatch_Seq, rmatch_Chr by reflexivity. cbv beta.
    rewrite rmatch_Seq, rmatch_Eos. cbv beta. rewrite rmatch_Eps.
    change (List.length (@nil ascii)) with 0. now rewrite Nat.sub_0_r, firstn_all.
Qed.

Lemma parseFloat_nat_to_string n :
  parseFloat_opt (Some (nat_to_string n)) = double_of_nat n.
Proof.
  rewrite <- parseFloat_numeral. unfold numeral.
  now rewrite string_of_list_ascii_of_string.
Qed.

Lemma pair_text_chars a sep b :
  pair_text a sep b = string_of_list_ascii (numeral a ++ sep :: numeral b).
Proof.
  rewrite <- (string_of_list_ascii_of_string (pair_text a sep b)). f_equal.
  unfold pair_text. now rewrite list_ascii_of_string_app.
Qed.

Section ReadingBack.

Variable Number_toString : number -> string.
Variable reprojectBbox : list number -> string -> string -> list number.

(** X20.  [coordinatesSearch] reads back what is written: for the text of two
    naturals [a] and [b] with a comma or a blank between them, and a display
    reference system other than EPSG:4326, the first item delivered is
    "coord0", the point in the display system whose coordinates are the
    doubles nearest to [a] and [b]; these are [a] and [b] themselves as long
    as the naturals do not exceed [2^53]. *)
Theorem coordinatesSearch_reads_naturals (a b : nat) (sep : ascii)
    (requestId : value) (searchOptions : SearchOptions) :
  let crs := or_string (displaycrs searchOptions) "EPSG:4326" in
  let x := double_of_nat a in
  let y := double_of_nat b in
  (sep = "," \/ sep = " ")%char ->
  crs <> "EPSG:4326" ->
  (exists others,
     delivered_items
       (trace (Coordinates.coordinatesSearch Number_toString (pair_text a sep b)
                 requestId searchOptions))
     = coordinates_item "coord0"
         (Number_toString x +:+ ", " +:+ Number_toString y
          +:+ " (" +:+ crs +:+ ")")
         x y crs
       :: others)
  /\ ((Z.of_nat a <= 2 ^ 53)%Z -> x = num_of_Z (Z.of_nat a))
  /\ ((Z.of_nat b <= 2 ^ 53)%Z -> y = num_of_Z (Z.of_nat b)).
Proof.
  intros crs x y Hsep Hcrs.
  split; [|split; apply double_of_nat_exact].
  unfold Coordinates.coordinatesSearch. fold crs.
  rewrite pair_text_chars, (coordinates_re_numerals a b sep Hsep).
  cbn [List.length Nat.leb nth]. rewrite !parseFloat_nat_to_string. fold x y.
  apply String.eqb_neq in Hcrs. rewrite Hcrs. cbn [negb app].
  destruct (num_ge x (num_of_Z (-180)) && num_le x (num_of_Z 180)
            && num_ge y (num_of_Z (-90)) && num_le y (num_of_Z 90));
    destruct (num_ge x (num_of_Z (-90)) && num_le x (num_of_Z 90)
              && num_ge y (num_of_Z (-180)) && num_le y (num_of_Z 180)
              && negb (num_eq x y));
    cbn -[x y]; eexists; reflexivity.
Qed.

(** X21.  [parseItemBBox] reads back what is written: the text of a box with
    natural corners [a b, c d] yields the reprojection, from EPSG:21781 to
    EPSG:4326, of the doubles nearest to the four numbers; these are the
    numbers themselves when none exceeds [2^53]. *)
Theorem parseItemBBox_reads_box (a b c d : nat) :
  GeoAdmin.parseItemBBox reprojectBbox (Some (box_text a b c d))
  = Ok (Some (reprojectBbox (map double_of_nat [a; b; c; d])
                "EPSG:21781" "EPSG:4326"))
  /\ (Forall (fun n => (Z.of_nat n <= 2 ^ 53)%Z) [a; b; c; d] ->
      map double_of_nat [a; b; c; d]
      = map (fun n => num_of_Z (Z.of_nat n)) [a; b; c; d]).
Proof.
  split.
  - unfold GeoAdmin.parseItemBBox. rewrite box_re_numerals.
    cbn [List.length Nat.ltb Nat.leb nth]. now rewrite !parseFloat_nat_to_string.
  - intros H. apply map_ext_in. intros n Hn.
    apply double_of_nat_exact. rewrite Forall_forall in H. now apply H.
Qed.

End ReadingBack.

Lemma coordinatesSearch_reads_naturals_witness :
  let crs := or_string (displaycrs sample_options) "EPSG:4326" in
  let x := double_of_nat 600 in
  let y := double_of_nat 200 in
  ((" " = ",") \/ (" " = " "))%char
  /\ crs <> "EPSG:4326"
  /\ (exists others,
        delivered_items
          (trace (Coordinates.coordinatesSearch sample_Number_toString
                    (pair_text 600 " " 200) (VNum (num_of_Z 7)) sample_options))
        = coordinates_item "coord0"
            (sample_Number_toString x +:+ ", " +:+ sample_Number_toString y
             +:+ " (" +:+ crs +:+ ")")
            x y crs
          :: others)
  /\ ((Z.of_nat 600 <= 2 ^ 53)%Z -> x = num_of_Z (Z.of_nat 600))
  /\ ((Z.of_nat 200 <= 2 ^ 53)%Z -> y = num_of_Z (Z.of_nat 200)).
Proof.
  assert (H1 : ((" " = ",") \/ (" " = " "))%char) by (right; reflexivity).
  assert (H2 : or_string (displaycrs sample_options) "EPSG:4326" <> "EPSG:4326")
    by discriminate.
  split; [exact H1|]. split; [exact H2|].
  exact (coordinatesSearch_reads_naturals sample_Number_toString 600 200 " "
           (VNum (num_of_Z 7)) sample_options H1 H2).
Defined.
